(** * Gaspar: the classifier, the simulators and the flow around them

    A shallow embedding of the TypeScript and JavaScript sources
      - [src/types.ts]                       (the data model),
      - [src/utils/googleMaps.ts], second unit ([analyzeProblem]),
      - [src/utils/thumbtackMock.ts]         ([getThumbtackMockVendors]),
      - [src/utils/simulator.ts], first unit ([simulateOutreach]) and
        second unit (the vendors of [fetchVendorsFromPlaces]),
      - [src/utils/apiClient.ts], second unit ([simulateBooking]),
      - [src/components/VendorDiscovery.tsx] (the vendor list and its
        status texts), [src/App.tsx] (the flow of the four views),
      - [src/unnamed/part_000] ([getLocationFromZip]), [src/unnamed/part_001]
        ([handleSubmit] of the intake view) and [src/unnamed/part_002]
        ([createRateLimiter], [validateApiKey]),
    followed by the properties of the specification that concern them and
    by further properties read off the code.

    Conventions of the embedding.
      - A JavaScript string is a [string]; the case mappings and the
        white-space class are those of ASCII text.
      - A JavaScript number that counts something is a [Z] or a [nat]; a
        number that is a fraction (a rate, a rating, a distance, a value of
        [Math.random()]) is a rational [Q]: rounding of doubles is not
        modelled.
      - [Math.random()], the clock read by [new Date()] and the timers are
        the environment: they live in a [World] that the asynchronous
        functions thread through their steps.  A timer of [d] ms moves the
        clock [d] ms forward.
      - An asynchronous function is a function from the world to the world
        and an outcome: [Ok v] when its promise resolves with [v], [Throw e]
        when it rejects. *)

From Stdlib Require Import String Ascii List ZArith QArith Qround Lia Bool.
From Stdlib Require Import DecimalString.
From stdpp Require Import list strings gmap.
Import ListNotations.

Open Scope list_scope.
Open Scope string_scope.

(** ** JavaScript library functions used by the sources *)

Module JS.

Definition is_upper (c : ascii) : bool :=
  let n := nat_of_ascii c in (65 <=? n)%nat && (n <=? 90)%nat.

Definition is_lower (c : ascii) : bool :=
  let n := nat_of_ascii c in (97 <=? n)%nat && (n <=? 122)%nat.

Definition is_digit (c : ascii) : bool :=
  let n := nat_of_ascii c in (48 <=? n)%nat && (n <=? 57)%nat.

(** [\s] on ASCII text: tab, line feed, vertical tab, form feed, carriage
    return, space. *)
Definition is_space (c : ascii) : bool :=
  let n := nat_of_ascii c in
  ((9 <=? n)%nat && (n <=? 13)%nat) || (n =? 32)%nat.

Definition lower_char (c : ascii) : ascii :=
  if is_upper c then ascii_of_nat (nat_of_ascii c + 32) else c.

Definition upper_char (c : ascii) : ascii :=
  if is_lower c then ascii_of_nat (nat_of_ascii c - 32) else c.

Fixpoint map_chars (f : ascii -> ascii) (s : string) : string :=
  match s with
  | EmptyString => EmptyString
  | String c s' => String (f c) (map_chars f s')
  end.

(** [s.toLowerCase()], [s.toUpperCase()] *)
Definition toLowerCase (s : string) : string := map_chars lower_char s.
Definition toUpperCase (s : string) : string := map_chars upper_char s.

(** [s.includes(sub)] *)
Fixpoint includes (s sub : string) : bool :=
  String.prefix sub s ||
  match s with
  | EmptyString => false
  | String _ s' => includes s' sub
  end.

(** [s.substring(0, n)] and [s.substr(from, len)] for indices inside the
    non-negative integers. *)
Definition substring0 (n : nat) (s : string) : string := String.substring 0 n s.
Definition substr (from len : nat) (s : string) : string :=
  String.substring from len s.

Fixpoint drop_chars (n : nat) (s : string) : string :=
  match n, s with
  | O, _ => s
  | S n', EmptyString => EmptyString
  | S n', String _ s' => drop_chars n' s'
  end.

Fixpoint rev_chars (s acc : string) : string :=
  match s with
  | EmptyString => acc
  | String c s' => rev_chars s' (String c acc)
  end.

Fixpoint trim_start (s : string) : string :=
  match s with
  | EmptyString => EmptyString
  | String c s' => if is_space c then trim_start s' else s
  end.

(** [s.trim()] *)
Definition trim (s : string) : string :=
  rev_chars (trim_start (rev_chars (trim_start s) "")) "".

(** [s.endsWith(suffix)] *)
Definition endsWith (s suffix : string) : bool :=
  String.prefix (rev_chars suffix "") (rev_chars s "").

(** The replacement text of [String.prototype.replace] for a string
    pattern (no capture groups): [$$] is a dollar sign, [$&] the matched
    text, [$`] the text before the match and [$'] the text after it; any
    other dollar sign stands for itself. *)
Fixpoint substitution (repl matched before after : string) : string :=
  match repl with
  | EmptyString => EmptyString
  | String "$" (String "$" r) => String "$" (substitution r matched before after)
  | String "$" (String "&" r) => matched ++ substitution r matched before after
  | String "$" (String "`" r) => before ++ substitution r matched before after
  | String "$" (String "'" r) => after ++ substitution r matched before after
  | String c r => String c (substitution r matched before after)
  end.

Fixpoint replace_from (before s pat repl : string) : string :=
  if String.prefix pat s then
    let after := drop_chars (String.length pat) s in
    substitution repl pat (rev_chars before "") after ++ after
  else
    match s with
    | EmptyString => EmptyString
    | String c s' => String c (replace_from (String c before) s' pat repl)
    end.

(** [s.replace(pat, repl)] with a string pattern: the first occurrence
    only. *)
Definition replace (s pat repl : string) : string := replace_from "" s pat repl.

(** Template-literal rendering of a non-negative integer. *)
Definition show_nat (n : nat) : string := NilZero.string_of_uint (Nat.to_uint n).

Definition show_Z (z : Z) : string :=
  match z with
  | Zneg p => "-" ++ show_nat (Pos.to_nat p)
  | _ => show_nat (Z.to_nat z)
  end.

(** A string is truthy when it is not empty; [undefined] is falsy. *)
Definition nonempty (s : string) : bool :=
  match s with EmptyString => false | _ => true end.

Definition truthy_str (o : option string) : bool :=
  match o with Some s => nonempty s | None => false end.

(** [a || "text"] *)
Definition or_else (a : option string) (b : string) : string :=
  match a with
  | Some s => if nonempty s then s else b
  | None => b
  end.

(** [a || b] on optional strings *)
Definition or_str (a b : option string) : option string :=
  if truthy_str a then a else b.

End JS.

(** ** src/types.ts *)

Inductive Category := hvac | plumber | electrician | roofer | appliance | pest | general.
Inductive Urgency := low | medium | high | emergency.
Inductive OutreachStatus := pending | in_progress | completed | failed.
Inductive OutreachChannel := sms | whatsapp | phone | email.
Inductive AttemptStatus := sent | delivered | replied | attempt_failed.
Inductive BookingChannel := b_phone | b_web_chat | b_whatsapp | b_sms.
Inductive BookingStatus := confirmed | tentative | booking_failed.
Inductive Source := google | thumbtack | demo.

Definition Category_str (c : Category) : string :=
  match c with
  | hvac => "hvac" | plumber => "plumber" | electrician => "electrician"
  | roofer => "roofer" | appliance => "appliance" | pest => "pest"
  | general => "general"
  end.

Definition BookingChannel_str (c : BookingChannel) : string :=
  match c with
  | b_phone => "phone" | b_web_chat => "web_chat"
  | b_whatsapp => "whatsapp" | b_sms => "sms"
  end.

Record ProblemSummary := {
  transcript : string;
  summary : string;
  category : Category;
  urgency : Urgency;
  symptoms : list string;
  modelSerial : option string
}.

Record OutreachAttempt := {
  oa_channel : OutreachChannel;
  oa_timestamp : string;
  oa_status : AttemptStatus;
  oa_message : option string;
  oa_response : option string
}.

Record VendorData := {
  id : string;
  name : string;
  rating : Q;
  reviewCount : Z;
  v_phone : string;
  website : option string;
  address : string;
  distance : Q;
  v_category : string;
  hasWebChat : bool;
  hasWhatsApp : bool;
  hasSms : option bool;
  eta : option string;
  serviceFee : option Z;
  outreachStatus : OutreachStatus;
  outreachLog : list OutreachAttempt;
  source : option Source
}.

Record BookingLogEntry := {
  le_timestamp : string;
  le_channel : string;
  le_action : string;
  le_message : string;
  le_success : bool
}.

(** [BookingResult.channel] is declared as ['phone' | 'web_chat' |
    'whatsapp'], but [simulateBooking] stores an element of its own
    four-valued channel list there; the field has the type of what is
    stored. *)
Record BookingResult := {
  br_status : BookingStatus;
  br_channel : BookingChannel;
  scheduledStartISO : option string;
  br_notes : string;
  br_log : list BookingLogEntry;
  confirmationNumber : option string
}.

Definition declared_result_channels : list BookingChannel :=
  [b_phone; b_web_chat; b_whatsapp].

Record SimulationConfig := {
  fastDemo : bool;
  randomSeed : option Z;
  outreachSuccessRate : Q;
  bookingSuccessRate : Q;
  maxAttempts : Z;
  delayRange : Z * Z
}.

(** [Partial<SimulationConfig>]: a property is absent ([None]) or present
    with a value. *)
Record PartialConfig := {
  p_fastDemo : option bool;
  p_randomSeed : option Z;
  p_outreachSuccessRate : option Q;
  p_bookingSuccessRate : option Q;
  p_maxAttempts : option Z;
  p_delayRange : option (Z * Z)
}.

(** ** The category and urgency classifier ([analyzeProblem]) *)

Module Classifier.

(** [Object.entries(CATEGORY_KEYWORDS)]: the entries in insertion order. *)
Definition CATEGORY_KEYWORDS : list (Category * list string) :=
  [ (hvac, ["heating"; "cooling"; "air conditioning"; "a/c"; "ac "; " ac";
            "ac broke"; "furnace"; "hvac"; "thermostat"; "vent"; "duct";
            "ac unit"; "heat pump"]);
    (plumber, ["plumbing"; "pipe"; "leak"; "faucet"; "toilet"; "drain";
               "water"; "sink"; "shower"; "bath"; "sewer"]);
    (electrician, ["electrical"; "electric"; "outlet"; "switch"; "light";
                   "power"; "wire"; "breaker"; "fuse"; "voltage"]);
    (roofer, ["roof"; "roofing"; "shingle"; "gutter"; "leak"; "attic";
              "chimney"; "flashing"]);
    (appliance, ["appliance"; "refrigerator"; "washer"; "dryer";
                 "dishwasher"; "oven"; "stove"; "microwave"]);
    (pest, ["pest"; "bug"; "insect"; "rodent"; "mouse"; "rat"; "ant";
            "roach"; "termite"; "exterminator"]);
    (general, ["repair"; "fix"; "broken"; "maintenance"; "handyman";
               "contractor"]) ].

Definition URGENCY_KEYWORDS : list (Urgency * list string) :=
  [ (emergency, ["emergency"; "urgent"; "immediate"; "asap"; "flooding";
                 "fire"; "gas leak"; "no power"]);
    (high, ["today"; "quickly"; "soon"; "major"; "serious"; "broken";
            "not working"]);
    (medium, ["this week"; "few days"; "moderate"; "annoying";
              "intermittent"]);
    (low, ["when convenient"; "eventually"; "minor"; "cosmetic";
           "preventive"]) ].

Definition symptomKeywords : list string :=
  ["leaking"; "dripping"; "broken"; "not working"; "making noise";
   "sparking"; "clogged"; "cracked"].

(** [keywords.filter(keyword => lowerText.includes(keyword)).length] *)
Definition matches (lowerText : string) (keywords : list string) : nat :=
  length (List.filter (fun keyword => JS.includes lowerText keyword) keywords).

(** The first loop of [analyzeProblem]; the state is the pair of the
    variables [category] and [maxMatches]. *)
Fixpoint category_loop (lowerText : string)
    (entries : list (Category * list string))
    (category : Category) (maxMatches : nat) : Category * nat :=
  match entries with
  | [] => (category, maxMatches)
  | (cat, keywords) :: rest =>
      let m := matches lowerText keywords in
      if (maxMatches <? m)%nat
      then category_loop lowerText rest cat m
      else category_loop lowerText rest category maxMatches
  end.

Definition choose_category (lowerText : string) : Category :=
  fst (category_loop lowerText CATEGORY_KEYWORDS general 0%nat).

(** The second loop: the first level one of whose keywords occurs, with
    [break]. *)
Fixpoint urgency_loop (lowerText : string)
    (entries : list (Urgency * list string)) (urgency : Urgency) : Urgency :=
  match entries with
  | [] => urgency
  | (level, keywords) :: rest =>
      if existsb (fun keyword => JS.includes lowerText keyword) keywords
      then level
      else urgency_loop lowerText rest urgency
  end.

Definition choose_urgency (lowerText : string) : Urgency :=
  urgency_loop lowerText URGENCY_KEYWORDS medium.

Definition extract_symptoms (lowerText : string) : list string :=
  List.filter (fun symptom => JS.includes lowerText symptom) symptomKeywords.

(** [/word\s*[#:]?\s*([A-Z0-9\-]+)/i]: the three classes (white space,
    [#:], identifier characters) are disjoint, so the greedy match at a
    start position is the only candidate there. *)
Definition is_id_char (c : ascii) : bool :=
  JS.is_upper c || JS.is_lower c || JS.is_digit c || Ascii.eqb c "-".

Fixpoint take_id (s : string) : string :=
  match s with
  | EmptyString => EmptyString
  | String c s' => if is_id_char c then String c (take_id s') else EmptyString
  end.

Definition match_tail (s : string) : option string :=
  let s1 := JS.trim_start s in
  let s2 := match s1 with
            | String c r => if Ascii.eqb c "#" || Ascii.eqb c ":" then r else s1
            | EmptyString => s1
            end in
  let g := take_id (JS.trim_start s2) in
  if JS.nonempty g then Some g else None.

Fixpoint match_word (word s : string) : option string :=
  let here := if String.prefix word (JS.toLowerCase s)
              then match_tail (JS.drop_chars (String.length word) s)
              else None in
  match here with
  | Some g => Some g
  | None => match s with
            | EmptyString => None
            | String _ s' => match_word word s'
            end
  end.

Definition is_sentence_end (c : ascii) : bool :=
  Ascii.eqb c "." || Ascii.eqb c "!" || Ascii.eqb c "?".

(** [transcript.split(/[.!?]+/)] *)
Fixpoint split_sentences (s cur : string) (after_sep : bool) : list string :=
  match s with
  | EmptyString => [JS.rev_chars cur ""]
  | String c s' =>
      if is_sentence_end c then
        if after_sep then split_sentences s' cur true
        else JS.rev_chars cur "" :: split_sentences s' "" true
      else split_sentences s' (String c cur) false
  end.

Definition generateSummary (transcript : string) (category : Category)
    (symptoms : list string) : string :=
  let sentences :=
    List.filter (fun s => JS.nonempty (JS.trim s))
                (split_sentences transcript "" false) in
  let firstSentence :=
    match sentences with
    | s :: _ => JS.trim s
    | [] => JS.substring0 100 transcript
    end in
  if (150 <? String.length firstSentence)%nat
  then JS.substring0 147 firstSentence ++ "..."
  else firstSentence ++ (if JS.endsWith firstSentence "." then "" else ".").

(** [analyzeProblem]; its only effect, a timer of 1500 ms, is left to the
    caller's world. *)
Definition analyzeProblem (transcript : string) : ProblemSummary :=
  let lowerText := JS.toLowerCase transcript in
  let category := choose_category lowerText in
  let urgency := choose_urgency lowerText in
  let symptoms := extract_symptoms lowerText in
  let modelSerial :=
    JS.or_str (match_word "model" transcript) (match_word "serial" transcript) in
  let summary := generateSummary transcript category symptoms in
  {| transcript := transcript; summary := summary; category := category;
     urgency := urgency; symptoms := symptoms; modelSerial := modelSerial |}.

End Classifier.

(** ** The environment: random numbers, clock, timers, callbacks *)

(** One value of [Math.random()]: the double [mantissa mod 2^53 / 2^53],
    which lies in [0, 1), together with the text that
    [Number.prototype.toString(36)] prints for it. *)
Record Draw := {
  mantissa : Z;
  radix36 : string
}.

(** What the callbacks of the simulators are called with. *)
Inductive Event :=
| VendorUpdate (v : VendorData)
| AttemptUpdate (attempt : string)
| LogUpdate (entry : BookingLogEntry).

Record World := {
  entropy : nat -> Draw;        (* the values Math.random() will return *)
  cursor : nat;                 (* how many have been drawn *)
  now : Z;                      (* the clock, ms since the epoch *)
  utcOffset : Z;                (* local time minus UTC, ms *)
  journal : list Event;         (* the callback calls so far, oldest first *)
  booking_log : list BookingLogEntry  (* the array [log] of simulateBooking *)
}.

Inductive Outcome (A : Type) :=
| Ok (a : A)
| Throw (e : string).
Arguments Ok {A} a.
Arguments Throw {A} e.

Definition Async (A : Type) : Type := World -> World * Outcome A.

Definition ret {A} (a : A) : Async A := fun w => (w, Ok a).

Definition throw {A} (e : string) : Async A := fun w => (w, Throw e).

Definition bind {A B} (m : Async A) (k : A -> Async B) : Async B :=
  fun w =>
    match m w with
    | (w', Ok a) => k a w'
    | (w', Throw e) => (w', Throw e)
    end.

(** [try { m } catch (error) { handler error }] *)
Definition try_catch {A} (m : Async A) (handler : string -> Async A) : Async A :=
  fun w =>
    match m w with
    | (w', Ok a) => (w', Ok a)
    | (w', Throw e) => handler e w'
    end.

Notation "'let*' x ':=' m 'in' k" := (bind m (fun x => k))
  (at level 10, x name, m at level 100, k at level 200).
Notation "m ;; k" := (bind m (fun _ => k))
  (at level 100, k at level 200, right associativity).

Definition set_cursor (c : nat) (w : World) : World :=
  {| entropy := entropy w; cursor := c; now := now w; utcOffset := utcOffset w;
     journal := journal w; booking_log := booking_log w |}.

Definition set_now (t : Z) (w : World) : World :=
  {| entropy := entropy w; cursor := cursor w; now := t; utcOffset := utcOffset w;
     journal := journal w; booking_log := booking_log w |}.

Definition set_journal (j : list Event) (w : World) : World :=
  {| entropy := entropy w; cursor := cursor w; now := now w; utcOffset := utcOffset w;
     journal := j; booking_log := booking_log w |}.

Definition set_booking_log (l : list BookingLogEntry) (w : World) : World :=
  {| entropy := entropy w; cursor := cursor w; now := now w; utcOffset := utcOffset w;
     journal := journal w; booking_log := l |}.

Definition two53 : Z := (2 ^ 53)%Z.

Definition value (d : Draw) : Q := Qmake (mantissa d mod two53)%Z (Z.to_pos two53).

(** [Math.random()] *)
Definition Math_random : Async Draw :=
  fun w => (set_cursor (S (cursor w)) w, Ok (entropy w (cursor w))).

(** [await new Promise(resolve => setTimeout(resolve, ms))] *)
Definition sleep (ms : Z) : Async unit :=
  fun w => (set_now (now w + ms)%Z w, Ok tt).

Definition Qltb (x y : Q) : bool :=
  match (x ?= y)%Q with Lt => true | _ => false end.

(** [Math.floor], [Math.round] *)
Definition Math_floor (x : Q) : Z := Qfloor x.
Definition Math_round (x : Q) : Z := Qfloor (x + (1 # 2)).

(** ** Dates *)

Module Date.

Local Open Scope Z_scope.

Definition ms_per_day : Z := 86400000.

(** Day number since 1970-01-01 to (year, month, day) of the proleptic
    Gregorian calendar. *)
Definition civil_from_days (days : Z) : Z * Z * Z :=
  let z := days + 719468 in
  let era := z / 146097 in
  let doe := z - era * 146097 in
  let yoe := (doe - doe / 1460 + doe / 36524 - doe / 146096) / 365 in
  let doy := doe - (365 * yoe + yoe / 4 - yoe / 100) in
  let mp := (5 * doy + 2) / 153 in
  let d := doy - (153 * mp + 2) / 5 + 1 in
  let m := if mp <? 10 then mp + 3 else mp - 9 in
  let y := yoe + era * 400 in
  (if m <=? 2 then y + 1 else y, m, d).

Fixpoint zeros (n : nat) : string :=
  match n with
  | O => EmptyString
  | S n' => String "0" (zeros n')
  end.

(** A non-negative integer on at least [width] digits. *)
Definition pad (width : nat) (z : Z) : string :=
  let digits := JS.show_nat (Z.to_nat z) in
  zeros (width - String.length digits) ++ digits.

Definition show_year (y : Z) : string :=
  if (0 <=? y) && (y <=? 9999) then pad 4 y
  else (if y <? 0 then "-" else "+") ++ pad 6 (Z.abs y).

(** [new Date(t).toISOString()], for a time value [t] in the range of
    valid dates *)
Definition toISOString (t : Z) : string :=
  let '(y, m, d) := civil_from_days (t / ms_per_day) in
  let r := t mod ms_per_day in
  show_year y ++ "-" ++ pad 2 m ++ "-" ++ pad 2 d ++ "T" ++
  pad 2 (r / 3600000) ++ ":" ++ pad 2 (r / 60000 mod 60) ++ ":" ++
  pad 2 (r / 1000 mod 60) ++ "." ++ pad 3 (r mod 1000) ++ "Z".

(** [d.setDate(d.getDate() + days); d.setHours(hours, 0, 0, 0)] on
    [d = new Date(t)], in a zone at a fixed offset from UTC. *)
Definition at_local_hour (offset t days hours : Z) : Z :=
  ((t + offset) / ms_per_day + days) * ms_per_day + hours * 3600000 - offset.

End Date.

(** [new Date().toISOString()] *)
Definition timestamp_now : Async string :=
  fun w => (w, Ok (Date.toISOString (now w))).

(** ** The mock directory ([getThumbtackMockVendors]) *)

Module Thumbtack.

Definition categoryLabel (category : Category) : string :=
  match category with
  | hvac => "HVAC"
  | plumber => "Plumbing"
  | electrician => "Electrical"
  | roofer => "Roofing"
  | appliance => "Appliance"
  | pest => "Pest Control"
  | general => "General"
  end.

(** [Math.round((0.3 + Math.random() * 12) * 10) / 10] *)
Definition mock_distance (d : Draw) : Q :=
  inject_Z (Math_round (((3 # 10) + value d * 12) * 10)) / 10.

(** One element of the array literal: the fields written out, then the
    spread of [base]. *)
Definition entry (id name : string) (rating : Q) (reviewCount : Z)
    (cityNote : string) (distance : Q) (serviceFee : Z)
    (label : string) : VendorData :=
  {| id := id; name := name; rating := rating; reviewCount := reviewCount;
     address := cityNote; distance := distance; serviceFee := Some serviceFee;
     v_phone := "N/A"; website := None; v_category := label;
     hasWebChat := false; hasWhatsApp := true; hasSms := Some true;
     eta := None;
     outreachStatus := pending; outreachLog := []; source := Some thumbtack |}.

Definition getThumbtackMockVendors (category : Category) (zipCode : string)
    : Async (list VendorData) :=
  let label := categoryLabel category in
  let cityNote := "Serves " ++ zipCode in
  let* d1 := Math_random in
  let* d2 := Math_random in
  let* d3 := Math_random in
  ret [ entry ("thumbtack-pro-1-" ++ zipCode)
              (label ++ " Pros of " ++ zipCode)
              (49 # 10) 164 cityNote (mock_distance d1) 95 label;
        entry ("thumbtack-pro-2-" ++ zipCode)
              ("Advance " ++ label ++ " Services")
              (47 # 10) 133 cityNote (mock_distance d2) 89 label;
        entry ("thumbtack-pro-3-" ++ zipCode)
              (label ++ " Wizards")
              (48 # 10) 92 cityNote (mock_distance d3) 0 label ].

End Thumbtack.

(** ** The outreach simulator ([simulateOutreach]) *)

Module Outreach.

Definition DEFAULT_CONFIG : SimulationConfig :=
  {| fastDemo := true;
     outreachSuccessRate := 8 # 10;
     bookingSuccessRate := 85 # 100;
     maxAttempts := 3;
     delayRange := (500, 2000)%Z;
     randomSeed := None |}.

(** [{ ...DEFAULT_CONFIG, ...config }] *)
Definition merge (config : PartialConfig) : SimulationConfig :=
  {| fastDemo := default (fastDemo DEFAULT_CONFIG) (p_fastDemo config);
     outreachSuccessRate :=
       default (outreachSuccessRate DEFAULT_CONFIG) (p_outreachSuccessRate config);
     bookingSuccessRate :=
       default (bookingSuccessRate DEFAULT_CONFIG) (p_bookingSuccessRate config);
     maxAttempts := default (maxAttempts DEFAULT_CONFIG) (p_maxAttempts config);
     delayRange := default (delayRange DEFAULT_CONFIG) (p_delayRange config);
     randomSeed :=
       match p_randomSeed config with
       | Some s => Some s
       | None => randomSeed DEFAULT_CONFIG
       end |}.

Definition CHANNELS : list OutreachChannel := [sms; whatsapp; phone; email].

Definition OUTREACH_MESSAGES (channel : OutreachChannel) : string :=
  match channel with
  | sms => "Hi! We have a customer needing {category} service. Can you provide your earliest availability and service fee?"
  | whatsapp => "Hello! Gaspar here - we have a homeowner with a {category} issue. What's your earliest availability?"
  | phone => "Calling to check availability for a {category} service call..."
  | email => "Service inquiry: Customer needs {category} assistance. Please respond with availability and pricing."
  end.

Definition ETA_PATTERNS : list (string * Z) :=
  [ ("Today 2-4 PM", 120%Z);
    ("Tomorrow 9-11 AM", 95%Z);
    ("Tomorrow 2-4 PM", 100%Z);
    ("Thursday 10 AM-12 PM", 85%Z);
    ("Friday 1-3 PM", 95%Z);
    ("This afternoon 3-5 PM", 110%Z) ].

(** Assignments to the fields of the vendor object and of an attempt. *)
Definition set_outreachStatus (s : OutreachStatus) (v : VendorData) : VendorData :=
  {| id := id v; name := name v; rating := rating v; reviewCount := reviewCount v;
     v_phone := v_phone v; website := website v; address := address v;
     distance := distance v; v_category := v_category v;
     hasWebChat := hasWebChat v; hasWhatsApp := hasWhatsApp v; hasSms := hasSms v;
     eta := eta v; serviceFee := serviceFee v;
     outreachStatus := s; outreachLog := outreachLog v; source := source v |}.

Definition set_outreachLog (l : list OutreachAttempt) (v : VendorData) : VendorData :=
  {| id := id v; name := name v; rating := rating v; reviewCount := reviewCount v;
     v_phone := v_phone v; website := website v; address := address v;
     distance := distance v; v_category := v_category v;
     hasWebChat := hasWebChat v; hasWhatsApp := hasWhatsApp v; hasSms := hasSms v;
     eta := eta v; serviceFee := serviceFee v;
     outreachStatus := outreachStatus v; outreachLog := l; source := source v |}.

Definition set_quote (e : string) (fee : Z) (v : VendorData) : VendorData :=
  {| id := id v; name := name v; rating := rating v; reviewCount := reviewCount v;
     v_phone := v_phone v; website := website v; address := address v;
     distance := distance v; v_category := v_category v;
     hasWebChat := hasWebChat v; hasWhatsApp := hasWhatsApp v; hasSms := hasSms v;
     eta := Some e; serviceFee := Some fee;
     outreachStatus := outreachStatus v; outreachLog := outreachLog v;
     source := source v |}.

Definition set_status (s : AttemptStatus) (a : OutreachAttempt) : OutreachAttempt :=
  {| oa_channel := oa_channel a; oa_timestamp := oa_timestamp a; oa_status := s;
     oa_message := oa_message a; oa_response := oa_response a |}.

Definition set_response (r : string) (a : OutreachAttempt) : OutreachAttempt :=
  {| oa_channel := oa_channel a; oa_timestamp := oa_timestamp a;
     oa_status := oa_status a; oa_message := oa_message a;
     oa_response := Some r |}.

(** A write through the reference [attemptLog]: the object is the element
    [slot] of the vendor's [outreachLog]. *)
Definition write_attempt (slot : nat) (f : OutreachAttempt -> OutreachAttempt)
    (v : VendorData) : VendorData :=
  set_outreachLog (alter f slot (outreachLog v)) v.

(** [onUpdate(currentVendor)]: the caller sees the vendor as it is at the
    call. *)
Definition onUpdate (v : VendorData) : Async unit :=
  fun w => (set_journal (journal w ++ [VendorUpdate v])%list w, Ok tt).

(** [xs[i]] followed by a property access: a [TypeError] when the index is
    outside the array. *)
Definition element {A} (xs : list A) (i : nat) : Async A :=
  match xs !! i with
  | Some x => ret x
  | None => throw "TypeError: Cannot read properties of undefined"
  end.

(** [delays[attempt] || delays[delays.length - 1]] *)
Definition pick_delay (delays : list Z) (attempt : nat) : Z :=
  match delays !! attempt with
  | Some d => if (d =? 0)%Z then default 0%Z (last delays) else d
  | None => default 0%Z (last delays)
  end.

Inductive Step :=
| Return (v : VendorData)     (* [return currentVendor] inside the loop *)
| Continue (v : VendorData).  (* the end of the loop body *)

(** The body of the [for] loop.  [channel] is read before the first timer
    and first used after it, where an undefined channel would throw. *)
Definition round (cfg : SimulationConfig) (delays : list Z)
    (problemSummary : ProblemSummary) (attempt : nat)
    (currentVendor : VendorData) : Async Step :=
  let delay := pick_delay delays attempt in
  sleep delay ;;
  let* channel := element CHANNELS (attempt mod length CHANNELS) in
  let message := JS.replace (OUTREACH_MESSAGES channel) "{category}"
                            (Category_str (category problemSummary)) in
  let* timestamp := timestamp_now in
  let attemptLog :=
    {| oa_channel := channel; oa_timestamp := timestamp; oa_status := sent;
       oa_message := Some message; oa_response := None |} in
  let slot := length (outreachLog currentVendor) in
  let currentVendor :=
    set_outreachLog (outreachLog currentVendor ++ [attemptLog])%list currentVendor in
  onUpdate currentVendor ;;
  sleep (if fastDemo cfg then 300 else 1000)%Z ;;
  let currentVendor := write_attempt slot (set_status delivered) currentVendor in
  onUpdate currentVendor ;;
  let* roll := Math_random in
  let success := Qltb (value roll) (outreachSuccessRate cfg) in
  if success then
    sleep (if fastDemo cfg then 500 else 2000)%Z ;;
    let* pick := Math_random in
    let index := Z.to_nat (Math_floor (value pick * inject_Z (Z.of_nat (length ETA_PATTERNS)))) in
    let currentVendor := write_attempt slot (set_status replied) currentVendor in
    let* responsePattern := element ETA_PATTERNS index in
    let currentVendor :=
      write_attempt slot
        (set_response ("Available: " ++ fst responsePattern ++ " - $" ++
                       JS.show_Z (snd responsePattern) ++ " service fee"))
        currentVendor in
    let currentVendor :=
      set_quote (fst responsePattern) (snd responsePattern) currentVendor in
    let currentVendor := set_outreachStatus completed currentVendor in
    onUpdate currentVendor ;;
    ret (Return currentVendor)
  else
    sleep (if fastDemo cfg then 400 else 1500)%Z ;;
    let currentVendor := write_attempt slot (set_status attempt_failed) currentVendor in
    onUpdate currentVendor ;;
    ret (Continue currentVendor).

(** [for (let attempt = 0; attempt < maxAttempts; attempt++)] with
    [remaining] iterations to go, then the code after the loop. *)
Fixpoint rounds (cfg : SimulationConfig) (delays : list Z)
    (problemSummary : ProblemSummary) (remaining attempt : nat)
    (currentVendor : VendorData) : Async VendorData :=
  match remaining with
  | O =>
      let currentVendor := set_outreachStatus failed currentVendor in
      onUpdate currentVendor ;;
      ret currentVendor
  | S remaining' =>
      let* step := round cfg delays problemSummary attempt currentVendor in
      match step with
      | Return v => ret v
      | Continue v => rounds cfg delays problemSummary remaining' (S attempt) v
      end
  end.

(** [currentVendor] is a shallow copy of [vendor]: its [outreachLog] is the
    array of [vendor], which therefore receives the attempts too; the model
    returns the log with the vendor. *)
Definition simulateOutreach (vendor : VendorData)
    (problemSummary : ProblemSummary) (config : PartialConfig)
    : Async VendorData :=
  let finalConfig := merge config in
  let currentVendor := set_outreachStatus in_progress vendor in
  onUpdate currentVendor ;;
  let delays := if fastDemo finalConfig
                then [800; 1200; 1600]%Z else [2000; 4000; 6000]%Z in
  rounds finalConfig delays problemSummary
         (Z.to_nat (maxAttempts finalConfig)) 0 currentVendor.

End Outreach.

(** ** The booking simulator ([simulateBooking]) *)

Module Booking.

Definition PHONE_SCRIPTS : list string :=
  [ "Calling {vendor}... Connected! Confirming availability for {problem}.";
    "Speaking with receptionist... Checking schedule for {eta}.";
    "Confirming appointment details... Getting confirmation number.";
    "Appointment confirmed! Booking reference: {confirmationNumber}" ].

Definition WEB_CHAT_MESSAGES : list string :=
  [ "Initiating chat on {vendor} website...";
    "Chat agent connected. Explaining: {problem}";
    "Agent checking availability for {eta}...";
    "Securing appointment slot... Processing booking.";
    "Booking confirmed through web chat!" ].

Definition WHATSAPP_MESSAGES : list string :=
  [ "Sending WhatsApp message to {vendor}...";
    "Message delivered. Explaining service need: {problem}";
    "Vendor responding... Confirming {eta} availability.";
    "Appointment details confirmed via WhatsApp." ].

Definition SMS_MESSAGES : list string :=
  [ "Sending SMS to {vendor}...";
    "Message sent. Explaining: {problem}";
    "Awaiting confirmation for {eta} via SMS...";
    "Appointment confirmed via SMS." ].

(** The two callbacks are code of the caller: a call either returns
    ([None]) or throws ([Some error]).  Every call is recorded in the
    journal. *)
Definition AttemptCallback : Type := string -> option string.
Definition LogCallback : Type := BookingLogEntry -> option string.

Definition outcome_of (thrown : option string) : Outcome unit :=
  match thrown with
  | None => Ok tt
  | Some e => Throw e
  end.

Definition call_attempt (onAttemptUpdate : AttemptCallback) (attempt : string)
    : Async unit :=
  fun w => (set_journal (journal w ++ [AttemptUpdate attempt])%list w,
            outcome_of (onAttemptUpdate attempt)).

Definition call_log (onLogUpdate : LogCallback) (entry : BookingLogEntry)
    : Async unit :=
  fun w => (set_journal (journal w ++ [LogUpdate entry])%list w,
            outcome_of (onLogUpdate entry)).

(** [log.push(entry)] *)
Definition push_log (entry : BookingLogEntry) : Async unit :=
  fun w => (set_booking_log (booking_log w ++ [entry])%list w, Ok tt).

Definition read_log : Async (list BookingLogEntry) :=
  fun w => (w, Ok (booking_log w)).

Definition generateConfirmationNumber : Async string :=
  let* d := Math_random in
  ret ("GSP-" ++ JS.toUpperCase (JS.substr 2 6 (radix36 d))).

Definition addLogEntry (channel action message : string) (success : bool)
    (onLogUpdate : LogCallback) : Async unit :=
  let* timestamp := timestamp_now in
  let entry := {| le_timestamp := timestamp; le_channel := channel;
                  le_action := action; le_message := message;
                  le_success := success |} in
  push_log entry ;;
  call_log onLogUpdate entry.

Definition scripts_of (channel : BookingChannel) : list string :=
  match channel with
  | b_phone => PHONE_SCRIPTS
  | b_web_chat => WEB_CHAT_MESSAGES
  | b_whatsapp => WHATSAPP_MESSAGES
  | b_sms => SMS_MESSAGES
  end.

Definition channelName (channel : BookingChannel) : string :=
  match channel with
  | b_phone => "Phone Call"
  | b_web_chat => "Website Chat"
  | b_whatsapp => "WhatsApp"
  | b_sms => "SMS"
  end.

Definition failureReason (channel : BookingChannel) : string :=
  match channel with
  | b_phone => "Line busy, no answer after 3 attempts"
  | b_web_chat => "Chat unavailable, no agents online"
  | b_whatsapp => "No response to WhatsApp messages"
  | b_sms => "No response to SMS"
  end.

(** [vendor.hasSms] is optional: [undefined] is falsy. *)
Definition truthy_flag (o : option bool) : bool := default false o.

Definition successRate (channel : BookingChannel) (vendor : VendorData) : Q :=
  let r := 85 # 100 in
  let r := match channel with
           | b_web_chat => if negb (hasWebChat vendor) then 1 # 10 else r
           | _ => r
           end in
  let r := match channel with
           | b_whatsapp => if negb (hasWhatsApp vendor) then 1 # 10 else r
           | _ => r
           end in
  match channel with
  | b_sms => if negb (truthy_flag (hasSms vendor)) then 1 # 10 else r
  | _ => r
  end.

(** What [simulateChannel] returns. *)
Record ChannelResult := {
  success : bool;
  scheduledTime : option string;
  cr_notes : string;
  cr_confirmationNumber : option string
}.

Definition generateAppointmentTime (eta : option string) : Async string :=
  fun w =>
    let at_hour days hours :=
      Date.toISOString (Date.at_local_hour (utcOffset w) (now w) days hours) in
    (w, Ok
      match eta with
      | None => at_hour 1%Z 10%Z
      | Some eta =>
          if negb (JS.nonempty eta) then at_hour 1%Z 10%Z
          else if JS.includes (JS.toLowerCase eta) "today" then
            if JS.includes eta "2-4" || JS.includes eta "2:00-4:00"
            then at_hour 0%Z 14%Z
            else if JS.includes eta "3-5" || JS.includes eta "3:00-5:00"
            then at_hour 0%Z 15%Z
            else at_hour 0%Z 13%Z
          else if JS.includes (JS.toLowerCase eta) "tomorrow" then
            if JS.includes eta "9-11" || JS.includes eta "9:00-11:00"
            then at_hour 1%Z 9%Z
            else if JS.includes eta "2-4" || JS.includes eta "2:00-4:00"
            then at_hour 1%Z 14%Z
            else at_hour 1%Z 10%Z
          else at_hour 2%Z 10%Z
      end).

Definition fill_script (raw : string) (vendor : VendorData)
    (problemSummary : ProblemSummary) (confirmationNumber : string) : string :=
  JS.replace
    (JS.replace
      (JS.replace
        (JS.replace raw "{vendor}" (name vendor))
        "{problem}" (summary problemSummary))
      "{eta}" (JS.or_else (eta vendor) "requested time"))
    "{confirmationNumber}" confirmationNumber.

(** The [for] loop of [simulateChannel] from step [i] on; [todo] is
    [scripts.slice(i)] and [n] is [scripts.length].  [Some r] is the
    [return r] inside the loop, [None] the end of the loop. *)
Fixpoint steps (channel : BookingChannel) (vendor : VendorData)
    (problemSummary : ProblemSummary) (confirmationNumber : string)
    (onAttemptUpdate : AttemptCallback) (onLogUpdate : LogCallback)
    (n : nat) (todo : list string) (i : nat) : Async (option ChannelResult) :=
  match todo with
  | [] => ret None
  | raw :: rest =>
      let script := fill_script raw vendor problemSummary confirmationNumber in
      call_attempt onAttemptUpdate (channelName channel ++ ": " ++ script) ;;
      let isLastStep := (i =? n - 1)%nat in
      let* stepSuccess :=
        if isLastStep
        then (let* roll := Math_random in
              ret (Qltb (value roll) (successRate channel vendor)))
        else ret true in
      addLogEntry (BookingChannel_str channel) ("step_" ++ JS.show_nat (i + 1))
                  script stepSuccess onLogUpdate ;;
      let* pause := Math_random in
      sleep (Math_floor (1000 + value pause * 2000)) ;;
      if negb stepSuccess && isLastStep then
        ret (Some {| success := false; scheduledTime := None;
                     cr_notes := channelName channel ++ " booking failed: " ++
                                 failureReason channel;
                     cr_confirmationNumber := None |})
      else
        steps channel vendor problemSummary confirmationNumber
              onAttemptUpdate onLogUpdate n rest (S i)
  end.

Definition simulateChannel (channel : BookingChannel) (vendor : VendorData)
    (problemSummary : ProblemSummary)
    (onAttemptUpdate : AttemptCallback) (onLogUpdate : LogCallback)
    : Async ChannelResult :=
  let scripts := scripts_of channel in
  let* confirmationNumber := generateConfirmationNumber in
  let* early := steps channel vendor problemSummary confirmationNumber
                      onAttemptUpdate onLogUpdate (length scripts) scripts 0 in
  match early with
  | Some r => ret r
  | None =>
      let* scheduledTime := generateAppointmentTime (eta vendor) in
      ret {| success := true;
             scheduledTime := Some scheduledTime;
             cr_confirmationNumber := Some confirmationNumber;
             cr_notes := "Successfully booked via " ++ channelName channel ++
                         ". Please be available 15 minutes before the scheduled time." |}
  end.

(** The channel priority list built at the start of [simulateBooking]. *)
Definition channels_of (vendor : VendorData) : list BookingChannel :=
  let channels := [b_phone] in
  let channels :=
    if hasWebChat vendor then (channels ++ [b_web_chat])%list else channels in
  let channels :=
    if hasWhatsApp vendor then (channels ++ [b_whatsapp])%list else channels in
  let channels :=
    if truthy_flag (hasSms vendor) then (channels ++ [b_sms])%list else channels in
  channels.

Definition fallback_notes : string :=
  "Unable to complete automatic booking. Please call the vendor directly to schedule your appointment.".

(** The body of the [try] block for one channel: [Some r] is the
    [return r] inside it. *)
Definition attempt_channel (channel : BookingChannel) (vendor : VendorData)
    (problemSummary : ProblemSummary)
    (onAttemptUpdate : AttemptCallback) (onLogUpdate : LogCallback)
    : Async (option BookingResult) :=
  let* result := simulateChannel channel vendor problemSummary
                                 onAttemptUpdate onLogUpdate in
  if success result then
    let* log := read_log in
    ret (Some {| br_status := confirmed;
                 br_channel := channel;
                 scheduledStartISO := scheduledTime result;
                 br_notes := cr_notes result;
                 br_log := log;
                 confirmationNumber := cr_confirmationNumber result |})
  else
    call_attempt onAttemptUpdate
      (BookingChannel_str channel ++ " failed, trying next channel...") ;;
    sleep 1000 ;;
    ret None.

(** The [catch] block. *)
Definition on_error (channel : BookingChannel) (onLogUpdate : LogCallback)
    (error : string) : Async (option BookingResult) :=
  addLogEntry (BookingChannel_str channel) "error"
              ("Booking attempt failed: " ++ error) false onLogUpdate ;;
  ret None.

(** [for (const channel of channels)] over the channels still to try. *)
Fixpoint channel_loop (vendor : VendorData) (problemSummary : ProblemSummary)
    (onAttemptUpdate : AttemptCallback) (onLogUpdate : LogCallback)
    (todo : list BookingChannel) : Async (option BookingResult) :=
  match todo with
  | [] => ret None
  | channel :: rest =>
      call_attempt onAttemptUpdate
        ("Attempting booking via " ++ channelName channel ++ "...") ;;
      let* returned :=
        try_catch
          (attempt_channel channel vendor problemSummary onAttemptUpdate onLogUpdate)
          (on_error channel onLogUpdate) in
      match returned with
      | Some r => ret (Some r)
      | None => channel_loop vendor problemSummary onAttemptUpdate onLogUpdate rest
      end
  end.

Definition simulateBooking (vendor : VendorData) (problemSummary : ProblemSummary)
    (onAttemptUpdate : AttemptCallback) (onLogUpdate : LogCallback)
    : Async BookingResult :=
  (fun w => (set_booking_log [] w, Ok tt)) ;;
  let channels := channels_of vendor in
  let* returned := channel_loop vendor problemSummary
                                onAttemptUpdate onLogUpdate channels in
  match returned with
  | Some r => ret r
  | None =>
      let* log := read_log in
      ret {| br_status := booking_failed;
             br_channel := default b_phone (head channels);
             scheduledStartISO := None;
             br_notes := fallback_notes;
             br_log := log;
             confirmationNumber := None |}
  end.

End Booking.

(** * Further code of the repository *)

(** ** The ZIP lookup ([getLocationFromZip], src/unnamed/part_000) *)

Module Location.

Record LocationResult := {
  l_zipCode : string;
  l_city : option string;
  l_state : option string
}.

(** The object literal [zipDatabase]. *)
Definition zipDatabase : list (string * (string * string)) :=
  [ ("94102", ("San Francisco", "CA"));
    ("10001", ("New York", "NY"));
    ("90210", ("Beverly Hills", "CA"));
    ("60601", ("Chicago", "IL"));
    ("77001", ("Houston", "TX"));
    ("30301", ("Atlanta", "GA"));
    ("02101", ("Boston", "MA"));
    ("98101", ("Seattle", "WA")) ].

(** The properties that every object literal inherits from
    [Object.prototype]: [zipDatabase[name]] is then a function (or, for
    [__proto__], the prototype itself), which is truthy and has no
    enumerable property of its own. *)
Definition Object_prototype_names : list string :=
  [ "constructor"; "hasOwnProperty"; "isPrototypeOf"; "propertyIsEnumerable";
    "toLocaleString"; "toString"; "valueOf"; "__proto__";
    "__defineGetter__"; "__defineSetter__"; "__lookupGetter__";
    "__lookupSetter__" ].

Inductive Property :=
| Own (city state : string)   (* an entry of the literal *)
| Inherited                   (* a member of Object.prototype *)
| Undefined.

Fixpoint own_property (entries : list (string * (string * string)))
    (key : string) : option (string * string) :=
  match entries with
  | [] => None
  | (k, v) :: rest => if String.eqb k key then Some v else own_property rest key
  end.

(** [zipDatabase[zipCode]] *)
Definition property (zipCode : string) : Property :=
  match own_property zipDatabase zipCode with
  | Some (city, state) => Own city state
  | None =>
      if existsb (String.eqb zipCode) Object_prototype_names
      then Inherited else Undefined
  end.

Definition getLocationFromZip (zipCode : string) : Async LocationResult :=
  sleep 500 ;;
  match property zipCode with
  | Undefined => throw "Error: Invalid ZIP code"
  | Own city state =>
      ret {| l_zipCode := zipCode; l_city := Some city; l_state := Some state |}
  | Inherited =>
      ret {| l_zipCode := zipCode; l_city := None; l_state := None |}
  end.

End Location.

(** ** Vendors from Places ([fetchVendorsFromPlaces], second unit of
    src/utils/simulator.ts) *)

Module Places.

Definition CATEGORY_TO_QUERY (category : Category) : string :=
  match category with
  | hvac => "AC specialist"
  | plumber => "plumber"
  | electrician => "electrician"
  | roofer => "roofer"
  | appliance => "appliance repair"
  | pest => "pest control"
  | general => "general contractor"
  end.

Record PlacesVendorOptions := {
  overrideTerm : option string;
  userText : option string
}.

(** What [apiClient.recommendSearchTerm] resolves with. *)
Record Recommendation := {
  rec_success : bool;
  rec_term : string
}.

(** The term of the search.  [gemini] is the outcome of
    [apiClient.recommendSearchTerm(text)]: a rejection is swallowed by the
    empty [catch]. *)
Definition search_term (category : Category) (options : option PlacesVendorOptions)
    (gemini : string -> Outcome Recommendation) : string :=
  let override := match options with Some o => overrideTerm o | None => None end in
  let text := match options with Some o => userText o | None => None end in
  let term :=
    JS.or_else (option_map JS.trim override)
      (JS.or_else (Some (CATEGORY_TO_QUERY category)) "contractor") in
  if negb (JS.truthy_str override) && JS.truthy_str text then
    match gemini (JS.or_else text "") with
    | Ok r => if rec_success r && JS.nonempty (rec_term r) then rec_term r else term
    | Throw _ => term
    end
  else term.

(** [`${term} near ${zipCode}`] *)
Definition search_query (category : Category) (zipCode : string)
    (options : option PlacesVendorOptions)
    (gemini : string -> Outcome Recommendation) : string :=
  search_term category options gemini ++ " near " ++ zipCode.

(** The fields of a [PlaceResult] that the mapping reads. *)
Record PlaceResult := {
  place_id : option string;
  p_name : option string;
  p_rating : option Q;
  user_ratings_total : option Z;
  p_website : option string;
  formatted_address : option string;
  vicinity : option string
}.

(** [randomDistanceMiles] *)
Definition randomDistanceMiles : Async Q :=
  let min : Q := 3 # 10 in
  let max : Q := 12 # 1 in
  let* d := Math_random in
  ret (inject_Z (Math_round ((min + value d * (max - min)) * 10)) / 10)%Q.

(** The callback of [results.slice(0, 20).map].  [uuids] are the values that
    [crypto.randomUUID()] returns, [used] how many of them have been
    taken. *)
Definition vendor_of_place (category : Category) (uuids : nat -> string)
    (used : nat) (place : PlaceResult) : Async (VendorData * nat) :=
  let* distance := randomDistanceMiles in
  let id_used :=
    if JS.truthy_str (place_id place)
    then (JS.or_else (place_id place) "", used)
    else (uuids used, S used) in
  ret ({| id := fst id_used;
          name := JS.or_else (p_name place) "Unknown";
          rating := match p_rating place with Some r => r | None => 45 # 10 end;
          reviewCount := match user_ratings_total place with
                         | Some n => n
                         | None => 0%Z
                         end;
          v_phone := "N/A";
          website := if JS.truthy_str (p_website place) then p_website place else None;
          address := JS.or_else (formatted_address place)
                       (JS.or_else (vicinity place) "Address unavailable");
          distance := distance;
          v_category := Category_str category;
          hasWebChat := false;
          hasWhatsApp := false;
          hasSms := None;
          eta := None;
          serviceFee := None;
          outreachStatus := pending;
          outreachLog := [];
          source := Some google |},
       snd id_used).

Fixpoint map_places (category : Category) (uuids : nat -> string) (used : nat)
    (places : list PlaceResult) : Async (list VendorData * nat) :=
  match places with
  | [] => ret ([], used)
  | place :: rest =>
      let* vu := vendor_of_place category uuids used place in
      let* more := map_places category uuids (snd vu) rest in
      ret (fst vu :: fst more, snd more)
  end.

(** [results.slice(0, 20).map(...)], the vendors that
    [fetchVendorsFromPlaces] returns for the results of the text search. *)
Definition vendors_of_results (category : Category) (uuids : nat -> string)
    (used : nat) (results : list PlaceResult) : Async (list VendorData * nat) :=
  map_places category uuids used (firstn 20 results).

End Places.

(** ** The vendor list of the discovery view (src/components/VendorDiscovery.tsx) *)

Module Discovery.

(** [prev.map(v => v.id === updatedVendor.id ? updatedVendor : v)], the
    state update made by the callback given to [simulateOutreach]. *)
Definition apply_update (updatedVendor : VendorData) (prev : list VendorData)
    : list VendorData :=
  map (fun v => if String.eqb (id v) (id updatedVendor) then updatedVendor else v) prev.

(** [visibleVendors] *)
Definition visibleVendors (hideLowReview : bool) (vendors : list VendorData)
    : list VendorData :=
  if negb hideLowReview then vendors
  else List.filter (fun v => (20 <=? (if (reviewCount v =? 0)%Z then 0 else reviewCount v))%Z)
                   vendors.


(** The button "Book Now" is enabled:
    [!(vendor.outreachStatus !== 'completed' || !vendor.eta)]. *)
Definition bookable (vendor : VendorData) : bool :=
  negb (negb (match outreachStatus vendor with completed => true | _ => false end)
        || negb (JS.truthy_str (eta vendor))).

(** The list found when Places answers ([discoverVendors], the branch of the
    maps key): its vendors, then the mock directory entries. *)
Definition found_with_places (category : Category) (zipCode : string)
    (uuids : nat -> string) (used : nat) (results : list Places.PlaceResult)
    : Async (list VendorData) :=
  let* found := Places.vendors_of_results category uuids used results in
  let* thumbtack := Thumbtack.getThumbtackMockVendors category zipCode in
  ret (fst found ++ thumbtack)%list.

End Discovery.

(** ** The submission of the intake view ([handleSubmit], AudioIntake) *)

Module Intake.

Inductive Selection := urgent | flexible.

(** What [handleSubmit] calls [onProblemAnalyzed] with; [None] when it
    returns without calling it.  [voiceTranscript] is the state
    [transcript], [Photo] stands for [File]. *)
Definition handleSubmit {Photo : Type} (useTextInput : bool)
    (textInput voiceTranscript zipCode : string)
    (selectedUrgency : option Selection) (photos : list Photo)
    : option (ProblemSummary * string * option (list Photo)) :=
  let problemText := if useTextInput then textInput else voiceTranscript in
  match selectedUrgency with
  | None => None
  | Some selected =>
      if negb (JS.nonempty (JS.trim problemText)) || negb (JS.nonempty (JS.trim zipCode))
      then None
      else
        let analysis := Classifier.analyzeProblem problemText in
        (* summary.urgency = selectedUrgency === 'urgent' ? 'high' : 'low' *)
        let analysis :=
          {| transcript := transcript analysis;
             summary := summary analysis;
             category := category analysis;
             urgency := match selected with urgent => high | flexible => low end;
             symptoms := symptoms analysis;
             modelSerial := modelSerial analysis |} in
        Some (analysis, zipCode,
              match photos with [] => None | _ => Some photos end)
  end.

End Intake.

(** ** The flow of the application (src/App.tsx) *)

Module App.

Inductive AppState := intake | discovery | booking | complete.

Record Model := {
  state : AppState;
  problemSummary : option ProblemSummary;
  selectedVendor : option VendorData;
  bookingResult : option BookingResult;
  zipCode : string
}.

Definition initial : Model :=
  {| state := intake; problemSummary := None; selectedVendor := None;
     bookingResult := None; zipCode := "" |}.

(** The handlers, each a batch of state updates. *)
Definition handleProblemAnalyzed (summary : ProblemSummary) (zip : string)
    (m : Model) : Model :=
  {| state := discovery; problemSummary := Some summary;
     selectedVendor := selectedVendor m; bookingResult := bookingResult m;
     zipCode := zip |}.

Definition handleVendorSelected (vendor : VendorData) (m : Model) : Model :=
  {| state := booking; problemSummary := problemSummary m;
     selectedVendor := Some vendor; bookingResult := bookingResult m;
     zipCode := zipCode m |}.

Definition handleBookingComplete (result : BookingResult) (m : Model) : Model :=
  {| state := complete; problemSummary := problemSummary m;
     selectedVendor := selectedVendor m; bookingResult := Some result;
     zipCode := zipCode m |}.

Definition resetFlow (m : Model) : Model := initial.

(** [onBack={() => setState(s)}] *)
Definition setState (s : AppState) (m : Model) : Model :=
  {| state := s; problemSummary := problemSummary m;
     selectedVendor := selectedVendor m; bookingResult := bookingResult m;
     zipCode := zipCode m |}.

(** The view that [App] renders under [main]; [None] when every guard of the
    JSX is false. *)
Inductive View :=
| AudioIntakeView
| VendorDiscoveryView (p : ProblemSummary) (zip : string)
| BookingFlowView (v : VendorData) (p : ProblemSummary)
| BookingSummaryView (r : BookingResult) (v : VendorData) (p : ProblemSummary).

Definition render (m : Model) : option View :=
  match state m with
  | intake => Some AudioIntakeView
  | discovery =>
      match problemSummary m with
      | Some p => Some (VendorDiscoveryView p (zipCode m))
      | None => None
      end
  | booking =>
      match selectedVendor m, problemSummary m with
      | Some v, Some p => Some (BookingFlowView v p)
      | _, _ => None
      end
  | complete =>
      match bookingResult m, selectedVendor m, problemSummary m with
      | Some r, Some v, Some p => Some (BookingSummaryView r v p)
      | _, _, _ => None
      end
  end.

(** What the user and the views can do: each event is the call of a handler
    by the view that is on screen. *)
Inductive Event :=
| ProblemAnalyzed (summary : ProblemSummary) (zip : string)
| VendorSelected (vendor : VendorData)
| BackToIntake
| BookingComplete (result : BookingResult)
| BackToDiscovery
| StartOver.

(** An event can happen only in the view that holds its handler; "Book Now"
    is disabled unless the vendor is bookable. *)
Definition step (m : Model) (e : Event) : option Model :=
  match render m, e with
  | Some AudioIntakeView, ProblemAnalyzed summary zip =>
      Some (handleProblemAnalyzed summary zip m)
  | Some (VendorDiscoveryView _ _), VendorSelected vendor =>
      if Discovery.bookable vendor then Some (handleVendorSelected vendor m) else None
  | Some (VendorDiscoveryView _ _), BackToIntake => Some (setState intake m)
  | Some (BookingFlowView _ _), BookingComplete result =>
      Some (handleBookingComplete result m)
  | Some (BookingFlowView _ _), BackToDiscovery => Some (setState discovery m)
  | Some (BookingSummaryView _ _ _), StartOver => Some (resetFlow m)
  | _, _ => None
  end.

Fixpoint run (m : Model) (events : list Event) : option Model :=
  match events with
  | [] => Some m
  | e :: rest =>
      match step m e with
      | Some m' => run m' rest
      | None => None
      end
  end.

End App.

(** ** The rate limiter ([createRateLimiter], src/unnamed/part_002) *)

Module RateLimiter.

(** The response of the middleware: [next()] or status 429 with its
    [retryAfter] (the text of the message is left out). *)
Inductive Response :=
| Next
| TooManyRequests (retryAfter : Z).

(** The closure returned by [createRateLimiter(windowMs, maxRequests)],
    called for a request of [ip] when [Date.now()] is [now]; [requests] is
    the [Map] of the closure. *)
Definition limiter (windowMs maxRequests : Z) (ip : string) (now : Z)
    (requests : gmap string (list Z)) : gmap string (list Z) * Response :=
  let windowStart := (now - windowMs)%Z in
  let requests :=
    match requests !! ip with
    | Some timestamps =>
        <[ip := List.filter (fun timestamp => (windowStart <? timestamp)%Z) timestamps]>
          requests
    | None => <[ip := []]> requests
    end in
  let userRequests := default [] (requests !! ip) in
  if (maxRequests <=? Z.of_nat (length userRequests))%Z then
    (requests, TooManyRequests ((windowMs + 999) / 1000)%Z)
  else
    (<[ip := (userRequests ++ [now])%list]> requests, Next).

(** A sequence of requests, each with the address it comes from and the
    time it arrives, served from the state [requests]: the responses, with
    their requests, and the final state. *)
Fixpoint serve (windowMs maxRequests : Z) (arrivals : list (string * Z))
    (requests : gmap string (list Z))
    : list (string * Z * Response) * gmap string (list Z) :=
  match arrivals with
  | [] => ([], requests)
  | (ip, now) :: rest =>
      let '(requests', response) := limiter windowMs maxRequests ip now requests in
      let '(served, final) := serve windowMs maxRequests rest requests' in
      ((ip, now, response) :: served, final)
  end.

End RateLimiter.

(** ** The API key check ([validateApiKey], src/unnamed/part_002) *)

Module ApiKey.

(** The response of the middleware: [next()] or status 401 with its
    message. *)
Inductive Response :=
| Next
| Unauthorized (message : string).

(** [`${v}`] for a string that may be undefined. *)
Definition template (v : option string) : string :=
  match v with
  | Some s => s
  | None => "undefined"
  end.

(** [x_api_key] and [authorization] are the two headers of the request,
    [API_KEY] is [process.env.API_KEY]. *)
Definition validateApiKey (x_api_key authorization API_KEY : option string)
    : Response :=
  let apiKey := JS.or_str x_api_key authorization in
  match apiKey with
  | Some key =>
      if negb (JS.nonempty key) then Unauthorized "API key is required"
      else if match API_KEY with
              | Some expected => String.eqb key expected
              | None => false
              end
              || String.eqb key ("Bearer " ++ template API_KEY)
      then Next
      else Unauthorized "Invalid API key"
  | None => Unauthorized "API key is required"
  end.

End ApiKey.

(** * Vocabulary of the properties *)

(** Sample inputs on which the theorems below are exercised. *)
Module Samples.

Definition acme : VendorData :=
  {| id := "acme-1"; name := "Acme Air"; rating := 45 # 10; reviewCount := 31;
     v_phone := "N/A"; website := None; address := "1 Main St";
     distance := 21 # 10; v_category := "HVAC";
     hasWebChat := true; hasWhatsApp := true; hasSms := Some true;
     eta := Some "Tomorrow 9-11 AM"; serviceFee := Some 95%Z;
     outreachStatus := completed; outreachLog := []; source := Some demo |}.

(** A vendor as [fetchVendorsFromPlaces] builds it: no chat, no WhatsApp,
    no [hasSms] property. *)
Definition places_vendor : VendorData :=
  {| id := "place-7"; name := "Bay Plumbing"; rating := 45 # 10; reviewCount := 0;
     v_phone := "N/A"; website := None; address := "Address unavailable";
     distance := 3; v_category := "plumber";
     hasWebChat := false; hasWhatsApp := false; hasSms := None;
     eta := None; serviceFee := None;
     outreachStatus := pending; outreachLog := []; source := Some google |}.

Definition ac_problem : ProblemSummary :=
  Classifier.analyzeProblem "My AC is broken and leaking".

Definition no_config : PartialConfig :=
  {| p_fastDemo := None; p_randomSeed := None; p_outreachSuccessRate := None;
     p_bookingSuccessRate := None; p_maxAttempts := None; p_delayRange := None |}.

(** A world whose [i]-th random number has mantissa [f i]. *)
Definition world (f : nat -> Z) : World :=
  {| entropy := fun i => {| mantissa := f i; radix36 := "0.4fzyo82mvyr" |};
     cursor := 0; now := 1700000000000%Z; utcOffset := (-28800000)%Z;
     journal := []; booking_log := [] |}.

(** Mantissas of a random number just below 1 and of the random number 0. *)
Definition top : Z := (2 ^ 53 - 1)%Z.
Definition bottom : Z := 0%Z.

(** The final-step rolls of phone, web chat and WhatsApp (the random numbers
    of index 4, 11 and 17) fail, every other roll succeeds. *)
Definition sms_world : World :=
  world (fun i => if (i =? 4)%nat || (i =? 11)%nat || (i =? 17)%nat
                  then top else bottom).

(** A callback that throws at every call, and one that throws on the
    messages of the steps of a phone call only. *)
Definition always_throws {A} (error : string) : A -> option string :=
  fun _ => Some error.

Definition throws_on_phone_steps (attempt : string) : option string :=
  if String.prefix "Phone Call: " attempt then Some "Error: no UI" else None.

End Samples.

(** Outcomes of asynchronous computations. *)

(** [m] resolves from every world. *)
Definition total {A} (m : Async A) : Prop :=
  forall w, exists w' a, m w = (w', Ok a).

(** [w'] is [w] after [k] more calls of [Math.random()]. *)
Definition drawn (k : nat) (w w' : World) : Prop :=
  entropy w' = entropy w /\ cursor w' = (k + cursor w)%nat.

(** [m] leaves the sequence of random numbers as it is, whatever its
    outcome. *)
Definition keeps_dice {A} (m : Async A) : Prop :=
  forall w w' o, m w = (w', o) -> entropy w' = entropy w.

(** An optional string that is set: neither [undefined] nor empty. *)
Definition has_value (o : option string) : Prop :=
  exists s, o = Some s /\ s <> "".

(** A callback that returns from every call, and the callback that does
    nothing. *)
Definition returns_normally {A} (callback : A -> option string) : Prop :=
  forall a, callback a = None.

Definition quiet {A} : A -> option string := fun _ => None.

(** Vocabulary of the booking simulator. *)


(** The final-step roll of [channel] when it is the random number of index
    [p]. *)
Definition roll (vendor : VendorData) (dice : nat -> Draw)
    (channel : BookingChannel) (p : nat) : bool :=
  Qltb (value (dice p)) (Booking.successRate channel vendor).

(** Where the final-step rolls of the channels [todo] are in the sequence of
    random numbers when the callbacks return and the first channel starts at
    index [start]: a channel draws once for its confirmation number, once
    per step for the pause, and once, before the last pause, for the roll. *)
Fixpoint final_rolls (todo : list BookingChannel) (start : nat)
    : list (BookingChannel * nat) :=
  match todo with
  | [] => []
  | c :: rest =>
      (c, start + length (Booking.scripts_of c))%nat ::
      final_rolls rest (start + length (Booking.scripts_of c) + 2)
  end.

(** The first channel of [todo] whose final-step roll succeeds. *)
Definition first_success (vendor : VendorData) (dice : nat -> Draw)
    (todo : list BookingChannel) (start : nat) : option BookingChannel :=
  match List.find (fun cp => roll vendor dice (fst cp) (snd cp))
                  (final_rolls todo start) with
  | Some cp => Some (fst cp)
  | None => None
  end.

(** The notice that precedes the [try] block of a channel. *)
Definition notice (channel : BookingChannel) : string :=
  "Attempting booking via " ++ Booking.channelName channel ++ "...".

(** The entry that [addLogEntry] builds in the world [w], and the world
    after it has pushed the entry and told [onLogUpdate]. *)
Definition entry_at (w : World) (channel action message : string) (ok : bool)
    : BookingLogEntry :=
  {| le_timestamp := Date.toISOString (now w);
     le_channel := channel;
     le_action := action;
     le_message := message;
     le_success := ok |}.

Definition logged (entry : BookingLogEntry) (w : World) : World :=
  let w1 := set_booking_log (booking_log w ++ [entry])%list w in
  set_journal (journal w1 ++ [LogUpdate entry])%list w1.

(** The entry of the [catch] block. *)
Definition error_entry (channel : BookingChannel) (error : string) (w : World)
    : BookingLogEntry :=
  entry_at w (BookingChannel_str channel) "error"
           ("Booking attempt failed: " ++ error) false.

(** A result confirmed through [channel], with its time and its number. *)
Definition confirmed_by (channel : BookingChannel) (r : BookingResult) : Prop :=
  br_status r = confirmed /\ br_channel r = channel /\
  has_value (scheduledStartISO r) /\ has_value (confirmationNumber r).

(** Vocabulary of the outreach simulator. *)

(** The statuses that the callback has seen, call after call, in the slot
    [p] of the vendor's [outreachLog] (calls made while the slot does not
    exist yet see nothing). *)
Definition status_history (p : nat) (snapshots : list VendorData)
    : list AttemptStatus :=
  omap (fun v => oa_status <$> outreachLog v !! p) snapshots.

(** The vendors that [onUpdate] was called with, oldest first. *)
Definition snapshots (j : list Event) : list VendorData :=
  omap (fun e => match e with VendorUpdate v => Some v | _ => None end) j.

(** [eta] and [serviceFee] are set. *)
Definition quote_set (v : VendorData) : Prop :=
  has_value (eta v) /\ exists fee, serviceFee v = Some fee.

Definition all_failed (attempts : list OutreachAttempt) : Prop :=
  Forall (fun a => oa_status a = attempt_failed) attempts.

(** The attempt that the round [attempt] pushes, as it is when pushed. *)
Definition first_attempt (delays : list Z) (problemSummary : ProblemSummary)
    (attempt : nat) (channel : OutreachChannel) (w : World) : OutreachAttempt :=
  {| oa_channel := channel;
     oa_timestamp := Date.toISOString (now w + Outreach.pick_delay delays attempt);
     oa_status := sent;
     oa_message :=
       Some (JS.replace (Outreach.OUTREACH_MESSAGES channel) "{category}"
                        (Category_str (category problemSummary)));
     oa_response := None |}.


(** * Vocabulary of the further properties *)

(** A string of decimal digits. *)
Definition all_digits (s : string) : bool :=
  forallb JS.is_digit (list_ascii_of_string s).



(** No lower-case letter. *)
Definition no_lower (s : string) : bool :=
  forallb (fun c => negb (JS.is_lower c)) (list_ascii_of_string s).

(** The entries that [onLogUpdate] has been called with, oldest first. *)
Definition log_updates (j : list Event) : list BookingLogEntry :=
  omap (fun e => match e with LogUpdate entry => Some entry | _ => None end) j.

(** Whatever its outcome, [m] pushes to the log the entries that it reports
    to [onLogUpdate], in the same order, and leaves the earlier ones. *)
Definition mirrors {A} (m : Async A) : Prop :=
  forall w w' o, m w = (w', o) ->
    exists entries,
      booking_log w' = (booking_log w ++ entries)%list /\
      log_updates (journal w') = (log_updates (journal w) ++ entries)%list.

(** The outline of a log entry: its channel, its action and its flag. *)
Definition entry_outline (e : BookingLogEntry) : string * string * bool :=
  (le_channel e, le_action e, le_success e).

(** The outline of the entries of the steps [i], ..., [i + k - 1] of a
    channel of [n] steps whose final-step roll is [ok]. *)
Definition step_outline (channel : BookingChannel) (n i k : nat) (ok : bool)
    : list (string * string * bool) :=
  map (fun j => (BookingChannel_str channel, "step_" ++ JS.show_nat (j + 1),
                 if (j =? n - 1)%nat then ok else true))
      (seq i k).

Definition channel_outline (channel : BookingChannel) (ok : bool)
    : list (string * string * bool) :=
  let n := length (Booking.scripts_of channel) in
  step_outline channel n 0 n ok.

(** The outline of the log of a run over the channels [todo] when the
    callbacks return and the first channel starts at the random number of
    index [start]. *)
Fixpoint expected_outline (vendor : VendorData) (dice : nat -> Draw)
    (todo : list BookingChannel) (start : nat) : list (string * string * bool) :=
  match todo with
  | [] => []
  | c :: rest =>
      let p := (start + length (Booking.scripts_of c))%nat in
      if roll vendor dice c p then channel_outline c true
      else (channel_outline c false ++ expected_outline vendor dice rest (p + 2))%list
  end.

(** Vocabulary of the outreach runs. *)

(** What a vendor is listed with: the fields that are neither its outreach
    status, nor its outreach log, nor its quote. *)
Definition listing (v : VendorData) :=
  (id v, name v, rating v, reviewCount v, v_phone v, website v, address v,
   distance v, v_category v, hasWebChat v, hasWhatsApp v, hasSms v, source v).

(** The first of [remaining] rounds whose roll passes, when the rounds roll
    the random numbers from index [start] on, one per round. *)
Fixpoint first_pass (rate : Q) (dice : nat -> Draw) (start remaining : nat)
    : option nat :=
  match remaining with
  | O => None
  | S remaining' =>
      if Qltb (value (dice start)) rate then Some O
      else option_map S (first_pass rate dice (S start) remaining')
  end.

(** The index of the table of quotes that a random number picks. *)
Definition quote_index (d : Draw) : nat :=
  Z.to_nat (Math_floor (value d *
                        inject_Z (Z.of_nat (length Outreach.ETA_PATTERNS)))).

(** The text of the reply that carries a quote. *)
Definition reply_text (e : string) (fee : Z) : string :=
  "Available: " ++ e ++ " - $" ++ JS.show_Z fee ++ " service fee".

(** The timers of a round after its first one: until delivery, then until
    the reply or until the attempt is given up. *)
Definition delivery_ms (cfg : SimulationConfig) : Z :=
  if fastDemo cfg then 300 else 1000.
Definition reply_ms (cfg : SimulationConfig) : Z :=
  if fastDemo cfg then 500 else 2000.
Definition give_up_ms (cfg : SimulationConfig) : Z :=
  if fastDemo cfg then 400 else 1500.

(** The time that [k] failing rounds take from round [attempt] on, and the
    time until the reply when the round after them succeeds. *)
Fixpoint failed_ms (cfg : SimulationConfig) (delays : list Z) (attempt k : nat)
    : Z :=
  match k with
  | O => 0
  | S k' =>
      Outreach.pick_delay delays attempt + delivery_ms cfg + give_up_ms cfg +
      failed_ms cfg delays (S attempt) k'
  end.

Definition completed_ms (cfg : SimulationConfig) (delays : list Z)
    (attempt k : nat) : Z :=
  failed_ms cfg delays attempt k +
  Outreach.pick_delay delays (attempt + k) + delivery_ms cfg + reply_ms cfg.

(** The delays between the rounds that [simulateOutreach] uses. *)
Definition outreach_delays (cfg : SimulationConfig) : list Z :=
  if fastDemo cfg then [800; 1200; 1600]%Z else [2000; 4000; 6000]%Z.

(** A configuration that sets [outreachSuccessRate] only. *)
Definition config_with_rate (rate : Q) : PartialConfig :=
  {| p_fastDemo := None; p_randomSeed := None; p_outreachSuccessRate := Some rate;
     p_bookingSuccessRate := None; p_maxAttempts := None; p_delayRange := None |}.

(** The state of the vendor list after a sequence of calls of the callback
    that [VendorDiscovery] gives to [simulateOutreach], oldest first.  Each
    update is the vendor as it is at the call; the list holds the object of
    the run itself, which the run goes on writing to, so that between two
    calls the view can read a later content, and reads this one at each
    call. *)
Definition after_updates (updates vendors : list VendorData) : list VendorData :=
  fold_left (fun prev updatedVendor => Discovery.apply_update updatedVendor prev)
            updates vendors.

(** The updates that carry the id of [v]. *)
Definition updates_of (v : VendorData) (updates : list VendorData)
    : list VendorData :=
  List.filter (fun u => String.eqb (id v) (id u)) updates.

(** A configuration that sets the seed, the delay range and the booking
    rate, and nothing else. *)
Definition seeded_config : PartialConfig :=
  {| p_fastDemo := None; p_randomSeed := Some 42%Z; p_outreachSuccessRate := None;
     p_bookingSuccessRate := Some (1 # 2); p_maxAttempts := None;
     p_delayRange := Some (0, 10)%Z |}.

(** Vocabulary of the vendors found. *)

(** A distance of [k] tenths of a mile with [lo <= k <= hi]. *)
Definition tenths_between (lo hi : Z) (q : Q) : Prop :=
  exists k : Z, q = (inject_Z k / 10)%Q /\ (lo <= k <= hi)%Z.

(** A vendor as the mapping of the Places results builds it. *)
Definition from_places (category : Category) (v : VendorData) : Prop :=
  source v = Some google /\ v_category v = Category_str category /\
  v_phone v = "N/A" /\
  outreachStatus v = pending /\ outreachLog v = [] /\
  eta v = None /\ serviceFee v = None /\
  Booking.channels_of v = [b_phone] /\
  tenths_between 3 120 (distance v).

(** An entry of the mock directory. *)
Definition from_directory (v : VendorData) : Prop :=
  source v = Some thumbtack /\
  outreachStatus v = pending /\ outreachLog v = [] /\ eta v = None /\
  Booking.channels_of v = [b_phone; b_whatsapp; b_sms] /\
  (20 <= reviewCount v)%Z /\
  tenths_between 3 123 (distance v).

(** Sample results of a text search: one with every field, one with
    none. *)
Definition full_place : Places.PlaceResult :=
  {| Places.place_id := Some "ChIJ-1"; Places.p_name := Some "Bay Plumbing";
     Places.p_rating := Some (48 # 10); Places.user_ratings_total := Some 12%Z;
     Places.p_website := Some "https://bay.example";
     Places.formatted_address := Some "1 Main St";
     Places.vicinity := Some "Main St" |}.

Definition bare_place : Places.PlaceResult :=
  {| Places.place_id := None; Places.p_name := None; Places.p_rating := None;
     Places.user_ratings_total := None; Places.p_website := None;
     Places.formatted_address := None; Places.vicinity := None |}.

Definition sample_uuids (n : nat) : string := "uuid-" ++ JS.show_nat n.

(** Vocabulary of the application flow. *)

(** A result to complete a booking with. *)
Definition sample_result : BookingResult :=
  {| br_status := booking_failed; br_channel := b_phone; scheduledStartISO := None;
     br_notes := Booking.fallback_notes; br_log := []; confirmationNumber := None |}.

(** What holds of the model whenever a view is on screen. *)
Definition consistent (m : App.Model) : Prop :=
  (forall v, App.selectedVendor m = Some v -> Discovery.bookable v = true) /\
  match App.state m with
  | App.intake => True
  | App.discovery => App.problemSummary m <> None
  | App.booking => App.problemSummary m <> None /\ App.selectedVendor m <> None
  | App.complete =>
      App.problemSummary m <> None /\ App.selectedVendor m <> None /\
      App.bookingResult m <> None
  end.

(** Vocabulary of the rate limiter. *)

(** The times of the requests of [ip] that were let through. *)
Fixpoint let_through (ip : string)
    (served : list (string * Z * RateLimiter.Response)) : list Z :=
  match served with
  | [] => []
  | (ip', t, RateLimiter.Next) :: rest =>
      if String.eqb ip' ip then t :: let_through ip rest else let_through ip rest
  | _ :: rest => let_through ip rest
  end.

(** [t] lies in the window of [windowMs] ms that ends at [b], its start
    excluded. *)
Definition in_window (windowMs b t : Z) : bool :=
  (b - windowMs <? t)%Z && (t <=? b)%Z.

(** The clock does not go back from one request to the next. *)
Fixpoint nondecreasing_from (T : Z) (times : list Z) : bool :=
  match times with
  | [] => true
  | t :: rest => (T <=? t)%Z && nondecreasing_from t rest
  end.

Definition nondecreasing (times : list Z) : bool :=
  match times with
  | [] => true
  | t :: rest => nondecreasing_from t rest
  end.

(** Vocabulary of the scripts. *)

(** A text without brace and without dollar sign. *)
Definition plain (s : string) : bool :=
  forallb (fun c => negb (Ascii.eqb c "{") && negb (Ascii.eqb c "$"))
          (list_ascii_of_string s).

(** The placeholders, and a script cut into its texts and its
    placeholders. *)
Inductive Hole := h_vendor | h_problem | h_eta | h_number.

Definition hole_text (h : Hole) : string :=
  match h with
  | h_vendor => "{vendor}"
  | h_problem => "{problem}"
  | h_eta => "{eta}"
  | h_number => "{confirmationNumber}"
  end.

Definition Hole_eqb (a b : Hole) : bool :=
  match a, b with
  | h_vendor, h_vendor | h_problem, h_problem | h_eta, h_eta
  | h_number, h_number => true
  | _, _ => false
  end.

Inductive Piece :=
| Lit (s : string)
| Slot (h : Hole).

Fixpoint text (pieces : list Piece) : string :=
  match pieces with
  | [] => EmptyString
  | Lit s :: rest => s ++ text rest
  | Slot h :: rest => hole_text h ++ text rest
  end.

(** The pieces with the first placeholder [h] filled with [v]. *)
Fixpoint fill_first (h : Hole) (v : string) (pieces : list Piece) : list Piece :=
  match pieces with
  | [] => []
  | Lit s :: rest => Lit s :: fill_first h v rest
  | Slot h' :: rest =>
      if Hole_eqb h' h then Lit v :: rest else Slot h' :: fill_first h v rest
  end.

Definition plain_pieces (pieces : list Piece) : bool :=
  forallb (fun p => match p with Lit s => plain s | Slot _ => true end) pieces.

(** The scripts of the four channels, cut into pieces. *)
Definition script_pieces (channel : BookingChannel) : list (list Piece) :=
  match channel with
  | b_phone =>
      [ [Lit "Calling "; Slot h_vendor;
         Lit "... Connected! Confirming availability for "; Slot h_problem; Lit "."];
        [Lit "Speaking with receptionist... Checking schedule for "; Slot h_eta;
         Lit "."];
        [Lit "Confirming appointment details... Getting confirmation number."];
        [Lit "Appointment confirmed! Booking reference: "; Slot h_number] ]
  | b_web_chat =>
      [ [Lit "Initiating chat on "; Slot h_vendor; Lit " website..."];
        [Lit "Chat agent connected. Explaining: "; Slot h_problem];
        [Lit "Agent checking availability for "; Slot h_eta; Lit "..."];
        [Lit "Securing appointment slot... Processing booking."];
        [Lit "Booking confirmed through web chat!"] ]
  | b_whatsapp =>
      [ [Lit "Sending WhatsApp message to "; Slot h_vendor; Lit "..."];
        [Lit "Message delivered. Explaining service need: "; Slot h_problem];
        [Lit "Vendor responding... Confirming "; Slot h_eta; Lit " availability."];
        [Lit "Appointment details confirmed via WhatsApp."] ]
  | b_sms =>
      [ [Lit "Sending SMS to "; Slot h_vendor; Lit "..."];
        [Lit "Message sent. Explaining: "; Slot h_problem];
        [Lit "Awaiting confirmation for "; Slot h_eta; Lit " via SMS..."];
        [Lit "Appointment confirmed via SMS."] ]
  end.

(** A script with each placeholder standing for its value. *)
Fixpoint instance (vendor problem eta number : string) (pieces : list Piece)
    : string :=
  match pieces with
  | [] => EmptyString
  | Lit s :: rest => s ++ instance vendor problem eta number rest
  | Slot h :: rest =>
      match h with
      | h_vendor => vendor
      | h_problem => problem
      | h_eta => eta
      | h_number => number
      end ++ instance vendor problem eta number rest
  end.

(** Vocabulary of the simulated time. *)



(** * Properties *)

(** ** Asynchronous computations *)

Lemma bind_ok_inv {A B} (m : Async A) (k : A -> Async B) w w' b :
  bind m k w = (w', Ok b) ->
  exists a w1, m w = (w1, Ok a) /\ k a w1 = (w', Ok b).
Proof.
  unfold bind. destruct (m w) as [w1 [a|e]]; [eauto|discriminate].
Qed.

Lemma bind_ok {A B} (m : Async A) (k : A -> Async B) w w1 a :
  m w = (w1, Ok a) -> bind m k w = k a w1.
Proof. unfold bind. now intros ->. Qed.

Lemma ret_inv {A} (a b : A) w w' : ret a w = (w', Ok b) -> w' = w /\ b = a.
Proof. intros [= <- <-]. split; reflexivity. Qed.

Lemma try_catch_inv {A} (m : Async A) h w w' a :
  try_catch m h w = (w', Ok a) ->
  m w = (w', Ok a) \/ exists e w1, m w = (w1, Throw e) /\ h e w1 = (w', Ok a).
Proof.
  unfold try_catch. destruct (m w) as [w1 [x|e]]; [now left|right; eauto].
Qed.

Lemma try_catch_ok {A} (m : Async A) h w w' a :
  m w = (w', Ok a) -> try_catch m h w = (w', Ok a).
Proof. unfold try_catch. now intros ->. Qed.

Lemma Math_random_inv w w' d :
  Math_random w = (w', Ok d) -> d = entropy w (cursor w) /\ drawn 1 w w'.
Proof. intros [= <- <-]. split; [reflexivity|]. split; reflexivity. Qed.

Lemma sleep_inv ms w w' u : sleep ms w = (w', Ok u) -> drawn 0 w w'.
Proof. intros [= <- ?]. split; reflexivity. Qed.

Lemma total_ret {A} (a : A) : total (ret a).
Proof. intros w. now exists w, a. Qed.

Lemma total_bind {A B} (m : Async A) (k : A -> Async B) :
  total m -> (forall a, total (k a)) -> total (bind m k).
Proof.
  intros Hm Hk w. destruct (Hm w) as (w1 & a & E).
  destruct (Hk a w1) as (w2 & b & E2). exists w2, b.
  now rewrite (bind_ok _ _ _ _ _ E).
Qed.

Lemma total_Math_random : total Math_random.
Proof. intros w. now eexists _, _. Qed.

Lemma total_sleep ms : total (sleep ms).
Proof. intros w. now eexists _, _. Qed.

Lemma keeps_ret {A} (a : A) : keeps_dice (ret a).
Proof. intros w w' o [= <- _]. reflexivity. Qed.

Lemma keeps_bind {A B} (m : Async A) (k : A -> Async B) :
  keeps_dice m -> (forall a, keeps_dice (k a)) -> keeps_dice (bind m k).
Proof.
  intros Hm Hk w w' o. unfold bind.
  destruct (m w) as [w1 [a|e]] eqn:E.
  - intros Hrun. rewrite (Hk a _ _ _ Hrun). exact (Hm _ _ _ E).
  - intros [= <- _]. exact (Hm _ _ _ E).
Qed.

Lemma keeps_Math_random : keeps_dice Math_random.
Proof. intros w w' o [= <- _]. reflexivity. Qed.

Lemma keeps_sleep ms : keeps_dice (sleep ms).
Proof. intros w w' o [= <- _]. reflexivity. Qed.

Tactic Notation "inv_bind" hyp(H) "as" ident(a) ident(w) ident(E) :=
  apply bind_ok_inv in H as (a & w & E & H).

(** ** The library functions on sample inputs *)

Example includes_examples :
  JS.includes "my ac is broken" " ac" = true /\
  JS.includes "my ac is broken" "ac unit" = false /\
  JS.includes "" "" = true /\
  JS.includes "a" "" = true.
Proof. repeat split. Qed.

Example replace_examples :
  JS.replace "Sending SMS to {vendor}..." "{vendor}" "Acme" = "Sending SMS to Acme..." /\
  JS.replace "{eta} or {eta}" "{eta}" "noon" = "noon or {eta}" /\
  JS.replace "no placeholder" "{eta}" "noon" = "no placeholder" /\
  JS.replace "for {vendor}." "{vendor}" "A$$B $& C" = "for A$B {vendor} C.".
Proof. repeat split. Qed.

Example toISOString_examples :
  Date.toISOString 0 = "1970-01-01T00:00:00.000Z" /\
  Date.toISOString 1700000000000 = "2023-11-14T22:13:20.000Z" /\
  Date.toISOString 951782400000 = "2000-02-29T00:00:00.000Z" /\
  Date.toISOString (-1) = "1969-12-31T23:59:59.999Z".
Proof. vm_compute. repeat split. Qed.

(** With local time eight hours behind UTC, two days after
    2023-11-14T14:13:20 local time, at 10:00 local time. *)
Example at_local_hour_example :
  Date.toISOString (Date.at_local_hour (-28800000) 1700000000000 2 10)
  = "2023-11-16T18:00:00.000Z".
Proof. vm_compute. reflexivity. Qed.

Example confirmation_number_example :
  snd (Booking.generateConfirmationNumber (Samples.world (fun _ => 0%Z)))
  = Ok "GSP-4FZYO8".
Proof. vm_compute. reflexivity. Qed.

(** ** The classifier *)

Section ClassifierFacts.

Import Classifier.

Variable lowerText : string.


End ClassifierFacts.


(** C7 as the specification states it fails: on the transcript
    "My AC is broken and leaking" the urgency is not [medium], because
    "broken" is one of the keywords of [high]. *)
Lemma ac_transcript_urgency_is_not_medium :
  urgency (Classifier.analyzeProblem "My AC is broken and leaking") <> medium.
Proof. vm_compute. discriminate. Qed.

(** C7, amended.  On the transcript "My AC is broken and leaking"
    [analyzeProblem] returns the category [hvac] and the urgency [high]: no
    keyword of [emergency] occurs in it, and the keyword "broken" of [high]
    does. *)
Theorem ac_transcript_is_hvac_high :
  let p := Classifier.analyzeProblem "My AC is broken and leaking" in
  category p = hvac /\ urgency p = high /\
  existsb (JS.includes "my ac is broken and leaking")
          ["emergency"; "urgent"; "immediate"; "asap"; "flooding"; "fire";
           "gas leak"; "no power"] = false /\
  JS.includes "my ac is broken and leaking" "broken" = true.
Proof. vm_compute. repeat split. Qed.

(** Lower-casing twice is lower-casing once. *)
Lemma toLowerCase_idempotent (s : string) :
  JS.toLowerCase (JS.toLowerCase s) = JS.toLowerCase s.
Proof.
  induction s as [|c s IH]; [reflexivity|].
  cbn [JS.toLowerCase JS.map_chars]. f_equal; [|exact IH].
  destruct c as [[] [] [] [] [] [] [] []]; reflexivity.
Qed.

(** C10.  The summary returned by [analyzeProblem] stores the transcript it
    was given, unchanged.  Only the matching uses the lower-cased copy: the
    category, the urgency and the symptoms are those of the lower-cased
    transcript, whose summary still stores the lower-cased text it was
    given. *)
Theorem analyzeProblem_keeps_transcript (text : string) :
  let p := Classifier.analyzeProblem text in
  let q := Classifier.analyzeProblem (JS.toLowerCase text) in
  transcript p = text /\
  transcript q = JS.toLowerCase text /\
  category p = category q /\ urgency p = urgency q /\ symptoms p = symptoms q.
Proof.
  cbn [transcript category urgency symptoms Classifier.analyzeProblem].
  rewrite toLowerCase_idempotent. repeat split.
Qed.

(** The stored transcript keeps its capitals. *)
Example ac_transcript_is_stored_as_given :
  let p := Classifier.analyzeProblem "My AC is broken and leaking" in
  transcript p = "My AC is broken and leaking" /\
  JS.toLowerCase (transcript p) = "my ac is broken and leaking" /\
  symptoms p = ["leaking"; "broken"] /\
  summary p = "My AC is broken and leaking.".
Proof. vm_compute. repeat split. Qed.

(** ** The booking simulator *)

Lemma toISOString_nonempty t : Date.toISOString t <> "".
Proof.
  unfold Date.toISOString. destruct (Date.civil_from_days _) as [[y m] d].
  destruct (Date.show_year y); discriminate.
Qed.

Section BookingFacts.

Import Booking.

Variables (vendor : VendorData) (problemSummary : ProblemSummary).
Variables (onAttemptUpdate : AttemptCallback) (onLogUpdate : LogCallback).

Lemma call_attempt_inv m w w' u :
  call_attempt onAttemptUpdate m w = (w', Ok u) ->
  onAttemptUpdate m = None /\ drawn 0 w w'.
Proof.
  unfold call_attempt. destruct (onAttemptUpdate m); cbn; intros [= <- ?].
  split; [reflexivity|]. split; reflexivity.
Qed.

Lemma addLogEntry_run c a m ok w :
  addLogEntry c a m ok onLogUpdate w
  = (logged (entry_at w c a m ok) w, outcome_of (onLogUpdate (entry_at w c a m ok))).
Proof. reflexivity. Qed.

Lemma addLogEntry_inv c a m ok w w' u :
  addLogEntry c a m ok onLogUpdate w = (w', Ok u) -> drawn 0 w w'.
Proof.
  rewrite addLogEntry_run. destruct (onLogUpdate _); cbn; intros [= <- ?].
  split; reflexivity.
Qed.

Lemma generateAppointmentTime_inv e w w' s :
  generateAppointmentTime e w = (w', Ok s) -> w' = w /\ s <> "".
Proof.
  unfold generateAppointmentTime. intros [= <- <-]. split; [reflexivity|].
  destruct e as [e|]; [|apply toISOString_nonempty].
  repeat match goal with
         | |- context [if ?b then _ else _] => destruct b
         end; apply toISOString_nonempty.
Qed.

(** A run of the step loop that returns has drawn one number per step and
    one for the roll of the last step, which decides what it returns. *)
Lemma steps_inv channel cn n todo :
  forall i w w' r,
    steps channel vendor problemSummary cn onAttemptUpdate onLogUpdate n todo i w
      = (w', Ok r) ->
    (length todo + i = n)%nat -> todo <> [] ->
    drawn (length todo + 1) w w' /\
    (if roll vendor (entropy w) channel (cursor w + length todo - 1)
     then r = None else exists f, r = Some f /\ success f = false).
Proof.
  induction todo as [|raw rest IH]; intros i w w' r Hrun Hn Hne; [congruence|].
  cbn [steps length] in *.
  inv_bind Hrun as u1 w1 H1. apply call_attempt_inv in H1 as [_ [E1 C1]].
  inv_bind Hrun as stepSuccess w2 Hroll.
  inv_bind Hrun as u3 w3 H3. apply addLogEntry_inv in H3 as [E3 C3].
  inv_bind Hrun as pause w4 H4. apply Math_random_inv in H4 as [_ [E4 C4]].
  inv_bind Hrun as u5 w5 H5. apply sleep_inv in H5 as [E5 C5].
  unfold roll. destruct rest as [|raw' rest'].
  - replace (i =? n - 1)%nat with true in *
      by (symmetry; apply Nat.eqb_eq; cbn in Hn; lia).
    inv_bind Hroll as d w6 H6. apply Math_random_inv in H6 as [-> [E6 C6]].
    apply ret_inv in Hroll as [-> ->].
    cbn [length]. replace (cursor w + 1 - 1)%nat with (cursor w1) by (cbn in C1; lia).
    rewrite <- E1.
    destruct (Qltb _ _); cbn [negb andb] in Hrun.
    + cbn in Hrun. apply ret_inv in Hrun as [-> ->].
      split; [split; [congruence|lia]|reflexivity].
    + apply ret_inv in Hrun as [-> ->].
      split; [split; [congruence|lia]|eauto].
  - replace (i =? n - 1)%nat with false in *
      by (symmetry; apply Nat.eqb_neq; cbn in Hn; lia).
    apply ret_inv in Hroll as [-> ->]. cbn [negb andb] in Hrun.
    apply IH in Hrun as [[E C] Hr]; [|cbn in *; lia|discriminate].
    cbn [length] in *.
    split; [split; [congruence|lia]|].
    replace (cursor w + S (S (length rest')) - 1)%nat
      with (cursor w5 + S (length rest') - 1)%nat by lia.
    replace (entropy w) with (entropy w5) by congruence. exact Hr.
Qed.

Lemma simulateChannel_inv channel w w' r :
  simulateChannel channel vendor problemSummary onAttemptUpdate onLogUpdate w
    = (w', Ok r) ->
  drawn (length (scripts_of channel) + 2) w w' /\
  success r = roll vendor (entropy w) channel (cursor w + length (scripts_of channel)) /\
  (success r = true ->
   has_value (scheduledTime r) /\ has_value (cr_confirmationNumber r)).
Proof.
  unfold simulateChannel. intros Hrun.
  inv_bind Hrun as cn w1 H1. unfold generateConfirmationNumber in H1.
  inv_bind H1 as d w0 H0. apply Math_random_inv in H0 as [-> [E0 C0]].
  apply ret_inv in H1 as [-> ->].
  inv_bind Hrun as early w2 H2. apply steps_inv in H2 as [[E2 C2] Hroll];
    [|lia|destruct channel; discriminate].
  replace (cursor w0 + length (scripts_of channel) - 1)%nat
    with (cursor w + length (scripts_of channel))%nat in Hroll
    by (destruct channel; cbn; lia).
  unfold roll in *. rewrite E0 in Hroll.
  destruct (Qltb _ _).
  - subst early. inv_bind Hrun as s w3 H3.
    apply generateAppointmentTime_inv in H3 as [-> Hs].
    apply ret_inv in Hrun as [-> ->]. cbn [success scheduledTime cr_confirmationNumber].
    split; [split; [congruence|lia]|]. split; [reflexivity|]. intros _.
    split; eexists; (split; [reflexivity|]); [exact Hs|discriminate].
  - destruct Hroll as (f & -> & Hf). apply ret_inv in Hrun as [-> ->].
    split; [split; [congruence|lia]|]. split; [exact Hf|]. rewrite Hf. discriminate.
Qed.

Lemma attempt_channel_inv channel w w' res :
  attempt_channel channel vendor problemSummary onAttemptUpdate onLogUpdate w
    = (w', Ok res) ->
  drawn (length (scripts_of channel) + 2) w w' /\
  (if roll vendor (entropy w) channel (cursor w + length (scripts_of channel))
   then exists r, res = Some r /\ confirmed_by channel r
   else res = None).
Proof.
  unfold attempt_channel. intros Hrun.
  inv_bind Hrun as result w1 H1.
  apply simulateChannel_inv in H1 as ([E1 C1] & Hs & Hset).
  rewrite <- Hs. destruct (success result).
  - inv_bind Hrun as log w2 H2. injection H2 as <- <-.
    apply ret_inv in Hrun as [-> ->].
    split; [split; assumption|]. eexists. split; [reflexivity|].
    destruct (Hset eq_refl) as [Ht Hc]. repeat split; assumption.
  - inv_bind Hrun as u2 w2 H2. apply call_attempt_inv in H2 as [_ [E2 C2]].
    inv_bind Hrun as u3 w3 H3. apply sleep_inv in H3 as [E3 C3].
    apply ret_inv in Hrun as [-> ->].
    split; [split; [congruence|lia]|reflexivity].
Qed.

Lemma on_error_inv channel e w w' res :
  on_error channel onLogUpdate e w = (w', Ok res) -> res = None.
Proof.
  unfold on_error. intros Hrun. inv_bind Hrun as u w1 H1.
  now apply ret_inv in Hrun as [_ ->].
Qed.

(** The loop returns a result only from a channel of its list, and only a
    confirmed one. *)
Lemma channel_loop_inv todo :
  forall w w' r,
    channel_loop vendor problemSummary onAttemptUpdate onLogUpdate todo w
      = (w', Ok (Some r)) ->
    exists channel, In channel todo /\ confirmed_by channel r.
Proof.
  induction todo as [|channel rest IH]; intros w w' r Hrun; cbn [channel_loop] in Hrun.
  - apply ret_inv in Hrun as [_ [=]].
  - inv_bind Hrun as u w1 H1. inv_bind Hrun as returned w2 H2.
    destruct returned as [r'|].
    + apply ret_inv in Hrun as [-> [= ->]].
      apply try_catch_inv in H2 as [H2|(e & w3 & _ & H2)].
      * apply attempt_channel_inv in H2 as [_ H2].
        destruct (roll _ _ _ _); [|discriminate].
        destruct H2 as (r0 & [= <-] & Hr). exists channel. split; [now left|exact Hr].
      * now apply on_error_inv in H2.
    + apply IH in Hrun as (c & Hin & Hc). exists c. split; [now right|exact Hc].
Qed.

Lemma head_channels_of : head (channels_of vendor) = Some b_phone.
Proof.
  unfold channels_of.
  destruct (hasWebChat vendor), (hasWhatsApp vendor), (truthy_flag (hasSms vendor));
    reflexivity.
Qed.

(** What a run of [simulateBooking] that returns can return. *)
Lemma simulateBooking_inv w w' r :
  simulateBooking vendor problemSummary onAttemptUpdate onLogUpdate w = (w', Ok r) ->
  (exists channel, In channel (channels_of vendor) /\ confirmed_by channel r) \/
  (br_status r = booking_failed /\ head (channels_of vendor) = Some (br_channel r) /\
   br_notes r = fallback_notes /\ br_log r = booking_log w').
Proof.
  unfold simulateBooking. intros Hrun.
  inv_bind Hrun as u w1 H1. inv_bind Hrun as returned w2 H2.
  destruct returned as [r'|].
  - apply ret_inv in Hrun as [-> ->]. left. now apply channel_loop_inv in H2.
  - inv_bind Hrun as log w3 H3. injection H3 as <- <-.
    apply ret_inv in Hrun as [-> ->]. right. cbn.
    rewrite head_channels_of. repeat split.
Qed.

(** An exception inside the [try] block of a channel: the handler pushes
    its entry and, when [onLogUpdate] returns from that entry, the loop goes
    on with the channels that remain. *)
Lemma channel_loop_catch channel rest w w0 w1 error :
  call_attempt onAttemptUpdate (notice channel) w = (w0, Ok tt) ->
  attempt_channel channel vendor problemSummary onAttemptUpdate onLogUpdate w0
    = (w1, Throw error) ->
  onLogUpdate (error_entry channel error w1) = None ->
  channel_loop vendor problemSummary onAttemptUpdate onLogUpdate (channel :: rest) w
  = channel_loop vendor problemSummary onAttemptUpdate onLogUpdate rest
      (logged (error_entry channel error w1) w1).
Proof.
  intros Hnote Hthrow Hquiet. cbn [channel_loop].
  unfold notice in Hnote. rewrite (bind_ok _ _ _ _ _ Hnote).
  unfold bind at 1. unfold try_catch. rewrite Hthrow.
  unfold on_error. unfold bind at 1. rewrite addLogEntry_run.
  fold (error_entry channel error w1). rewrite Hquiet. reflexivity.
Qed.

(** Whatever the callbacks do, a channel attempt leaves the random numbers
    still to come as they are. *)
Lemma keeps_call_attempt m : keeps_dice (call_attempt onAttemptUpdate m).
Proof. intros w w' o [= <- _]. reflexivity. Qed.

Lemma keeps_addLogEntry c a m ok : keeps_dice (addLogEntry c a m ok onLogUpdate).
Proof. intros w w' o. rewrite addLogEntry_run. intros [= <- _]. reflexivity. Qed.

Lemma keeps_steps channel cn n todo :
  forall i, keeps_dice (steps channel vendor problemSummary cn
                              onAttemptUpdate onLogUpdate n todo i).
Proof.
  induction todo as [|raw rest IH]; intros i; cbn [steps].
  - apply keeps_ret.
  - apply keeps_bind; [apply keeps_call_attempt|intros _].
    apply keeps_bind.
    { destruct (i =? n - 1)%nat; [|apply keeps_ret].
      apply keeps_bind; [apply keeps_Math_random|intros d; apply keeps_ret]. }
    intros stepSuccess.
    apply keeps_bind; [apply keeps_addLogEntry|intros _].
    apply keeps_bind; [apply keeps_Math_random|intros pause].
    apply keeps_bind; [apply keeps_sleep|intros _].
    destruct (negb stepSuccess && _); [apply keeps_ret|apply IH].
Qed.

Lemma keeps_attempt_channel channel :
  keeps_dice (attempt_channel channel vendor problemSummary
                              onAttemptUpdate onLogUpdate).
Proof.
  unfold attempt_channel, simulateChannel, generateConfirmationNumber.
  apply keeps_bind.
  - apply keeps_bind.
    + apply keeps_bind; [apply keeps_Math_random|intros d; apply keeps_ret].
    + intros cn. apply keeps_bind; [apply keeps_steps|].
      intros [r|]; [apply keeps_ret|].
      apply keeps_bind; [|intros s; apply keeps_ret].
      intros w w' o [= <- _]. reflexivity.
  - intros result. destruct (success result).
    + apply keeps_bind; [|intros l; apply keeps_ret].
      intros w w' o [= <- _]. reflexivity.
    + apply keeps_bind; [apply keeps_call_attempt|intros _].
      apply keeps_bind; [apply keeps_sleep|intros _; apply keeps_ret].
Qed.

(** When no random number passes a final-step roll, every channel fails or
    throws; with callbacks that return from the notice before the [try]
    block and from the entries of the [catch] block, the loop runs to its
    end and returns nothing. *)
Lemma channel_loop_exhausts todo :
  (forall c, onAttemptUpdate (notice c) = None) ->
  (forall e, le_action e = "error" -> onLogUpdate e = None) ->
  forall w,
    (forall c p, roll vendor (entropy w) c p = false) ->
    exists w',
      channel_loop vendor problemSummary onAttemptUpdate onLogUpdate todo w
        = (w', Ok None).
Proof.
  intros HA HL. induction todo as [|channel rest IH]; intros w Hdice;
    cbn [channel_loop].
  - eexists. reflexivity.
  - unfold bind at 1. unfold call_attempt at 1.
    fold (notice channel). rewrite HA. cbn [outcome_of].
    set (w1 := set_journal _ w).
    unfold bind at 1. unfold try_catch.
    destruct (attempt_channel channel vendor problemSummary
                              onAttemptUpdate onLogUpdate w1)
      as [w2 [res|e]] eqn:Hatt.
    + pose proof (keeps_attempt_channel channel _ _ _ Hatt) as E2.
      apply attempt_channel_inv in Hatt as [_ Hres].
      change (entropy w1) with (entropy w) in *.
      rewrite Hdice in Hres. subst res.
      apply IH. intros c p. rewrite E2. apply Hdice.
    + pose proof (keeps_attempt_channel channel _ _ _ Hatt) as E2.
      change (entropy w1) with (entropy w) in E2.
      unfold on_error. unfold bind at 1. rewrite addLogEntry_run.
      rewrite HL by reflexivity. cbn [outcome_of ret].
      apply IH. intros c p. cbn. rewrite E2. apply Hdice.
Qed.

Lemma simulateBooking_exhausts w :
  (forall c, onAttemptUpdate (notice c) = None) ->
  (forall e, le_action e = "error" -> onLogUpdate e = None) ->
  (forall c p, roll vendor (entropy w) c p = false) ->
  exists w' r,
    simulateBooking vendor problemSummary onAttemptUpdate onLogUpdate w = (w', Ok r) /\
    br_status r = booking_failed /\
    head (channels_of vendor) = Some (br_channel r) /\
    br_notes r = fallback_notes.
Proof.
  intros HA HL Hdice. unfold simulateBooking. unfold bind at 1.
  destruct (channel_loop_exhausts (channels_of vendor) HA HL
              (set_booking_log [] w) Hdice) as (w1 & Hloop).
  rewrite (bind_ok _ _ _ _ _ Hloop).
  eexists _, _. split; [reflexivity|]. cbn.
  rewrite head_channels_of. repeat split.
Qed.

(** With callbacks that return, nothing throws. *)
Hypothesis quietA : returns_normally onAttemptUpdate.
Hypothesis quietL : returns_normally onLogUpdate.

Lemma total_call_attempt m : total (call_attempt onAttemptUpdate m).
Proof. intros w. unfold call_attempt. rewrite quietA. now eexists _, _. Qed.

Lemma total_addLogEntry c a m ok : total (addLogEntry c a m ok onLogUpdate).
Proof. intros w. rewrite addLogEntry_run, quietL. now eexists _, _. Qed.

Lemma total_steps channel cn n todo :
  forall i, total (steps channel vendor problemSummary cn
                         onAttemptUpdate onLogUpdate n todo i).
Proof.
  induction todo as [|raw rest IH]; intros i; cbn [steps].
  - apply total_ret.
  - apply total_bind; [apply total_call_attempt|intros _].
    apply total_bind.
    { destruct (i =? n - 1)%nat; [|apply total_ret].
      apply total_bind; [apply total_Math_random|intros d; apply total_ret]. }
    intros stepSuccess.
    apply total_bind; [apply total_addLogEntry|intros _].
    apply total_bind; [apply total_Math_random|intros pause].
    apply total_bind; [apply total_sleep|intros _].
    destruct (negb stepSuccess && _); [apply total_ret|apply IH].
Qed.

Lemma total_attempt_channel channel :
  total (attempt_channel channel vendor problemSummary onAttemptUpdate onLogUpdate).
Proof.
  unfold attempt_channel, simulateChannel, generateConfirmationNumber.
  apply total_bind.
  - apply total_bind.
    + apply total_bind; [apply total_Math_random|intros d; apply total_ret].
    + intros cn. apply total_bind; [apply total_steps|].
      intros [r|]; [apply total_ret|].
      apply total_bind; [|intros s; apply total_ret].
      intros w. unfold generateAppointmentTime. now eexists _, _.
  - intros result. destruct (success result).
    + apply total_bind; [|intros l; apply total_ret]. intros w. now eexists _, _.
    + apply total_bind; [apply total_call_attempt|intros _].
      apply total_bind; [apply total_sleep|intros _; apply total_ret].
Qed.

(** With callbacks that return, the loop returns through the first channel
    whose final-step roll succeeds, and returns nothing when none does. *)
Lemma channel_loop_quiet todo :
  forall w, exists w' res,
    channel_loop vendor problemSummary onAttemptUpdate onLogUpdate todo w
      = (w', Ok res) /\
    match first_success vendor (entropy w) todo (cursor w) with
    | Some c => exists r, res = Some r /\ confirmed_by c r
    | None => res = None
    end.
Proof.
  induction todo as [|channel rest IH]; intros w; cbn [channel_loop].
  - eexists _, _. split; reflexivity.
  - destruct (total_call_attempt (notice channel) w) as (w1 & [] & H1).
    unfold notice in H1. rewrite (bind_ok _ _ _ _ _ H1).
    apply call_attempt_inv in H1 as [_ [E1 C1]].
    destruct (total_attempt_channel channel w1) as (w2 & res & H2).
    rewrite (bind_ok _ _ _ _ _ (try_catch_ok _ _ _ _ _ H2)).
    apply attempt_channel_inv in H2 as [[E2 C2] Hres].
    unfold first_success. cbn [final_rolls List.find fst snd].
    rewrite E1, C1 in Hres. cbn [Nat.add] in Hres.
    destruct (roll vendor (entropy w) channel _).
    + destruct Hres as (r & -> & Hr). eexists _, _. split; [reflexivity|]. eauto.
    + subst res. destruct (IH w2) as (w3 & res & H3 & Hfirst).
      exists w3, res. split; [exact H3|].
      unfold first_success in Hfirst.
      replace (entropy w2) with (entropy w) in Hfirst by congruence.
      replace (cursor w2) with (cursor w + length (scripts_of channel) + 2)%nat
        in Hfirst by lia.
      exact Hfirst.
Qed.

Lemma simulateBooking_quiet w :
  exists w' r,
    simulateBooking vendor problemSummary onAttemptUpdate onLogUpdate w = (w', Ok r) /\
    match first_success vendor (entropy w) (channels_of vendor) (cursor w) with
    | Some c => confirmed_by c r
    | None => br_status r = booking_failed /\
              head (channels_of vendor) = Some (br_channel r) /\
              br_notes r = fallback_notes /\
              scheduledStartISO r = None /\ confirmationNumber r = None
    end.
Proof.
  unfold simulateBooking. unfold bind at 1.
  destruct (channel_loop_quiet (channels_of vendor) (set_booking_log [] w))
    as (w1 & res & Hloop & Hfirst).
  rewrite (bind_ok _ _ _ _ _ Hloop). cbn [entropy cursor set_booking_log] in Hfirst.
  destruct (first_success _ _ _ _).
  - destruct Hfirst as (r & -> & Hr). eexists _, _. split; [reflexivity|exact Hr].
  - subst res. eexists _, _. split; [reflexivity|]. cbn.
    rewrite head_channels_of. repeat split.
Qed.

End BookingFacts.

Lemma find_none_of_Forall {A} (f : A -> bool) (l : list A) :
  Forall (fun x => f x = false) l -> List.find f l = None.
Proof.
  induction 1 as [|x l Hx _ IH]; [reflexivity|]. cbn. now rewrite Hx.
Qed.



(** C3.  A run of [simulateBooking] that returns a result with the status
    [confirmed] returns it with [scheduledStartISO] and [confirmationNumber]
    set: present and not empty. *)
Theorem confirmed_booking_has_time_and_number
    (vendor : VendorData) (problemSummary : ProblemSummary)
    (onAttemptUpdate : Booking.AttemptCallback) (onLogUpdate : Booking.LogCallback)
    (w w' : World) (r : BookingResult) :
  Booking.simulateBooking vendor problemSummary onAttemptUpdate onLogUpdate w
    = (w', Ok r) ->
  br_status r = confirmed ->
  has_value (scheduledStartISO r) /\ has_value (confirmationNumber r).
Proof.
  intros Hrun Hconfirmed.
  apply simulateBooking_inv in Hrun as [(c & _ & _ & _ & Ht & Hn)|(Hfailed & _)].
  - split; assumption.
  - congruence.
Qed.

Lemma confirmed_booking_witness :
  exists w' r,
    Booking.simulateBooking Samples.acme Samples.ac_problem quiet quiet
      (Samples.world (fun _ => Samples.bottom)) = (w', Ok r) /\
    br_status r = confirmed /\
    has_value (scheduledStartISO r) /\ has_value (confirmationNumber r).
Proof.
  eexists _, _. split; [vm_compute; reflexivity|].
  split; [reflexivity|].
  eapply (confirmed_booking_has_time_and_number Samples.acme Samples.ac_problem
            quiet quiet (Samples.world (fun _ => Samples.bottom))).
  - vm_compute. reflexivity.
  - reflexivity.
Defined.

(** C5 as the specification states it fails: with an [onLogUpdate] that
    throws, the exception raised inside the phone attempt (at the log entry
    of its first step) is caught and the handler pushes its entry, but the
    handler's own call of [onLogUpdate] throws again, outside the [try]
    block: [simulateBooking] throws, and web chat is never attempted. *)
Lemma booking_handler_rethrows :
  let run := Booking.simulateBooking Samples.acme Samples.ac_problem quiet
               (Samples.always_throws "Error: no UI")
               (Samples.world (fun _ => Samples.top)) in
  snd run = Throw "Error: no UI" /\
  map le_action (booking_log (fst run)) = ["step_1"; "error"] /\
  map le_success (booking_log (fst run)) = [true; false] /\
  ~ In (AttemptUpdate (notice b_web_chat)) (journal (fst run)).
Proof.
  vm_compute. repeat split.
  intros [H|[H|[H|[H|[]]]]]; discriminate H.
Qed.

(** C5, amended.  With callbacks that return, for every vendor and every
    sequence of random numbers in which the final-step roll of every channel
    of the list fails, [simulateBooking] returns a result with the status
    [failed], the first channel of the list as its channel and the fixed
    fallback notes.  An exception raised inside the [try] block of a channel
    is caught and logged as an entry with [success = false]; the loop goes on
    with the next channel when [onLogUpdate] returns from the call that
    reports that entry.  So, with callbacks that return from the notice that
    precedes each [try] block and from the entries of the [catch] block, and
    random numbers none of which passes a roll, [simulateBooking] returns the
    [failed] result whatever the callbacks throw inside the channel
    attempts. *)
Theorem booking_exhaustion_and_recovery
    (vendor : VendorData) (problemSummary : ProblemSummary)
    (onAttemptUpdate : Booking.AttemptCallback) (onLogUpdate : Booking.LogCallback) :
  (forall w,
     returns_normally onAttemptUpdate -> returns_normally onLogUpdate ->
     Forall (fun cp => roll vendor (entropy w) (fst cp) (snd cp) = false)
            (final_rolls (Booking.channels_of vendor) (cursor w)) ->
     exists w' r,
       Booking.simulateBooking vendor problemSummary onAttemptUpdate onLogUpdate w
         = (w', Ok r) /\
       br_status r = booking_failed /\
       head (Booking.channels_of vendor) = Some (br_channel r) /\
       br_notes r = Booking.fallback_notes) /\
  (forall channel rest w w0 w1 error,
     Booking.call_attempt onAttemptUpdate (notice channel) w = (w0, Ok tt) ->
     Booking.attempt_channel channel vendor problemSummary
                             onAttemptUpdate onLogUpdate w0 = (w1, Throw error) ->
     let entry := error_entry channel error w1 in
     le_success entry = false /\
     booking_log (logged entry w1) = (booking_log w1 ++ [entry])%list /\
     (onLogUpdate entry = None ->
      Booking.channel_loop vendor problemSummary onAttemptUpdate onLogUpdate
                           (channel :: rest) w
      = Booking.channel_loop vendor problemSummary onAttemptUpdate onLogUpdate
                             rest (logged entry w1))) /\
  (forall w,
     (forall c, onAttemptUpdate (notice c) = None) ->
     (forall e, le_action e = "error" -> onLogUpdate e = None) ->
     (forall c p, roll vendor (entropy w) c p = false) ->
     exists w' r,
       Booking.simulateBooking vendor problemSummary onAttemptUpdate onLogUpdate w
         = (w', Ok r) /\
       br_status r = booking_failed /\
       head (Booking.channels_of vendor) = Some (br_channel r) /\
       br_notes r = Booking.fallback_notes).
Proof.
  split; [|split].
  - intros w HA HL Hrolls.
    destruct (simulateBooking_quiet vendor problemSummary _ _ HA HL w)
      as (w' & r & Hrun & Hfirst).
    unfold first_success in Hfirst.
    rewrite (find_none_of_Forall _ _ Hrolls) in Hfirst.
    destruct Hfirst as (Hs & Hc & Hn & _). exists w', r. repeat split; assumption.
  - intros channel rest w w0 w1 error Hnote Hthrow entry.
    split; [reflexivity|]. split; [reflexivity|]. intros Hquiet.
    now apply channel_loop_catch with (w0 := w0).
  - intros w HA HL Hdice. now apply simulateBooking_exhausts.
Qed.

Lemma booking_exhaustion_and_recovery_witness :
  let w := Samples.world (fun _ => Samples.top) in
  let w0 := fst (Booking.call_attempt Samples.throws_on_phone_steps
                   (notice b_phone) w) in
  (exists w' r,
     Booking.simulateBooking Samples.acme Samples.ac_problem quiet quiet w
       = (w', Ok r) /\
     br_status r = booking_failed /\
     head (Booking.channels_of Samples.acme) = Some (br_channel r) /\
     br_notes r = Booking.fallback_notes) /\
  (exists w1 error,
     Booking.attempt_channel b_phone Samples.acme Samples.ac_problem
       Samples.throws_on_phone_steps quiet w0 = (w1, Throw error) /\
     Booking.channel_loop Samples.acme Samples.ac_problem
       Samples.throws_on_phone_steps quiet [b_phone; b_sms] w
     = Booking.channel_loop Samples.acme Samples.ac_problem
         Samples.throws_on_phone_steps quiet [b_sms]
         (logged (error_entry b_phone error w1) w1)) /\
  (exists w' r,
     Booking.simulateBooking Samples.acme Samples.ac_problem
       Samples.throws_on_phone_steps quiet w = (w', Ok r) /\
     br_status r = booking_failed /\
     head (Booking.channels_of Samples.acme) = Some (br_channel r) /\
     br_notes r = Booking.fallback_notes).
Proof.
  intros w w0. split; [|split].
  - apply (proj1 (booking_exhaustion_and_recovery
                    Samples.acme Samples.ac_problem quiet quiet)).
    + intros m. reflexivity.
    + intros e. reflexivity.
    + repeat constructor.
  - eexists _, _. split; [vm_compute; reflexivity|].
    refine (proj2 (proj2 (proj1 (proj2 (booking_exhaustion_and_recovery
                      Samples.acme Samples.ac_problem
                      Samples.throws_on_phone_steps quiet))
                    b_phone [b_sms] w w0 _ _ _ _)) eq_refl).
    + reflexivity.
    + vm_compute. reflexivity.
  - apply (proj2 (proj2 (booking_exhaustion_and_recovery
                    Samples.acme Samples.ac_problem
                    Samples.throws_on_phone_steps quiet))).
    + intros c. destruct c; reflexivity.
    + intros e _. reflexivity.
    + intros c p. destruct c; reflexivity.
Defined.

(** A run that recovers: the callback throws during the phone call, the
    handler logs the error, and the booking is confirmed by web chat. *)
Example booking_recovers_from_phone_exception :
  let run := Booking.simulateBooking Samples.acme Samples.ac_problem
               Samples.throws_on_phone_steps quiet
               (Samples.world (fun _ => Samples.bottom)) in
  exists r, snd run = Ok r /\ br_status r = confirmed /\ br_channel r = b_web_chat /\
            map (fun e => (le_channel e, le_action e, le_success e)) (br_log r)
            = [("phone", "error", false);
               ("web_chat", "step_1", true); ("web_chat", "step_2", true);
               ("web_chat", "step_3", true); ("web_chat", "step_4", true);
               ("web_chat", "step_5", true)].
Proof. vm_compute. eexists. repeat split. Qed.

(** C9.  The channel of a confirmed result can be [sms], which is not one of
    the three channels that the type [BookingResult] declares: a vendor with
    [hasSms = true], callbacks that return, and random numbers with which the
    final-step rolls of phone, web chat and WhatsApp fail and that of SMS
    succeeds. *)
Theorem booking_result_channel_can_be_sms :
  exists vendor problemSummary w w' r,
    hasSms vendor = Some true /\
    map (fun cp => (fst cp, roll vendor (entropy w) (fst cp) (snd cp)))
        (final_rolls (Booking.channels_of vendor) (cursor w))
    = [(b_phone, false); (b_web_chat, false); (b_whatsapp, false); (b_sms, true)] /\
    Booking.simulateBooking vendor problemSummary quiet quiet w = (w', Ok r) /\
    br_status r = confirmed /\
    br_channel r = b_sms /\
    ~ In (br_channel r) declared_result_channels.
Proof.
  exists Samples.acme, Samples.ac_problem, Samples.sms_world.
  destruct (simulateBooking_quiet Samples.acme Samples.ac_problem quiet quiet
              (fun _ => eq_refl) (fun _ => eq_refl) Samples.sms_world)
    as (w' & r & Hrun & Hfirst).
  exists w', r.
  replace (first_success _ _ _ _) with (Some b_sms) in Hfirst
    by (vm_compute; reflexivity).
  destruct Hfirst as (Hs & Hc & _).
  split; [reflexivity|]. split; [vm_compute; reflexivity|].
  split; [exact Hrun|]. split; [exact Hs|]. split; [exact Hc|].
  rewrite Hc. intros [H|[H|[H|[]]]]; discriminate H.
Qed.

(** ** The mock directory *)



(** ** The outreach simulator *)

Section OutreachFacts.

Import Outreach.

(** [Math.floor(Math.random() * ETA_PATTERNS.length)] is an index of the
    table. *)
Lemma pick_in_range (d : Draw) :
  (Z.to_nat (Math_floor (value d * inject_Z (Z.of_nat (length ETA_PATTERNS))))
   < length ETA_PATTERNS)%nat.
Proof.
  unfold Math_floor, value, Qfloor, Qmult, inject_Z. cbn [Qnum Qden length ETA_PATTERNS].
  pose proof (Z.mod_pos_bound (mantissa d) two53 eq_refl) as [Hlo Hhi].
  set (m := (mantissa d mod two53)%Z) in *.
  change (Z.of_nat 6) with 6%Z.
  replace (Z.pos (Z.to_pos two53 * 1)) with two53 by reflexivity.
  assert (0 <= m * 6 / two53 < 6)%Z.
  { split; [apply Z.div_pos; [lia|reflexivity]|].
    apply Z.div_lt_upper_bound; [reflexivity|lia]. }
  lia.
Qed.

Lemma eta_patterns_nonempty e fee : In (e, fee) ETA_PATTERNS -> e <> "".
Proof.
  cbn. intros H. repeat destruct H as [[= <- <-]|H]; try discriminate. destruct H.
Qed.

(** A write through [attemptLog] reaches the attempt pushed last. *)
Lemma write_attempt_last L a f v :
  write_attempt (length L) f (set_outreachLog (L ++ [a])%list v)
  = set_outreachLog (L ++ [f a])%list v.
Proof.
  unfold write_attempt, set_outreachLog.
  cbn [outreachLog id name rating reviewCount v_phone website address distance
       v_category hasWebChat hasWhatsApp hasSms eta serviceFee outreachStatus source].
  f_equal. rewrite <- (Nat.add_0_r (length L)). now rewrite alter_app_r.
Qed.

Lemma status_history_app p l1 l2 :
  status_history p (l1 ++ l2) = (status_history p l1 ++ status_history p l2)%list.
Proof. apply omap_app. Qed.

(** Once the log extends [L ++ [a]], the slot [length L] shows [a]. *)
Lemma status_history_settled L a p ups :
  p = length L ->
  Forall (fun u => (L ++ [a])%list `prefix_of` outreachLog u) ups ->
  status_history p ups = replicate (length ups) (oa_status a).
Proof.
  intros ->. induction 1 as [|u ups [k Hu] _ IH]; [reflexivity|].
  cbn. rewrite Hu, <- app_assoc. cbn.
  rewrite list_lookup_middle by reflexivity. cbn. f_equal. exact IH.
Qed.

Lemma status_history_beyond p ups :
  Forall (fun u => (length (outreachLog u) <= p)%nat) ups ->
  status_history p ups = [].
Proof.
  induction 1 as [|u ups Hu _ IH]; [reflexivity|].
  cbn. rewrite (lookup_ge_None_2 _ _ Hu). cbn. exact IH.
Qed.

Variables (cfg : SimulationConfig) (delays : list Z) (ps : ProblemSummary).

(** One round: three calls of the callback, on the attempt [sent], then
    [delivered], then either [failed] (and the loop goes on) or [replied]
    with a quote of the table (and the function returns). *)
Lemma round_spec attempt cv w :
  exists channel w' step final,
    CHANNELS !! (attempt mod length CHANNELS)%nat = Some channel /\
    round cfg delays ps attempt cv w = (w', Ok step) /\
    let a := first_attempt delays ps attempt channel w in
    let snap s := set_outreachLog (outreachLog cv ++ [set_status s a])%list cv in
    journal w' = (journal w ++ [VendorUpdate (snap sent); VendorUpdate (snap delivered);
                               VendorUpdate final])%list /\
    ((step = Continue final /\ final = snap attempt_failed) \/
     (step = Return final /\
      exists e fee r, In (e, fee) ETA_PATTERNS /\
        final = set_outreachStatus completed
                  (set_quote e fee
                     (set_outreachLog
                        (outreachLog cv ++ [set_response r (set_status replied a)])%list
                        cv)))).
Proof.
  assert (Hlt : (attempt mod length CHANNELS < length CHANNELS)%nat)
    by (apply Nat.mod_upper_bound; discriminate).
  destruct (lookup_lt_is_Some_2 _ _ Hlt) as [channel Hch].
  exists channel.
  unfold round. unfold element at 1. rewrite Hch.
  cbn [bind ret sleep timestamp_now onUpdate Math_random set_now set_journal
       set_cursor entropy cursor now journal utcOffset booking_log].
  fold (first_attempt delays ps attempt channel w).
  rewrite !write_attempt_last.
  destruct (Qltb _ _).
  - destruct (lookup_lt_is_Some_2 _ _ (pick_in_range (entropy w (cursor w + 1))))
      as [[e fee] Hpick].
    cbn [bind ret sleep timestamp_now onUpdate Math_random set_now set_journal
         set_cursor entropy cursor now journal utcOffset booking_log].
    replace (S (cursor w)) with (cursor w + 1)%nat by lia.
    unfold element. rewrite Hpick.
    cbn [bind ret sleep timestamp_now onUpdate Math_random set_now set_journal
         set_cursor entropy cursor now journal utcOffset booking_log fst snd].
    rewrite !write_attempt_last.
    eexists _, _, _. split; [reflexivity|]. split; [reflexivity|].
    cbn zeta. split.
    + rewrite <- !app_assoc. reflexivity.
    + right. split; [reflexivity|]. eexists e, fee, _.
      split; [|reflexivity]. apply list_elem_of_In. eapply list_elem_of_lookup_2, Hpick.
  - cbn [bind ret sleep timestamp_now onUpdate Math_random set_now set_journal
         set_cursor entropy cursor now journal utcOffset booking_log].
    eexists _, _, _. split; [reflexivity|]. split; [reflexivity|].
    cbn zeta. split.
    + rewrite <- !app_assoc. reflexivity.
    + left. split; reflexivity.
Qed.

(** The loop from round [attempt] on, with [remaining] rounds to go. *)
Lemma rounds_spec remaining :
  forall attempt cv w,
  exists w' v' news ups,
    rounds cfg delays ps remaining attempt cv w = (w', Ok v') /\
    journal w' = (journal w ++ map VendorUpdate ups)%list /\
    outreachLog v' = (outreachLog cv ++ news)%list /\
    last ups = Some v' /\
    Forall (fun u => outreachLog cv `prefix_of` outreachLog u) ups /\
    (forall i a, news !! i = Some a ->
       CHANNELS !! ((attempt + i) mod length CHANNELS)%nat = Some (oa_channel a) /\
       (oa_status a = replied \/ oa_status a = attempt_failed) /\
       exists m, status_history (length (outreachLog cv) + i) ups
                 = sent :: delivered :: replicate (S m) (oa_status a)) /\
    ((exists fs a, news = (fs ++ [a])%list /\ all_failed fs /\
                   oa_status a = replied /\ outreachStatus v' = completed /\
                   (length news <= remaining)%nat) \/
     (all_failed news /\ outreachStatus v' = failed /\ length news = remaining)) /\
    (outreachStatus cv <> completed ->
     Forall (fun u => outreachStatus u = completed -> quote_set u) ups).
Proof.
  induction remaining as [|remaining IH]; intros attempt cv w; cbn [rounds].
  - cbn [bind ret onUpdate].
    exists (set_journal (journal w ++ [VendorUpdate (set_outreachStatus failed cv)]) w),
           (set_outreachStatus failed cv), [], [set_outreachStatus failed cv].
    split; [reflexivity|]. split; [reflexivity|].
    split; [cbn; now rewrite app_nil_r|]. split; [reflexivity|].
    split; [constructor; [cbn; reflexivity|constructor]|].
    split; [intros i a; rewrite lookup_nil; discriminate|].
    split; [right; repeat split; constructor|].
    intros _. constructor; [cbn; discriminate|constructor].
  - destruct (round_spec attempt cv w)
      as (channel & w1 & step & final & Hch & Hround & Hjournal & Hstep).
    cbn zeta in Hjournal, Hstep.
    set (a := first_attempt delays ps attempt channel w) in *.
    set (L := outreachLog cv) in *.
    rewrite (bind_ok _ _ _ _ _ Hround).
    destruct Hstep as [[-> ->]|[-> (e & fee & r & Hin & ->)]].
    + (* the round failed: the loop goes on *)
      set (cv' := set_outreachLog (L ++ [set_status attempt_failed a]) cv).
      destruct (IH (S attempt) cv' w1)
        as (w' & v' & news & ups & Hrun & Hj & Hlog & Hlast & Hpre & Hatt & Hout & Hq).
      exists w', v', (set_status attempt_failed a :: news),
        ([set_outreachLog (L ++ [set_status sent a]) cv;
          set_outreachLog (L ++ [set_status delivered a]) cv; cv'] ++ ups)%list.
      split; [exact Hrun|].
      split; [rewrite Hj, Hjournal, map_app, <- !app_assoc; reflexivity|].
      split; [rewrite Hlog; cbn; now rewrite <- app_assoc|].
      split.
      { destruct ups as [|u ups]; [discriminate|]. exact Hlast. }
      split.
      { repeat (constructor; [eexists; reflexivity|]).
        eapply Forall_impl; [exact Hpre|]. intros u [k ->]. cbn.
        rewrite <- app_assoc. eexists; reflexivity. }
      split.
      { intros [|i] x Hx.
        - injection Hx as <-. split; [now rewrite Nat.add_0_r|].
          split; [now right|].
          exists (length ups). rewrite status_history_app.
          rewrite (status_history_settled L (set_status attempt_failed a) _ ups)
            by (first [lia | exact Hpre]).
          cbn. unfold L. rewrite !list_lookup_middle by lia. reflexivity.
        - cbn in Hx. destruct (Hatt i x Hx) as (Hc & Hfinal & m & Hm).
          split; [now replace (attempt + S i)%nat with (S attempt + i)%nat by lia|].
          split; [exact Hfinal|].
          exists m. rewrite status_history_app.
          rewrite status_history_beyond
            by (repeat constructor; cbn; rewrite length_app; cbn; lia).
          cbn [app]. rewrite <- Hm. f_equal. cbn. rewrite length_app. cbn. lia. }
      split.
      { destruct Hout as [(fs & x & -> & Hfs & Hx & Hs & Hlen)|(Hall & Hs & Hlen)].
        - left. exists (set_status attempt_failed a :: fs), x.
          split; [reflexivity|]. split; [constructor; [reflexivity|exact Hfs]|].
          split; [exact Hx|]. split; [exact Hs|]. cbn in *. lia.
        - right. split; [constructor; [reflexivity|exact Hall]|].
          split; [exact Hs|]. cbn. lia. }
      intros Hcv. repeat (constructor; [cbn; intros; congruence|]).
      apply Hq. exact Hcv.
    + (* the round succeeded: the run is over *)
      set (a' := set_response r (set_status replied a)).
      set (final := set_outreachStatus completed
                      (set_quote e fee (set_outreachLog (L ++ [a']) cv))).
      exists w1, final, [a'],
        [set_outreachLog (L ++ [set_status sent a]) cv;
         set_outreachLog (L ++ [set_status delivered a]) cv; final].
      split; [reflexivity|]. split; [exact Hjournal|].
      split; [reflexivity|]. split; [reflexivity|].
      split; [repeat (constructor; [eexists; reflexivity|]); constructor|].
      split.
      { intros [|i] x Hx; [|destruct i; discriminate].
        injection Hx as <-. split; [now rewrite Nat.add_0_r|].
        split; [now left|].
        exists 0%nat. cbn. unfold L. rewrite !list_lookup_middle by lia. reflexivity. }
      split.
      { left. exists [], a'. split; [reflexivity|]. split; [constructor|].
        split; [reflexivity|]. split; [reflexivity|]. cbn. lia. }
      intros Hcv. repeat (constructor; [cbn; intros; congruence|]).
      constructor; [|constructor]. intros _. split.
      * exists e. split; [reflexivity|]. eapply eta_patterns_nonempty, Hin.
      * exists fee. reflexivity.
Qed.

End OutreachFacts.

(** The whole run, from the first call of the callback on. *)
Lemma simulateOutreach_spec vendor problemSummary config w :
  let cfg := Outreach.merge config in
  exists w' v' news ups,
    Outreach.simulateOutreach vendor problemSummary config w = (w', Ok v') /\
    journal w' = (journal w ++ map VendorUpdate ups)%list /\
    outreachLog v' = (outreachLog vendor ++ news)%list /\
    last ups = Some v' /\
    (forall i a, news !! i = Some a ->
       Outreach.CHANNELS !! (i mod 4)%nat = Some (oa_channel a) /\
       (oa_status a = replied \/ oa_status a = attempt_failed) /\
       exists m, status_history (length (outreachLog vendor) + i) ups
                 = sent :: delivered :: replicate (S m) (oa_status a)) /\
    ((exists fs a, news = (fs ++ [a])%list /\ all_failed fs /\
                   oa_status a = replied /\ outreachStatus v' = completed /\
                   (length news <= Z.to_nat (maxAttempts cfg))%nat) \/
     (all_failed news /\ outreachStatus v' = failed /\
      length news = Z.to_nat (maxAttempts cfg))) /\
    Forall (fun u => outreachStatus u = completed -> quote_set u) ups.
Proof.
  intros cfg. unfold Outreach.simulateOutreach. fold cfg.
  set (cv := Outreach.set_outreachStatus in_progress vendor).
  set (delays := if fastDemo cfg then _ else _).
  cbn [bind Outreach.onUpdate].
  destruct (rounds_spec cfg delays problemSummary (Z.to_nat (maxAttempts cfg)) 0 cv
              (set_journal (journal w ++ [VendorUpdate cv]) w))
    as (w' & v' & news & ups & Hrun & Hj & Hlog & Hlast & Hpre & Hatt & Hout & Hq).
  exists w', v', news, (cv :: ups).
  split; [exact Hrun|].
  split; [rewrite Hj; cbn; now rewrite <- app_assoc|].
  split; [exact Hlog|].
  split; [destruct ups; [discriminate|exact Hlast]|].
  split.
  { intros i a Hia. destruct (Hatt i a Hia) as (Hc & Hfinal & m & Hm).
    split; [exact Hc|]. split; [exact Hfinal|]. exists m.
    change (cv :: ups) with ([cv] ++ ups)%list. rewrite status_history_app.
    rewrite status_history_beyond by (repeat constructor; cbn; lia).
    exact Hm. }
  split; [exact Hout|].
  constructor; [cbn; discriminate|]. apply Hq. cbn. discriminate.
Qed.

(** C1.  From every vendor, problem summary and configuration,
    [simulateOutreach] returns.  It runs at most [maxAttempts] rounds, 3 by
    default (none when [maxAttempts] is not positive); every round appends
    one attempt to [outreachLog], so the rounds are counted by the attempts
    appended, and the attempt of round [i] (from 0) uses the channel number
    [i mod 4] of [sms, whatsapp, phone, email].  In the successive calls of
    the callback the status of each appended attempt is [sent], then
    [delivered], then, for good, [replied] or [failed].  A [replied] attempt
    is the last one: earlier ones have failed, the run ends there and
    [outreachStatus] is [completed]; otherwise every round has failed, all
    [maxAttempts] rounds have run and [outreachStatus] is [failed]. *)
Theorem simulateOutreach_rounds
    (vendor : VendorData) (problemSummary : ProblemSummary)
    (config : PartialConfig) (w : World) :
  let limit := maxAttempts (Outreach.merge config) in
  exists w' v' news ups,
    Outreach.simulateOutreach vendor problemSummary config w = (w', Ok v') /\
    journal w' = (journal w ++ map VendorUpdate ups)%list /\
    limit = default 3%Z (p_maxAttempts config) /\
    (Z.of_nat (length news) <= Z.max 0 limit)%Z /\
    outreachLog v' = (outreachLog vendor ++ news)%list /\
    (forall i a, news !! i = Some a ->
       [sms; whatsapp; phone; email] !! (i mod 4)%nat = Some (oa_channel a) /\
       (oa_status a = replied \/ oa_status a = attempt_failed) /\
       exists m, status_history (length (outreachLog vendor) + i) ups
                 = sent :: delivered :: replicate (S m) (oa_status a)) /\
    ((exists fs a, news = (fs ++ [a])%list /\ all_failed fs /\
                   oa_status a = replied /\ outreachStatus v' = completed) \/
     (all_failed news /\ outreachStatus v' = failed /\
      Z.of_nat (length news) = Z.max 0 limit)).
Proof.
  intros limit.
  destruct (simulateOutreach_spec vendor problemSummary config w)
    as (w' & v' & news & ups & Hrun & Hj & Hlog & _ & Hatt & Hout & _).
  cbn zeta in Hout. fold limit in Hout.
  exists w', v', news, ups.
  split; [exact Hrun|]. split; [exact Hj|].
  split; [unfold limit; destruct config as [? ? ? ? [m|] ?]; reflexivity|].
  split.
  { destruct Hout as [(_ & _ & _ & _ & _ & _ & Hlen)|(_ & _ & Hlen)]; lia. }
  split; [exact Hlog|]. split; [exact Hatt|].
  destruct Hout as [(fs & a & E & Hfs & Ha & Hs & _)|(Hall & Hs & Hlen)].
  - left. exists fs, a. repeat split; assumption.
  - right. split; [exact Hall|]. split; [exact Hs|]. lia.
Qed.

(** C4.  In a run of [simulateOutreach], every time the callback sees the
    vendor with [outreachStatus = completed] (and so in the vendor finally
    returned, the last one it sees), [eta] is set and not empty and
    [serviceFee] is set. *)
Theorem completed_outreach_has_quote
    (vendor : VendorData) (problemSummary : ProblemSummary)
    (config : PartialConfig) (w : World) :
  exists w' v' ups,
    Outreach.simulateOutreach vendor problemSummary config w = (w', Ok v') /\
    journal w' = (journal w ++ map VendorUpdate ups)%list /\
    last ups = Some v' /\
    Forall (fun u => outreachStatus u = completed -> quote_set u) ups /\
    (outreachStatus v' = completed -> quote_set v').
Proof.
  destruct (simulateOutreach_spec vendor problemSummary config w)
    as (w' & v' & news & ups & Hrun & Hj & _ & Hlast & _ & _ & Hq).
  exists w', v', ups.
  split; [exact Hrun|]. split; [exact Hj|]. split; [exact Hlast|].
  split; [exact Hq|].
  apply last_Some in Hlast as [l ->].
  apply Forall_app in Hq as [_ Hq]. now inversion Hq.
Qed.

(** A run that completes: with random numbers 0 the first roll succeeds and
    the first entry of the table is the quote. *)
Example outreach_completes_at_once :
  let run := Outreach.simulateOutreach Samples.places_vendor Samples.ac_problem
               Samples.no_config (Samples.world (fun _ => Samples.bottom)) in
  exists v, snd run = Ok v /\ outreachStatus v = completed /\
            eta v = Some "Today 2-4 PM" /\ serviceFee v = Some 120%Z /\
            map oa_status (outreachLog v) = [replied].
Proof. vm_compute. eexists. repeat split. Qed.

(** A run in which every round fails: three attempts, on sms, whatsapp and
    phone. *)
Example outreach_fails_three_times :
  let run := Outreach.simulateOutreach Samples.places_vendor Samples.ac_problem
               Samples.no_config (Samples.world (fun _ => Samples.top)) in
  exists v, snd run = Ok v /\ outreachStatus v = failed /\
            eta v = None /\
            map oa_channel (outreachLog v) = [sms; whatsapp; phone] /\
            map oa_status (outreachLog v)
            = [attempt_failed; attempt_failed; attempt_failed].
Proof. vm_compute. eexists. repeat split. Qed.

(** A run in which the third round is the first to succeed: what the
    callback sees in the three slots, and the status of the vendor, call
    after call. *)
Example outreach_replies_in_third_round :
  let w := Samples.world (fun i => if (i =? 2)%nat then Samples.bottom
                                   else Samples.top) in
  let seen := snapshots (journal (fst (Outreach.simulateOutreach
                Samples.places_vendor Samples.ac_problem Samples.no_config w))) in
  status_history 0 seen
  = [sent; delivered; attempt_failed; attempt_failed; attempt_failed;
     attempt_failed; attempt_failed; attempt_failed; attempt_failed] /\
  status_history 1 seen
  = [sent; delivered; attempt_failed; attempt_failed; attempt_failed;
     attempt_failed] /\
  status_history 2 seen = [sent; delivered; replied] /\
  map outreachStatus seen
  = [in_progress; in_progress; in_progress; in_progress; in_progress;
     in_progress; in_progress; in_progress; in_progress; completed].
Proof. vm_compute. repeat split. Qed.

(** * Further properties *)

(** ** The ZIP lookup *)

Lemma eqb_digits_false (s name : string) :
  all_digits s = true ->
  existsb (fun c => negb (JS.is_digit c)) (list_ascii_of_string name) = true ->
  String.eqb s name = false.
Proof.
  intros Hs Hn. apply String.eqb_neq. intros ->.
  unfold all_digits in Hs.
  induction (list_ascii_of_string name) as [|c l IH]; [discriminate|].
  cbn in Hs, Hn. apply andb_prop in Hs as [Hc Hl]. rewrite Hc in Hn. cbn in Hn. auto.
Qed.

Lemma digits_not_inherited (zipCode : string) :
  all_digits zipCode = true ->
  existsb (String.eqb zipCode) Location.Object_prototype_names = false.
Proof.
  intros Hd. unfold Location.Object_prototype_names. cbn [existsb].
  rewrite !(eqb_digits_false zipCode) by (first [exact Hd | reflexivity]).
  reflexivity.
Qed.

Lemma own_property_In entries key v :
  Location.own_property entries key = Some v -> In (key, v) entries.
Proof.
  induction entries as [|[k x] rest IH]; cbn; [discriminate|].
  destruct (String.eqb_spec k key) as [->|Hne].
  - intros [= ->]. now left.
  - intros H. right. auto.
Qed.

(** X1.  For a ZIP code made of digits, [getLocationFromZip] waits 500 ms
    and then returns the code it was given with the city and the state of
    its entry in the table, or throws "Invalid ZIP code" when the table has
    no entry for it. *)
Theorem getLocationFromZip_digits (zipCode : string) (w : World) :
  all_digits zipCode = true ->
  let '(w', outcome) := Location.getLocationFromZip zipCode w in
  now w' = (now w + 500)%Z /\
  match Location.own_property Location.zipDatabase zipCode with
  | Some (city, state) =>
      In (zipCode, (city, state)) Location.zipDatabase /\
      outcome = Ok {| Location.l_zipCode := zipCode;
                      Location.l_city := Some city;
                      Location.l_state := Some state |}
  | None => outcome = Throw "Error: Invalid ZIP code"
  end.
Proof.
  intros Hd. unfold Location.getLocationFromZip, Location.property.
  rewrite (digits_not_inherited _ Hd).
  destruct (Location.own_property _ _) as [[city state]|] eqn:Hown.
  - apply own_property_In in Hown. cbn [bind sleep ret set_now now].
    repeat split. exact Hown.
  - cbn. split; reflexivity.
Qed.

Lemma getLocationFromZip_digits_witness :
  snd (Location.getLocationFromZip "94102" (Samples.world (fun _ => 0%Z)))
  = Ok {| Location.l_zipCode := "94102";
          Location.l_city := Some "San Francisco";
          Location.l_state := Some "CA" |} /\
  snd (Location.getLocationFromZip "00000" (Samples.world (fun _ => 0%Z)))
  = Throw "Error: Invalid ZIP code".
Proof.
  pose proof (getLocationFromZip_digits "94102" (Samples.world (fun _ => 0%Z)) eq_refl) as H1.
  pose proof (getLocationFromZip_digits "00000" (Samples.world (fun _ => 0%Z)) eq_refl) as H2.
  cbn in H1, H2. destruct H1 as [_ [_ H1]], H2 as [_ H2].
  split; [exact H1|exact H2].
Defined.

(** X2.  A key that the table does not have but every object inherits, such
    as "constructor", is not rejected: the result then has neither city nor
    state.  Whatever the key, a result carries the key it was asked for, and
    a city exactly when it carries a state. *)
Theorem getLocationFromZip_result (zipCode : string) (w w' : World)
    (r : Location.LocationResult) :
  Location.getLocationFromZip zipCode w = (w', Ok r) ->
  Location.l_zipCode r = zipCode /\
  ((exists city state, In (zipCode, (city, state)) Location.zipDatabase /\
      Location.l_city r = Some city /\ Location.l_state r = Some state) \/
   (In zipCode Location.Object_prototype_names /\
    Location.l_city r = None /\ Location.l_state r = None)).
Proof.
  unfold Location.getLocationFromZip, Location.property.
  destruct (Location.own_property _ _) as [[city state]|] eqn:Hown.
  - intros [= _ <-]. split; [reflexivity|]. left. exists city, state.
    split; [now apply own_property_In|split; reflexivity].
  - destruct (existsb _ _) eqn:Hin; [|discriminate].
    intros [= _ <-]. split; [reflexivity|]. right.
    apply existsb_exists in Hin as (name & Hname & Heq).
    apply String.eqb_eq in Heq as ->. repeat split. exact Hname.
Qed.

Lemma getLocationFromZip_result_witness :
  exists w' r,
    Location.getLocationFromZip "constructor" (Samples.world (fun _ => 0%Z)) = (w', Ok r) /\
    Location.l_zipCode r = "constructor" /\
    Location.l_city r = None /\ Location.l_state r = None.
Proof.
  eexists _, _. split; [vm_compute; reflexivity|].
  destruct (getLocationFromZip_result "constructor" (Samples.world (fun _ => 0%Z)) _ _ eq_refl)
    as [Hz _].
  split; [exact Hz|]. split; reflexivity.
Defined.

(** ** The classifier: urgency, summary, model number *)

Lemma urgency_loop_spec (lowerText : string) entries default_level :
  let occurs := existsb (JS.includes lowerText) in
  let chosen := Classifier.urgency_loop lowerText entries default_level in
  (chosen = default_level /\ forall e, In e entries -> occurs (snd e) = false) \/
  (exists pre keywords post,
     entries = (pre ++ (chosen, keywords) :: post)%list /\
     occurs keywords = true /\
     forall e, In e pre -> occurs (snd e) = false).
Proof.
  induction entries as [|[level keywords] rest IH]; cbn [Classifier.urgency_loop].
  - left. split; [reflexivity|]. intros e [].
  - cbn zeta in *. destruct (existsb _ keywords) eqn:Hhit.
    + right. exists [], keywords, rest. split; [reflexivity|].
      split; [exact Hhit|]. intros e [].
    + destruct IH as [[Hd Hnone]|(pre & kws & post & E & Hk & Hpre)].
      * left. split; [exact Hd|]. intros e [<-|He]; [exact Hhit|auto].
      * right. exists ((level, keywords) :: pre), kws, post.
        split; [cbn; now rewrite <- E|]. split; [exact Hk|].
        intros e [<-|He]; [exact Hhit|auto].
Qed.

(** X3.  The urgency that [analyzeProblem] returns is that of the first
    level of the table, in the order emergency, high, medium, low, one of
    whose keywords occurs in the lower-cased transcript, however many
    keywords of a later level occur; it is [medium] when no keyword of the
    table occurs. *)
Theorem analyzeProblem_urgency_by_first_hit (transcript : string) :
  let occurs := existsb (JS.includes (JS.toLowerCase transcript)) in
  let chosen := urgency (Classifier.analyzeProblem transcript) in
  map fst Classifier.URGENCY_KEYWORDS = [emergency; high; medium; low] /\
  ((chosen = medium /\
    forall e, In e Classifier.URGENCY_KEYWORDS -> occurs (snd e) = false) \/
   (exists pre keywords post,
      Classifier.URGENCY_KEYWORDS = (pre ++ (chosen, keywords) :: post)%list /\
      occurs keywords = true /\
      forall e, In e pre -> occurs (snd e) = false)).
Proof.
  split; [reflexivity|].
  exact (urgency_loop_spec (JS.toLowerCase transcript)
           Classifier.URGENCY_KEYWORDS medium).
Qed.

(** A transcript with three keywords of [low] and one of [emergency]. *)
Example one_emergency_keyword_beats_three_low :
  urgency (Classifier.analyzeProblem
             "A minor, cosmetic crack; fix it eventually, there is no fire")
  = emergency.
Proof. vm_compute. reflexivity. Qed.

Lemma rev_chars_app (a b acc : string) :
  JS.rev_chars (a ++ b) acc = JS.rev_chars b (JS.rev_chars a acc).
Proof.
  revert acc. induction a as [|c a IH]; intros acc; [reflexivity|].
  cbn. apply IH.
Qed.

Lemma endsWith_app_stop (s : string) : JS.endsWith (s ++ ".") "." = true.
Proof.
  unfold JS.endsWith. rewrite rev_chars_app. cbn.
  now destruct (JS.rev_chars s EmptyString).
Qed.

Lemma endsWith_app_dots (s : string) : JS.endsWith (s ++ "...") "." = true.
Proof.
  unfold JS.endsWith. rewrite rev_chars_app. cbn.
  now destruct (JS.rev_chars s EmptyString).
Qed.

Lemma length_app_string (a b : string) :
  String.length (a ++ b) = (String.length a + String.length b)%nat.
Proof. induction a as [|c a IH]; simpl; [reflexivity|now f_equal]. Qed.

Lemma append_empty (s : string) : s ++ EmptyString = s.
Proof.
  induction s as [|c s IH]; [reflexivity|].
  change (String c (s ++ EmptyString) = String c s). now rewrite IH.
Qed.

Lemma length_substring0 (n : nat) (s : string) :
  String.length (JS.substring0 n s) = Nat.min n (String.length s).
Proof.
  unfold JS.substring0. revert s.
  induction n as [|n IH]; intros [|c s]; cbn; try reflexivity.
  now rewrite IH.
Qed.

(** X4.  The summary that [analyzeProblem] writes is never empty, ends with
    a full stop and has at most 151 characters, whatever the transcript
    (the empty one included). *)
Theorem analyzeProblem_summary_shape (transcript : string) :
  let s := summary (Classifier.analyzeProblem transcript) in
  s <> "" /\
  JS.endsWith s "." = true /\
  (String.length s <= 151)%nat.
Proof.
  cbn [summary Classifier.analyzeProblem]. unfold Classifier.generateSummary.
  set (first := match List.filter _ _ with s :: _ => _ | [] => _ end).
  destruct (Nat.ltb_spec 150 (String.length first)) as [Hlong|Hshort].
  - assert (Hlen : String.length (JS.substring0 147 first ++ "...") = 150%nat).
    { rewrite length_app_string, length_substring0.
      change (String.length "...") with 3%nat. lia. }
    split; [intros E; rewrite E in Hlen; discriminate|].
    split; [apply endsWith_app_dots|]. lia.
  - destruct (JS.endsWith first ".") eqn:Hends.
    + rewrite append_empty. split; [intros ->; discriminate|].
      split; [exact Hends|]. lia.
    + split; [destruct first; discriminate|].
      split; [apply endsWith_app_stop|].
      rewrite length_app_string. change (String.length ".") with 1%nat.
      lia.
Qed.

Lemma take_id_chars (s : string) :
  forallb Classifier.is_id_char (list_ascii_of_string (Classifier.take_id s)) = true.
Proof.
  induction s as [|c s IH]; [reflexivity|]. cbn [Classifier.take_id].
  destruct (Classifier.is_id_char c) eqn:Hc; [|reflexivity].
  cbn. now rewrite Hc, IH.
Qed.

Lemma match_tail_chars (s g : string) :
  Classifier.match_tail s = Some g ->
  g <> "" /\ forallb Classifier.is_id_char (list_ascii_of_string g) = true.
Proof.
  unfold Classifier.match_tail.
  set (g0 := Classifier.take_id _). destruct (JS.nonempty g0) eqn:Hne; [|discriminate].
  intros [= <-]. split; [intros E; rewrite E in Hne; discriminate|].
  apply take_id_chars.
Qed.

Lemma match_word_chars (word s g : string) :
  Classifier.match_word word s = Some g ->
  g <> "" /\ forallb Classifier.is_id_char (list_ascii_of_string g) = true.
Proof.
  induction s as [|c s IH]; cbn [Classifier.match_word].
  - destruct (String.prefix word _); [|discriminate].
    destruct (Classifier.match_tail _) eqn:Ht; [|discriminate].
    intros [= <-]. eapply match_tail_chars, Ht.
  - destruct (String.prefix word _).
    + destruct (Classifier.match_tail _) eqn:Ht.
      * intros [= <-]. eapply match_tail_chars, Ht.
      * exact IH.
    + exact IH.
Qed.

(** X5.  A model or serial number in the result of [analyzeProblem] is
    never empty and holds only letters, digits and hyphens. *)
Theorem analyzeProblem_modelSerial_chars (transcript number : string) :
  modelSerial (Classifier.analyzeProblem transcript) = Some number ->
  number <> "" /\
  forallb Classifier.is_id_char (list_ascii_of_string number) = true.
Proof.
  cbn [modelSerial Classifier.analyzeProblem]. unfold JS.or_str.
  destruct (JS.truthy_str _).
  - apply match_word_chars.
  - apply match_word_chars.
Qed.

Lemma analyzeProblem_modelSerial_chars_witness :
  modelSerial (Classifier.analyzeProblem "Furnace model# XR-80 is broken")
  = Some "XR-80" /\
  "XR-80" <> "" /\
  forallb Classifier.is_id_char (list_ascii_of_string "XR-80") = true.
Proof.
  split; [reflexivity|].
  apply (analyzeProblem_modelSerial_chars "Furnace model# XR-80 is broken" "XR-80").
  reflexivity.
Defined.

(** The word after "model" is taken for the number, whatever it is. *)
Example word_after_model_is_taken :
  modelSerial (Classifier.analyzeProblem "This model is old") = Some "is" /\
  modelSerial (Classifier.analyzeProblem "Two models, serial 77") = Some "s".
Proof. vm_compute. split; reflexivity. Qed.

(** ** The booking simulator: rates, appointment time, confirmation number *)

(** X6.  Every channel on the priority list of a vendor is tried with the
    success rate 0.85: the rate 0.1 of a channel that the vendor lacks is
    that of the channels left off the list, which are never tried. *)
Theorem listed_channel_rate (vendor : VendorData) (channel : BookingChannel) :
  In channel (Booking.channels_of vendor) ->
  Booking.successRate channel vendor = 85 # 100.
Proof.
  unfold Booking.channels_of, Booking.successRate.
  destruct (hasWebChat vendor), (hasWhatsApp vendor),
    (Booking.truthy_flag (hasSms vendor)), channel; cbn;
    intros H; try reflexivity; repeat destruct H as [[=]|H]; destruct H.
Qed.

Lemma listed_channel_rate_witness :
  Booking.channels_of Samples.places_vendor = [b_phone] /\
  Booking.successRate b_phone Samples.places_vendor = 85 # 100 /\
  Booking.successRate b_sms Samples.places_vendor = 1 # 10.
Proof.
  split; [reflexivity|]. split; [|reflexivity].
  apply (listed_channel_rate Samples.places_vendor b_phone). cbn. now left.
Defined.




(** The quote "This afternoon 3-5 PM" is booked two days later at 10:00,
    and "Today 2-4 PM", asked for at 16:13 local time, two hours back. *)
Example afternoon_quote_is_booked_two_days_later :
  let w := set_now 1700000000000 (Samples.world (fun _ => 0%Z)) in
  snd (Booking.generateAppointmentTime (Some "This afternoon 3-5 PM") w)
  = Ok "2023-11-16T18:00:00.000Z" /\
  Date.toISOString (now w) = "2023-11-14T22:13:20.000Z" /\
  snd (Booking.generateAppointmentTime (Some "Today 2-4 PM")
         (set_now 1700007200000 w))
  = Ok "2023-11-14T22:00:00.000Z" /\
  Date.toISOString 1700007200000 = "2023-11-15T00:13:20.000Z".
Proof. vm_compute. repeat split. Qed.

Lemma length_map_chars (f : ascii -> ascii) (s : string) :
  String.length (JS.map_chars f s) = String.length s.
Proof. induction s as [|c s IH]; cbn; [reflexivity|now rewrite IH]. Qed.

Lemma length_substring (from len : nat) (s : string) :
  String.length (String.substring from len s)
  = Nat.min len (String.length s - from).
Proof.
  revert from len. induction s as [|c s IH]; intros [|from] [|len]; cbn;
    try reflexivity; rewrite ?IH; cbn; lia.
Qed.

Lemma upper_char_not_lower (c : ascii) : JS.is_lower (JS.upper_char c) = false.
Proof. destruct c as [[] [] [] [] [] [] [] []]; reflexivity. Qed.

Lemma toUpperCase_no_lower (s : string) : no_lower (JS.toUpperCase s) = true.
Proof.
  unfold no_lower. induction s as [|c s IH]; [reflexivity|].
  cbn [JS.toUpperCase JS.map_chars list_ascii_of_string forallb].
  rewrite upper_char_not_lower. exact IH.
Qed.

(** X8.  [generateConfirmationNumber] draws one random number and returns
    "GSP-" followed by the characters 3 to 8 of its base-36 text, in upper
    case: at most six of them, and fewer when the text is short (none for
    the text "0"). *)
Theorem confirmation_number_format (w : World) :
  let text := radix36 (entropy w (cursor w)) in
  exists code,
    Booking.generateConfirmationNumber w
      = (set_cursor (S (cursor w)) w, Ok ("GSP-" ++ code)) /\
    String.length code = Nat.min 6 (String.length text - 2) /\
    no_lower code = true /\
    JS.toLowerCase code = JS.toLowerCase (JS.substr 2 6 text).
Proof.
  intros text. eexists. split; [reflexivity|].
  split; [|split].
  - unfold JS.toUpperCase, JS.substr. now rewrite length_map_chars, length_substring.
  - apply toUpperCase_no_lower.
  - fold text. generalize (JS.substr 2 6 text). intros s.
    induction s as [|c s IH]; [reflexivity|].
    cbn [JS.toUpperCase JS.toLowerCase JS.map_chars] in *. f_equal; [|exact IH].
    destruct c as [[] [] [] [] [] [] [] []]; reflexivity.
Qed.

Example confirmation_number_of_short_texts :
  let w text := {| entropy := fun _ => {| mantissa := 0; radix36 := text |};
                   cursor := 0; now := 0; utcOffset := 0;
                   journal := []; booking_log := [] |} in
  snd (Booking.generateConfirmationNumber (w "0")) = Ok "GSP-" /\
  snd (Booking.generateConfirmationNumber (w "0.i")) = Ok "GSP-I" /\
  snd (Booking.generateConfirmationNumber (w "0.4fzyo82mvyr")) = Ok "GSP-4FZYO8".
Proof. vm_compute. repeat split. Qed.

(** ** The booking simulator: the log and the result *)

Lemma mirrors_ret {A} (a : A) : mirrors (ret a).
Proof. intros w w' o [= <- _]. exists []. now rewrite !app_nil_r. Qed.

Lemma mirrors_bind {A B} (m : Async A) (k : A -> Async B) :
  mirrors m -> (forall a, mirrors (k a)) -> mirrors (bind m k).
Proof.
  intros Hm Hk w w' o. unfold bind.
  destruct (m w) as [w1 [a|e]] eqn:E.
  - intros Hrun. destruct (Hm _ _ _ E) as (l1 & B1 & J1).
    destruct (Hk a _ _ _ Hrun) as (l2 & B2 & J2).
    exists (l1 ++ l2)%list. rewrite B2, J2, B1, J1, <- !app_assoc. now split.
  - intros [= <- _]. exact (Hm _ _ _ E).
Qed.

Lemma mirrors_try_catch {A} (m : Async A) (h : string -> Async A) :
  mirrors m -> (forall e, mirrors (h e)) -> mirrors (try_catch m h).
Proof.
  intros Hm Hh w w' o. unfold try_catch.
  destruct (m w) as [w1 [a|e]] eqn:E.
  - intros [= <- _]. exact (Hm _ _ _ E).
  - intros Hrun. destruct (Hm _ _ _ E) as (l1 & B1 & J1).
    destruct (Hh e _ _ _ Hrun) as (l2 & B2 & J2).
    exists (l1 ++ l2)%list. rewrite B2, J2, B1, J1, <- !app_assoc. now split.
Qed.

Lemma mirrors_Math_random : mirrors Math_random.
Proof. intros w w' o [= <- _]. exists []. now rewrite !app_nil_r. Qed.

Lemma mirrors_sleep ms : mirrors (sleep ms).
Proof. intros w w' o [= <- _]. exists []. now rewrite !app_nil_r. Qed.

Lemma log_updates_app j1 j2 :
  log_updates (j1 ++ j2) = (log_updates j1 ++ log_updates j2)%list.
Proof. apply omap_app. Qed.

Section BookingLog.

Import Booking.

Variables (vendor : VendorData) (problemSummary : ProblemSummary).
Variables (onAttemptUpdate : AttemptCallback) (onLogUpdate : LogCallback).

Lemma mirrors_call_attempt m : mirrors (call_attempt onAttemptUpdate m).
Proof.
  intros w w' o [= <- _]. exists []. cbn.
  rewrite log_updates_app, !app_nil_r. now split.
Qed.

Lemma mirrors_addLogEntry c a m ok : mirrors (addLogEntry c a m ok onLogUpdate).
Proof.
  intros w w' o. rewrite addLogEntry_run. intros [= <- _].
  exists [entry_at w c a m ok]. cbn. rewrite log_updates_app. now split.
Qed.

Lemma mirrors_steps channel cn n todo :
  forall i, mirrors (steps channel vendor problemSummary cn
                           onAttemptUpdate onLogUpdate n todo i).
Proof.
  induction todo as [|raw rest IH]; intros i; cbn [steps].
  - apply mirrors_ret.
  - apply mirrors_bind; [apply mirrors_call_attempt|intros _].
    apply mirrors_bind.
    { destruct (i =? n - 1)%nat; [|apply mirrors_ret].
      apply mirrors_bind; [apply mirrors_Math_random|intros d; apply mirrors_ret]. }
    intros stepSuccess.
    apply mirrors_bind; [apply mirrors_addLogEntry|intros _].
    apply mirrors_bind; [apply mirrors_Math_random|intros pause].
    apply mirrors_bind; [apply mirrors_sleep|intros _].
    destruct (negb stepSuccess && _); [apply mirrors_ret|apply IH].
Qed.

Lemma mirrors_attempt_channel channel :
  mirrors (attempt_channel channel vendor problemSummary
                           onAttemptUpdate onLogUpdate).
Proof.
  unfold attempt_channel, simulateChannel, generateConfirmationNumber.
  apply mirrors_bind.
  - apply mirrors_bind.
    + apply mirrors_bind; [apply mirrors_Math_random|intros d; apply mirrors_ret].
    + intros cn. apply mirrors_bind; [apply mirrors_steps|].
      intros [r|]; [apply mirrors_ret|].
      apply mirrors_bind; [|intros s; apply mirrors_ret].
      intros w w' o [= <- _]. exists []. now rewrite !app_nil_r.
  - intros result. destruct (success result).
    + apply mirrors_bind; [|intros l; apply mirrors_ret].
      intros w w' o [= <- _]. exists []. now rewrite !app_nil_r.
    + apply mirrors_bind; [apply mirrors_call_attempt|intros _].
      apply mirrors_bind; [apply mirrors_sleep|intros _; apply mirrors_ret].
Qed.

Lemma mirrors_channel_loop todo :
  mirrors (channel_loop vendor problemSummary onAttemptUpdate onLogUpdate todo).
Proof.
  induction todo as [|channel rest IH]; cbn [channel_loop].
  - apply mirrors_ret.
  - apply mirrors_bind; [apply mirrors_call_attempt|intros _].
    apply mirrors_bind.
    + apply mirrors_try_catch; [apply mirrors_attempt_channel|].
      intros e. unfold on_error.
      apply mirrors_bind; [apply mirrors_addLogEntry|intros _; apply mirrors_ret].
    + intros [r|]; [apply mirrors_ret|apply IH].
Qed.

(** A channel that succeeds: what its result holds. *)
Lemma simulateChannel_success channel w w' r :
  simulateChannel channel vendor problemSummary onAttemptUpdate onLogUpdate w
    = (w', Ok r) ->
  success r = true ->
  exists code s,
    generateConfirmationNumber w = (set_cursor (S (cursor w)) w, Ok code) /\
    generateAppointmentTime (eta vendor) w' = (w', Ok s) /\
    r = {| success := true;
           scheduledTime := Some s;
           cr_notes := "Successfully booked via " ++ channelName channel ++
                       ". Please be available 15 minutes before the scheduled time.";
           cr_confirmationNumber := Some code |}.
Proof.
  unfold simulateChannel. intros Hrun Hok.
  inv_bind Hrun as cn w1 H1.
  assert (Hcn : generateConfirmationNumber w = (set_cursor (S (cursor w)) w, Ok cn)).
  { revert H1. unfold generateConfirmationNumber, bind, Math_random, ret.
    intros [= <- <-]. reflexivity. }
  inv_bind Hrun as early w2 H2.
  apply steps_inv in H2 as [_ Hroll]; [|lia|destruct channel; discriminate].
  destruct (roll _ _ _ _).
  - subst early. inv_bind Hrun as s w3 H3.
    pose proof H3 as H3'. apply generateAppointmentTime_inv in H3' as [-> _].
    apply ret_inv in Hrun as [-> ->]. exists cn, s. repeat split; assumption.
  - destruct Hroll as (f & -> & Hf). apply ret_inv in Hrun as [_ ->]. congruence.
Qed.

Lemma attempt_channel_confirmed channel w w' r :
  attempt_channel channel vendor problemSummary onAttemptUpdate onLogUpdate w
    = (w', Ok (Some r)) ->
  exists code s,
    generateConfirmationNumber w = (set_cursor (S (cursor w)) w, Ok code) /\
    generateAppointmentTime (eta vendor) w' = (w', Ok s) /\
    r = {| br_status := confirmed;
           br_channel := channel;
           scheduledStartISO := Some s;
           br_notes := "Successfully booked via " ++ channelName channel ++
                       ". Please be available 15 minutes before the scheduled time.";
           br_log := booking_log w';
           confirmationNumber := Some code |}.
Proof.
  unfold attempt_channel. intros Hrun.
  inv_bind Hrun as result w1 H1.
  destruct (success result) eqn:Hok.
  - apply simulateChannel_success in H1 as (code & s & Hcode & Hs & ->); [|exact Hok].
    inv_bind Hrun as log w2 H2. injection H2 as <- <-.
    apply ret_inv in Hrun as [-> [= ->]]. exists code, s.
    split; [exact Hcode|]. split; [exact Hs|reflexivity].
  - inv_bind Hrun as u2 w2 H2. inv_bind Hrun as u3 w3 H3.
    apply ret_inv in Hrun as [_ [=]].
Qed.

Lemma channel_loop_confirmed todo :
  forall w w' r,
    channel_loop vendor problemSummary onAttemptUpdate onLogUpdate todo w
      = (w', Ok (Some r)) ->
    exists channel w0 code s,
      In channel todo /\
      generateConfirmationNumber w0 = (set_cursor (S (cursor w0)) w0, Ok code) /\
      generateAppointmentTime (eta vendor) w' = (w', Ok s) /\
      r = {| br_status := confirmed;
             br_channel := channel;
             scheduledStartISO := Some s;
             br_notes := "Successfully booked via " ++ channelName channel ++
                         ". Please be available 15 minutes before the scheduled time.";
             br_log := booking_log w';
             confirmationNumber := Some code |}.
Proof.
  induction todo as [|channel rest IH]; intros w w' r Hrun; cbn [channel_loop] in Hrun.
  - apply ret_inv in Hrun as [_ [=]].
  - inv_bind Hrun as u w1 H1. inv_bind Hrun as returned w2 H2.
    destruct returned as [r'|].
    + apply ret_inv in Hrun as [-> [= ->]].
      apply try_catch_inv in H2 as [H2|(e & w3 & _ & H2)].
      * apply attempt_channel_confirmed in H2 as (code & s & Hc & Hs & ->).
        exists channel, w1, code, s. split; [now left|]. repeat split; assumption.
      * now apply on_error_inv in H2.
    + apply IH in Hrun as (c & w0 & code & s & Hin & Hrest).
      exists c, w0, code, s. split; [now right|exact Hrest].
Qed.

End BookingLog.

(** The log of a result is the log of the run. *)
Lemma simulateBooking_log_returned
    (vendor : VendorData) (problemSummary : ProblemSummary)
    (onAttemptUpdate : Booking.AttemptCallback)
    (onLogUpdate : Booking.LogCallback) (w w' : World) (r : BookingResult) :
  Booking.simulateBooking vendor problemSummary onAttemptUpdate onLogUpdate w
    = (w', Ok r) ->
  br_log r = booking_log w'.
Proof.
  unfold Booking.simulateBooking. intros Hrun.
  inv_bind Hrun as u w1 H1. inv_bind Hrun as returned w2 H2.
  destruct returned as [r'|].
  - apply ret_inv in Hrun as [-> ->].
    apply channel_loop_confirmed in H2 as (c & w0 & code & s & _ & _ & _ & ->).
    reflexivity.
  - inv_bind Hrun as log w3 H3. injection H3 as <- <-.
    apply ret_inv in Hrun as [-> ->]. reflexivity.
Qed.

(** X9.  Whatever the callbacks do and however the run ends, the entries
    that [simulateBooking] has in its log at the end are the entries it has
    reported to [onLogUpdate], one call per entry and in the same order; a
    result that is returned carries this log. *)
Theorem booking_log_is_reported
    (vendor : VendorData) (problemSummary : ProblemSummary)
    (onAttemptUpdate : Booking.AttemptCallback)
    (onLogUpdate : Booking.LogCallback) (w : World) :
  let '(w', outcome) :=
    Booking.simulateBooking vendor problemSummary onAttemptUpdate onLogUpdate w in
  log_updates (journal w') = (log_updates (journal w) ++ booking_log w')%list /\
  match outcome with
  | Ok r => br_log r = booking_log w'
  | Throw _ => True
  end.
Proof.
  destruct (Booking.simulateBooking _ _ _ _ w) as [w' outcome] eqn:Hrun.
  split.
  - revert Hrun. unfold Booking.simulateBooking. unfold bind at 1.
    intros Hrun.
    assert (Hm : mirrors
      (let* returned := Booking.channel_loop vendor problemSummary onAttemptUpdate
                          onLogUpdate (Booking.channels_of vendor) in
       match returned with
       | Some r => ret r
       | None =>
           let* log := Booking.read_log in
           ret {| br_status := booking_failed;
                  br_channel := default b_phone (head (Booking.channels_of vendor));
                  scheduledStartISO := None;
                  br_notes := Booking.fallback_notes;
                  br_log := log;
                  confirmationNumber := None |}
       end)).
    { apply mirrors_bind; [apply mirrors_channel_loop|].
      intros [r|]; [apply mirrors_ret|].
      apply mirrors_bind; [|intros l; apply mirrors_ret].
      intros w1 w2 o [= <- _]. exists []. now rewrite !app_nil_r. }
    destruct (Hm _ _ _ Hrun) as (entries & Hlog & Hj). cbn in Hlog, Hj.
    now rewrite Hj, Hlog.
  - destruct outcome as [r|e]; [|exact I].
    eapply simulateBooking_log_returned, Hrun.
Qed.

(** X10.  A result that [simulateBooking] returns is never tentative.
    Either it is confirmed through a channel of the vendor's list, with the
    appointment computed from the clock at the return, a confirmation
    number that starts with "GSP-" and has at most ten characters, and the
    notes of that channel; or it is failed, names the phone channel, has
    neither time nor number and carries the notes that ask to call the
    vendor. *)
Theorem booking_result_shape
    (vendor : VendorData) (problemSummary : ProblemSummary)
    (onAttemptUpdate : Booking.AttemptCallback)
    (onLogUpdate : Booking.LogCallback) (w w' : World) (r : BookingResult) :
  Booking.simulateBooking vendor problemSummary onAttemptUpdate onLogUpdate w
    = (w', Ok r) ->
  (exists channel code s,
     In channel (Booking.channels_of vendor) /\
     Booking.generateAppointmentTime (eta vendor) w' = (w', Ok s) /\
     (String.length code <= 6)%nat /\ no_lower code = true /\
     r = {| br_status := confirmed;
            br_channel := channel;
            scheduledStartISO := Some s;
            br_notes := "Successfully booked via " ++ Booking.channelName channel ++
                        ". Please be available 15 minutes before the scheduled time.";
            br_log := booking_log w';
            confirmationNumber := Some ("GSP-" ++ code) |}) \/
  r = {| br_status := booking_failed;
         br_channel := b_phone;
         scheduledStartISO := None;
         br_notes := Booking.fallback_notes;
         br_log := booking_log w';
         confirmationNumber := None |}.
Proof.
  unfold Booking.simulateBooking. intros Hrun.
  inv_bind Hrun as u w1 H1. inv_bind Hrun as returned w2 H2.
  destruct returned as [r'|].
  - apply ret_inv in Hrun as [-> ->]. left.
    apply channel_loop_confirmed in H2 as (c & w0 & code & s & Hin & Hc & Hs & ->).
    revert Hc. unfold Booking.generateConfirmationNumber, bind, Math_random, ret.
    intros [= <-].
    exists c, (JS.toUpperCase (JS.substr 2 6 (radix36 (entropy w0 (cursor w0))))), s.
    split; [exact Hin|]. split; [exact Hs|].
    split.
    { unfold JS.toUpperCase, JS.substr. rewrite length_map_chars, length_substring. lia. }
    split; [apply toUpperCase_no_lower|reflexivity].
  - inv_bind Hrun as log w3 H3. injection H3 as <- <-.
    apply ret_inv in Hrun as [-> ->]. right.
    now rewrite head_channels_of.
Qed.

Lemma booking_result_shape_witness :
  exists w' r,
    Booking.simulateBooking Samples.acme Samples.ac_problem quiet quiet
      Samples.sms_world = (w', Ok r) /\
    ((exists channel code s,
        In channel (Booking.channels_of Samples.acme) /\
        Booking.generateAppointmentTime (eta Samples.acme) w' = (w', Ok s) /\
        (String.length code <= 6)%nat /\ no_lower code = true /\
        r = {| br_status := confirmed;
               br_channel := channel;
               scheduledStartISO := Some s;
               br_notes := "Successfully booked via " ++ Booking.channelName channel ++
                           ". Please be available 15 minutes before the scheduled time.";
               br_log := booking_log w';
               confirmationNumber := Some ("GSP-" ++ code) |}) \/
     r = {| br_status := booking_failed;
            br_channel := b_phone;
            scheduledStartISO := None;
            br_notes := Booking.fallback_notes;
            br_log := booking_log w';
            confirmationNumber := None |}).
Proof.
  destruct (Booking.simulateBooking Samples.acme Samples.ac_problem quiet quiet
              Samples.sms_world) as [w' [r|e]] eqn:Hrun.
  - exists w', r. split; [reflexivity|].
    exact (booking_result_shape _ _ _ _ _ _ _ Hrun).
  - vm_compute in Hrun. discriminate Hrun.
Defined.

(** The run of the witness: confirmed by SMS, the fourth channel. *)
Example booking_confirmed_by_sms :
  match Booking.simulateBooking Samples.acme Samples.ac_problem quiet quiet
          Samples.sms_world with
  | (_, Ok r) =>
      br_status r = confirmed /\ br_channel r = b_sms /\
      confirmationNumber r = Some "GSP-4FZYO8" /\
      scheduledStartISO r = Some "2023-11-15T17:00:00.000Z" /\
      length (br_log r) = 17%nat
  | (_, Throw _) => False
  end.
Proof. vm_compute. repeat split. Qed.

Section BookingOutline.

Import Booking.

Variables (vendor : VendorData) (problemSummary : ProblemSummary).
Variables (onAttemptUpdate : AttemptCallback) (onLogUpdate : LogCallback).

Lemma call_attempt_world m w w' u :
  call_attempt onAttemptUpdate m w = (w', Ok u) ->
  w' = set_journal (journal w ++ [AttemptUpdate m])%list w.
Proof. now intros [= <- _]. Qed.

Lemma addLogEntry_world c a m ok w w' u :
  addLogEntry c a m ok onLogUpdate w = (w', Ok u) ->
  w' = logged (entry_at w c a m ok) w.
Proof. rewrite addLogEntry_run. now intros [= <- _]. Qed.

(** The entries that a run of the step loop pushes. *)
Lemma steps_log channel cn n todo :
  forall i w w' r,
    steps channel vendor problemSummary cn onAttemptUpdate onLogUpdate n todo i w
      = (w', Ok r) ->
    (length todo + i = n)%nat -> todo <> [] ->
    map entry_outline (booking_log w')
    = (map entry_outline (booking_log w) ++
       step_outline channel n i (length todo)
         (roll vendor (entropy w) channel (cursor w + length todo - 1)))%list.
Proof.
  induction todo as [|raw rest IH]; intros i w w' r Hrun Hn Hne; [congruence|].
  cbn [steps length] in *.
  inv_bind Hrun as u1 w1 H1. apply call_attempt_world in H1 as ->.
  inv_bind Hrun as stepSuccess w2 Hroll.
  inv_bind Hrun as u3 w3 H3. apply addLogEntry_world in H3 as ->.
  inv_bind Hrun as pause w4 H4. injection H4 as <- <-.
  inv_bind Hrun as u5 w5 H5. injection H5 as <- _.
  unfold step_outline. cbn [seq map].
  destruct rest as [|raw' rest'].
  - replace (i =? n - 1)%nat with true in *
      by (symmetry; apply Nat.eqb_eq; cbn in Hn; lia).
    inv_bind Hroll as d w6 H6. injection H6 as <- <-.
    apply ret_inv in Hroll as [-> ->].
    assert (Hw' : booking_log w'
                  = (booking_log w ++
                     [entry_at (set_cursor (S (cursor (set_journal
                         (journal w ++ [AttemptUpdate
                            (channelName channel ++ ": " ++
                             fill_script raw vendor problemSummary cn)]) w)))
                         (set_journal
                         (journal w ++ [AttemptUpdate
                            (channelName channel ++ ": " ++
                             fill_script raw vendor problemSummary cn)]) w))
                        (BookingChannel_str channel) ("step_" ++ JS.show_nat (i + 1))
                        (fill_script raw vendor problemSummary cn)
                        (roll vendor (entropy w) channel (cursor w + 1 - 1))])%list).
    { unfold roll. replace (cursor w + 1 - 1)%nat with (cursor w) by lia.
      cbn [entropy cursor set_cursor set_journal] in Hrun.
      destruct (Qltb _ _); cbn [negb andb] in Hrun;
        apply ret_inv in Hrun as [-> _]; reflexivity. }
    rewrite Hw', map_app. reflexivity.
  - replace (i =? n - 1)%nat with false in *
      by (symmetry; apply Nat.eqb_neq; cbn in Hn; lia).
    apply ret_inv in Hroll as [-> ->]. cbn [negb andb] in Hrun.
    apply IH in Hrun; [|cbn in *; lia|discriminate].
    rewrite Hrun. cbn [booking_log logged set_booking_log set_journal set_cursor
                       set_now entropy cursor journal now utcOffset length].
    rewrite map_app, <- app_assoc. cbn [map app entry_outline entry_at le_channel
                                        le_action le_success].
    replace (cursor w + S (S (length rest')) - 1)%nat
      with (S (cursor w) + S (length rest') - 1)%nat by lia.
    reflexivity.
Qed.

Lemma attempt_channel_log channel w w' res :
  attempt_channel channel vendor problemSummary onAttemptUpdate onLogUpdate w
    = (w', Ok res) ->
  map entry_outline (booking_log w')
  = (map entry_outline (booking_log w) ++
     channel_outline channel
       (roll vendor (entropy w) channel (cursor w + length (scripts_of channel))))%list.
Proof.
  unfold attempt_channel, simulateChannel. intros Hrun.
  inv_bind Hrun as result w1 H1.
  inv_bind H1 as cn w2 H2. unfold generateConfirmationNumber in H2.
  inv_bind H2 as d w0 H0. injection H0 as <- <-. apply ret_inv in H2 as [-> ->].
  inv_bind H1 as early w3 H3.
  apply steps_log in H3; [|lia|destruct channel; discriminate].
  cbn [booking_log set_cursor entropy cursor] in H3.
  replace (S (cursor w) + length (scripts_of channel) - 1)%nat
    with (cursor w + length (scripts_of channel))%nat in H3
    by (destruct channel; cbn; lia).
  fold (channel_outline channel
          (roll vendor (entropy w) channel (cursor w + length (scripts_of channel))))
    in H3.
  rewrite <- H3. f_equal.
  assert (E1 : booking_log w1 = booking_log w3).
  { destruct early as [f|].
    - now apply ret_inv in H1 as [-> _].
    - inv_bind H1 as s w4 H4. injection H4 as <- _.
      now apply ret_inv in H1 as [-> _]. }
  rewrite <- E1. destruct (success result).
  - inv_bind Hrun as log w5 H5. injection H5 as <- _.
    now apply ret_inv in Hrun as [-> _].
  - inv_bind Hrun as u5 w5 H5. apply call_attempt_world in H5 as ->.
    inv_bind Hrun as u6 w6 H6. injection H6 as <- _.
    now apply ret_inv in Hrun as [-> _].
Qed.

Hypothesis quietA : returns_normally onAttemptUpdate.
Hypothesis quietL : returns_normally onLogUpdate.

Lemma channel_loop_log todo :
  forall w, exists w' res,
    channel_loop vendor problemSummary onAttemptUpdate onLogUpdate todo w
      = (w', Ok res) /\
    map entry_outline (booking_log w')
    = (map entry_outline (booking_log w) ++
       expected_outline vendor (entropy w) todo (cursor w))%list.
Proof.
  induction todo as [|channel rest IH]; intros w; cbn [channel_loop expected_outline].
  - eexists _, _. split; [reflexivity|]. now rewrite app_nil_r.
  - destruct (total_call_attempt onAttemptUpdate quietA (notice channel) w)
      as (w1 & [] & H1).
    unfold notice in H1. rewrite (bind_ok _ _ _ _ _ H1).
    apply call_attempt_world in H1 as ->.
    set (w1 := set_journal _ w).
    destruct (total_attempt_channel vendor problemSummary onAttemptUpdate onLogUpdate
                quietA quietL channel w1) as (w2 & res & H2).
    rewrite (bind_ok _ _ _ _ _ (try_catch_ok _ _ _ _ _ H2)).
    pose proof (attempt_channel_log _ _ _ _ H2) as Hlog.
    apply attempt_channel_inv in H2 as [[E2 C2] Hres].
    change (entropy w1) with (entropy w) in *.
    change (cursor w1) with (cursor w) in *.
    change (booking_log w1) with (booking_log w) in *.
    destruct (roll vendor (entropy w) channel _).
    + destruct Hres as (r & -> & Hr). eexists _, _. split; [reflexivity|exact Hlog].
    + subst res. destruct (IH w2) as (w3 & res & H3 & Hrest).
      exists w3, res. split; [exact H3|].
      rewrite Hrest, Hlog, <- app_assoc, E2.
      replace (cursor w2) with (cursor w + length (scripts_of channel) + 2)%nat by lia.
      reflexivity.
Qed.

End BookingOutline.

(** X11.  With callbacks that return, the log of the result has, for every
    channel tried, one entry per step of its script, numbered from
    [step_1]; every entry is flagged as a success except the last step of a
    channel whose roll failed, and there is no error entry.  The log starts
    with the first step of the phone call. *)
Theorem booking_log_outline
    (vendor : VendorData) (problemSummary : ProblemSummary)
    (onAttemptUpdate : Booking.AttemptCallback)
    (onLogUpdate : Booking.LogCallback) (w : World) :
  returns_normally onAttemptUpdate -> returns_normally onLogUpdate ->
  exists w' r,
    Booking.simulateBooking vendor problemSummary onAttemptUpdate onLogUpdate w
      = (w', Ok r) /\
    map entry_outline (br_log r)
    = expected_outline vendor (entropy w) (Booking.channels_of vendor) (cursor w) /\
    exists more, map entry_outline (br_log r) = ("phone", "step_1", true) :: more.
Proof.
  intros quietA quietL.
  destruct (simulateBooking_quiet vendor problemSummary onAttemptUpdate onLogUpdate
              quietA quietL w) as (w' & r & Hrun & _).
  pose proof (simulateBooking_log_returned _ _ _ _ _ _ _ Hrun) as Hlog.
  exists w', r. split; [exact Hrun|].
  assert (Hout : map entry_outline (br_log r)
                 = expected_outline vendor (entropy w) (Booking.channels_of vendor)
                                    (cursor w)).
  { rewrite Hlog. revert Hrun. unfold Booking.simulateBooking. unfold bind at 1.
    destruct (channel_loop_log vendor problemSummary onAttemptUpdate onLogUpdate
                quietA quietL (Booking.channels_of vendor) (set_booking_log [] w))
      as (w1 & res & Hloop & Hl).
    rewrite (bind_ok _ _ _ _ _ Hloop). cbn in Hl.
    destruct res as [r'|].
    - intros [= <- _]. exact Hl.
    - unfold bind, Booking.read_log, ret. intros [= <- _]. exact Hl. }
  split; [exact Hout|]. rewrite Hout.
  destruct (Booking.channels_of vendor) as [|c rest] eqn:Hch;
    [pose proof (head_channels_of vendor) as Hh; rewrite Hch in Hh; discriminate|].
  pose proof (head_channels_of vendor) as Hh. rewrite Hch in Hh.
  injection Hh as ->. cbn [expected_outline].
  destruct (roll _ _ _ _); eexists; reflexivity.
Qed.

Lemma booking_log_outline_witness :
  exists w' r,
    Booking.simulateBooking Samples.places_vendor Samples.ac_problem quiet quiet
      (Samples.world (fun _ => Samples.top)) = (w', Ok r) /\
    map entry_outline (br_log r)
    = [("phone", "step_1", true); ("phone", "step_2", true);
       ("phone", "step_3", true); ("phone", "step_4", false)].
Proof.
  destruct (booking_log_outline Samples.places_vendor Samples.ac_problem quiet quiet
              (Samples.world (fun _ => Samples.top)))
    as (w' & r & Hrun & Hout & _).
  - intros a. reflexivity.
  - intros a. reflexivity.
  - exists w', r. split; [exact Hrun|]. rewrite Hout. vm_compute. reflexivity.
Defined.

(** ** The outreach simulator: what decides a run *)

Section OutreachRuns.

Import Outreach.

Variables (cfg : SimulationConfig) (delays : list Z) (ps : ProblemSummary).

Lemma round_run attempt cv w :
  exists channel,
    CHANNELS !! (attempt mod length CHANNELS)%nat = Some channel /\
    let a := first_attempt delays ps attempt channel w in
    let snap s := set_outreachLog (outreachLog cv ++ [set_status s a])%list cv in
    let delivered_at := (now w + pick_delay delays attempt + delivery_ms cfg)%Z in
    if Qltb (value (entropy w (cursor w))) (outreachSuccessRate cfg)
    then
      exists e fee,
        ETA_PATTERNS !! quote_index (entropy w (S (cursor w))) = Some (e, fee) /\
        let final :=
          set_outreachStatus completed
            (set_quote e fee
               (set_outreachLog
                  (outreachLog cv ++
                   [set_response (reply_text e fee) (set_status replied a)])%list
                  cv)) in
        round cfg delays ps attempt cv w
        = ({| entropy := entropy w; cursor := S (S (cursor w));
              now := (delivered_at + reply_ms cfg)%Z; utcOffset := utcOffset w;
              journal := (journal w ++ [VendorUpdate (snap sent);
                                        VendorUpdate (snap delivered);
                                        VendorUpdate final])%list;
              booking_log := booking_log w |},
           Ok (Return final))
    else
      round cfg delays ps attempt cv w
      = ({| entropy := entropy w; cursor := S (cursor w);
            now := (delivered_at + give_up_ms cfg)%Z; utcOffset := utcOffset w;
            journal := (journal w ++ [VendorUpdate (snap sent);
                                      VendorUpdate (snap delivered);
                                      VendorUpdate (snap attempt_failed)])%list;
            booking_log := booking_log w |},
         Ok (Continue (snap attempt_failed))).
Proof.
  assert (Hlt : (attempt mod length CHANNELS < length CHANNELS)%nat)
    by (apply Nat.mod_upper_bound; discriminate).
  destruct (lookup_lt_is_Some_2 _ _ Hlt) as [channel Hch].
  exists channel. split; [exact Hch|]. cbn zeta.
  unfold delivery_ms, reply_ms, give_up_ms.
  destruct (Qltb _ _) eqn:Hroll.
  - destruct (lookup_lt_is_Some_2 _ _ (pick_in_range (entropy w (S (cursor w)))))
      as [[e fee] Hpick].
    exists e, fee. split; [exact Hpick|].
    unfold round. unfold element at 1. rewrite Hch.
    cbn [bind ret sleep timestamp_now onUpdate Math_random set_now set_journal
         set_cursor entropy cursor now journal utcOffset booking_log].
    fold (first_attempt delays ps attempt channel w).
    rewrite !write_attempt_last, Hroll.
    cbn [bind ret sleep timestamp_now onUpdate Math_random set_now set_journal
         set_cursor entropy cursor now journal utcOffset booking_log].
    unfold element. unfold quote_index in Hpick. rewrite Hpick.
    cbn [bind ret sleep timestamp_now onUpdate Math_random set_now set_journal
         set_cursor entropy cursor now journal utcOffset booking_log fst snd].
    rewrite ?write_attempt_last, <- ?app_assoc. reflexivity.
  - unfold round. unfold element at 1. rewrite Hch.
    cbn [bind ret sleep timestamp_now onUpdate Math_random set_now set_journal
         set_cursor entropy cursor now journal utcOffset booking_log].
    fold (first_attempt delays ps attempt channel w).
    rewrite !write_attempt_last, Hroll.
    cbn [bind ret sleep timestamp_now onUpdate Math_random set_now set_journal
         set_cursor entropy cursor now journal utcOffset booking_log].
    rewrite ?write_attempt_last, <- ?app_assoc. reflexivity.
Qed.

Lemma failed_snapshot_listing (cv : VendorData) (l : list OutreachAttempt) :
  listing (set_outreachLog l cv) = listing cv /\
  outreachStatus (set_outreachLog l cv) = outreachStatus cv /\
  eta (set_outreachLog l cv) = eta cv /\
  serviceFee (set_outreachLog l cv) = serviceFee cv.
Proof. repeat split. Qed.

(** The loop from round [attempt] on, with [remaining] rounds to go: what
    the callback sees, and how the random numbers decide the outcome. *)
Lemma rounds_run remaining :
  forall attempt cv w,
  exists w' v' ups,
    rounds cfg delays ps remaining attempt cv w = (w', Ok v') /\
    journal w' = (journal w ++ map VendorUpdate (ups ++ [v']))%list /\
    Forall (fun u => listing u = listing cv /\
                     outreachStatus u = outreachStatus cv /\
                     eta u = eta cv /\ serviceFee u = serviceFee cv) ups /\
    listing v' = listing cv /\
    entropy w' = entropy w /\
    match first_pass (outreachSuccessRate cfg) (entropy w) (cursor w) remaining with
    | Some k =>
        outreachStatus v' = completed /\
        length (outreachLog v') = (length (outreachLog cv) + S k)%nat /\
        cursor w' = (cursor w + k + 2)%nat /\
        now w' = (now w + completed_ms cfg delays attempt k)%Z /\
        exists e fee,
          ETA_PATTERNS !! quote_index (entropy w (cursor w + k + 1)%nat)
            = Some (e, fee) /\
          eta v' = Some e /\ serviceFee v' = Some fee /\
          oa_response <$> last (outreachLog v') = Some (Some (reply_text e fee))
    | None =>
        outreachStatus v' = failed /\
        length (outreachLog v') = (length (outreachLog cv) + remaining)%nat /\
        cursor w' = (cursor w + remaining)%nat /\
        now w' = (now w + failed_ms cfg delays attempt remaining)%Z /\
        eta v' = eta cv /\ serviceFee v' = serviceFee cv
    end.
Proof.
  induction remaining as [|remaining IH]; intros attempt cv w;
    cbn [rounds first_pass].
  - cbn [bind ret onUpdate].
    eexists _, (set_outreachStatus failed cv), [].
    split; [reflexivity|]. split; [reflexivity|]. split; [constructor|].
    split; [reflexivity|]. split; [reflexivity|].
    cbn. repeat split; lia.
  - destruct (round_run attempt cv w) as (channel & Hch & Hround).
    cbn zeta in Hround.
    set (a := first_attempt delays ps attempt channel w) in *.
    set (L := outreachLog cv) in *.
    destruct (Qltb _ _).
    + destruct Hround as (e & fee & Hpick & Hround).
      rewrite (bind_ok _ _ _ _ _ Hround). cbn [ret].
      eexists _, _, [set_outreachLog (L ++ [set_status sent a]) cv;
                     set_outreachLog (L ++ [set_status delivered a]) cv].
      split; [reflexivity|]. split; [reflexivity|].
      split; [repeat (constructor; [apply failed_snapshot_listing|]); constructor|].
      split; [reflexivity|]. split; [reflexivity|].
      split; [reflexivity|].
      split; [cbn; rewrite length_app; reflexivity|].
      split; [cbn; lia|].
      split; [cbn; unfold completed_ms; rewrite Nat.add_0_r; cbn; lia|].
      exists e, fee.
      split; [now replace (cursor w + 0 + 1)%nat with (S (cursor w)) by lia|].
      split; [reflexivity|]. split; [reflexivity|].
      cbn. now rewrite last_snoc.
    + rewrite (bind_ok _ _ _ _ _ Hround).
      set (cv' := set_outreachLog (L ++ [set_status attempt_failed a]) cv).
      match goal with
      | |- context [rounds _ _ _ _ _ _ ?w0] => set (w1 := w0)
      end.
      destruct (IH (S attempt) cv' w1)
        as (w' & v' & ups & Hrun & Hj & Hups & Hlist & Hdice & Hout).
      exists w', v',
        ([set_outreachLog (L ++ [set_status sent a]) cv;
          set_outreachLog (L ++ [set_status delivered a]) cv; cv'] ++ ups)%list.
      split; [exact Hrun|].
      split; [rewrite Hj; cbn; rewrite <- !app_assoc; reflexivity|].
      split; [repeat (constructor; [apply failed_snapshot_listing|]); exact Hups|].
      split; [exact Hlist|]. split; [exact Hdice|].
      change (entropy w1) with (entropy w) in Hout.
      change (cursor w1) with (S (cursor w)) in Hout.
      change (now w1)
        with (now w + pick_delay delays attempt + delivery_ms cfg + give_up_ms cfg)%Z
        in Hout.
      change (outreachLog cv') with (L ++ [set_status attempt_failed a])%list in Hout.
      rewrite length_app in Hout. cbn [length] in Hout.
      destruct (first_pass _ _ _ _) as [k|]; cbn [option_map].
      * destruct Hout as (Hs & Hlen & Hc & Hnow & e & fee & Hpick & He & Hf & Hr).
        split; [exact Hs|]. split; [lia|]. split; [lia|].
        split.
        { rewrite Hnow. unfold completed_ms. cbn [failed_ms].
          replace (attempt + S k)%nat with (S attempt + k)%nat by lia. lia. }
        exists e, fee.
        split; [now replace (cursor w + S k + 1)%nat
                      with (S (cursor w) + k + 1)%nat by lia|].
        repeat split; assumption.
      * destruct Hout as (Hs & Hlen & Hc & Hnow & He & Hf).
        split; [exact Hs|]. split; [lia|]. split; [lia|].
        split; [rewrite Hnow; cbn [failed_ms]; lia|].
        split; assumption.
Qed.

End OutreachRuns.

(** The whole run, from the first call of the callback on. *)
Lemma simulateOutreach_run vendor problemSummary config w :
  let cfg := Outreach.merge config in
  let limit := Z.to_nat (maxAttempts cfg) in
  exists w' v' ups,
    Outreach.simulateOutreach vendor problemSummary config w = (w', Ok v') /\
    journal w' = (journal w ++ map VendorUpdate (ups ++ [v']))%list /\
    ups <> [] /\
    Forall (fun u => listing u = listing vendor /\
                     outreachStatus u = in_progress /\
                     eta u = eta vendor /\ serviceFee u = serviceFee vendor) ups /\
    listing v' = listing vendor /\
    entropy w' = entropy w /\
    match first_pass (outreachSuccessRate cfg) (entropy w) (cursor w) limit with
    | Some k =>
        outreachStatus v' = completed /\
        length (outreachLog v') = (length (outreachLog vendor) + S k)%nat /\
        cursor w' = (cursor w + k + 2)%nat /\
        now w' = (now w + completed_ms cfg (outreach_delays cfg) 0 k)%Z /\
        exists e fee,
          Outreach.ETA_PATTERNS !! quote_index (entropy w (cursor w + k + 1)%nat)
            = Some (e, fee) /\
          eta v' = Some e /\ serviceFee v' = Some fee /\
          oa_response <$> last (outreachLog v') = Some (Some (reply_text e fee))
    | None =>
        outreachStatus v' = failed /\
        length (outreachLog v') = (length (outreachLog vendor) + limit)%nat /\
        cursor w' = (cursor w + limit)%nat /\
        now w' = (now w + failed_ms cfg (outreach_delays cfg) 0 limit)%Z /\
        eta v' = eta vendor /\ serviceFee v' = serviceFee vendor
    end.
Proof.
  intros cfg limit. unfold Outreach.simulateOutreach. fold cfg.
  set (cv := Outreach.set_outreachStatus in_progress vendor).
  fold (outreach_delays cfg). fold limit.
  cbn [bind Outreach.onUpdate].
  match goal with
  | |- context [Outreach.rounds _ _ _ _ _ _ ?w0] => set (w1 := w0)
  end.
  destruct (rounds_run cfg (outreach_delays cfg) problemSummary limit 0 cv w1)
    as (w' & v' & ups & Hrun & Hj & Hups & Hlist & Hdice & Hout).
  exists w', v', (cv :: ups).
  split; [exact Hrun|].
  split; [rewrite Hj; cbn; rewrite <- app_assoc; reflexivity|].
  split; [discriminate|].
  split; [constructor; [repeat split|exact Hups]|].
  split; [exact Hlist|]. split; [exact Hdice|]. exact Hout.
Qed.

(** X12.  The random numbers decide a run of [simulateOutreach]: round [j]
    rolls the random number of index [j] from the start and passes when it
    is below [outreachSuccessRate].  At the first round [k] that passes the
    run completes, after [k + 1] attempts and [k + 2] random numbers, the
    last of which picks the quote from the table: the vendor gets its ETA
    and its fee, and the reply of the last attempt quotes both.  When none
    of the rounds passes the run fails after one attempt and one random
    number per round. *)
Theorem outreach_decided_by_dice
    (vendor : VendorData) (problemSummary : ProblemSummary)
    (config : PartialConfig) (w : World) :
  let cfg := Outreach.merge config in
  let limit := Z.to_nat (maxAttempts cfg) in
  exists w' v',
    Outreach.simulateOutreach vendor problemSummary config w = (w', Ok v') /\
    entropy w' = entropy w /\
    match first_pass (outreachSuccessRate cfg) (entropy w) (cursor w) limit with
    | Some k =>
        outreachStatus v' = completed /\
        length (outreachLog v') = (length (outreachLog vendor) + S k)%nat /\
        cursor w' = (cursor w + k + 2)%nat /\
        exists e fee,
          Outreach.ETA_PATTERNS !! quote_index (entropy w (cursor w + k + 1)%nat)
            = Some (e, fee) /\
          eta v' = Some e /\ serviceFee v' = Some fee /\
          oa_response <$> last (outreachLog v') = Some (Some (reply_text e fee))
    | None =>
        outreachStatus v' = failed /\
        length (outreachLog v') = (length (outreachLog vendor) + limit)%nat /\
        cursor w' = (cursor w + limit)%nat
    end.
Proof.
  intros cfg limit.
  destruct (simulateOutreach_run vendor problemSummary config w)
    as (w' & v' & ups & Hrun & _ & _ & _ & _ & Hdice & Hout).
  cbn zeta in Hout. fold cfg limit in Hout.
  exists w', v'. split; [exact Hrun|]. split; [exact Hdice|].
  destruct (first_pass _ _ _ _) as [k|].
  - destruct Hout as (Hs & Hlen & Hc & _ & Hq). repeat split; assumption.
  - destruct Hout as (Hs & Hlen & Hc & _). repeat split; assumption.
Qed.

(** With a success rate of 1 or more the first round passes, whatever the
    random numbers; with a rate of 0 or less no round does. *)
Lemma first_pass_sure (rate : Q) dice start remaining :
  (1 <= rate)%Q -> first_pass rate dice start (S remaining) = Some 0%nat.
Proof.
  intros Hrate. cbn [first_pass].
  assert (Hlt : (value (dice start) < rate)%Q).
  { eapply Qlt_le_trans; [|exact Hrate].
    unfold value, Qlt. cbn [Qnum Qden].
    pose proof (Z.mod_pos_bound (mantissa (dice start)) two53 eq_refl).
    change (Z.pos (Z.to_pos two53)) with two53. lia. }
  unfold Qltb. now rewrite (proj1 (Qlt_alt _ _) Hlt).
Qed.

Lemma first_pass_never (rate : Q) dice remaining :
  (rate <= 0)%Q -> forall start, first_pass rate dice start remaining = None.
Proof.
  intros Hrate. induction remaining as [|remaining IH]; intros start;
    cbn [first_pass]; [reflexivity|].
  assert (Hge : (rate <= value (dice start))%Q).
  { eapply Qle_trans; [exact Hrate|].
    unfold value, Qle. cbn [Qnum Qden].
    pose proof (Z.mod_pos_bound (mantissa (dice start)) two53 eq_refl). lia. }
  unfold Qltb. destruct (value (dice start) ?= rate)%Q eqn:Hcmp.
  - now rewrite IH.
  - apply Qlt_alt in Hcmp. exfalso. eapply Qlt_not_le; eassumption.
  - now rewrite IH.
Qed.

(** X13.  With [outreachSuccessRate] set to 1 or more and at least one
    round allowed, every run completes in its first round; with the rate
    set to 0 or less, every run fails after all its rounds. *)
Theorem outreach_with_extreme_rates
    (vendor : VendorData) (problemSummary : ProblemSummary)
    (config : PartialConfig) (w : World) :
  let cfg := Outreach.merge config in
  exists w' v',
    Outreach.simulateOutreach vendor problemSummary config w = (w', Ok v') /\
    ((1 <= outreachSuccessRate cfg)%Q -> (1 <= maxAttempts cfg)%Z ->
     outreachStatus v' = completed /\
     length (outreachLog v') = S (length (outreachLog vendor))) /\
    ((outreachSuccessRate cfg <= 0)%Q ->
     outreachStatus v' = failed /\
     length (outreachLog v')
     = (length (outreachLog vendor) + Z.to_nat (maxAttempts cfg))%nat).
Proof.
  intros cfg.
  destruct (simulateOutreach_run vendor problemSummary config w)
    as (w' & v' & ups & Hrun & _ & _ & _ & _ & _ & Hout).
  cbn zeta in Hout. fold cfg in Hout.
  exists w', v'. split; [exact Hrun|]. split.
  - intros Hrate Hmax.
    destruct (Z.to_nat (maxAttempts cfg)) as [|n] eqn:Hn; [lia|].
    rewrite first_pass_sure in Hout by exact Hrate.
    destruct Hout as (Hs & Hlen & _). split; [exact Hs|]. rewrite Hlen. lia.
  - intros Hrate. rewrite first_pass_never in Hout by exact Hrate.
    destruct Hout as (Hs & Hlen & _). split; assumption.
Qed.

Lemma outreach_with_extreme_rates_witness :
  (exists w' v',
     Outreach.simulateOutreach Samples.places_vendor Samples.ac_problem
       (config_with_rate 1) (Samples.world (fun _ => Samples.top)) = (w', Ok v') /\
     outreachStatus v' = completed /\ length (outreachLog v') = 1%nat) /\
  (exists w' v',
     Outreach.simulateOutreach Samples.places_vendor Samples.ac_problem
       (config_with_rate 0) (Samples.world (fun _ => Samples.bottom)) = (w', Ok v') /\
     outreachStatus v' = failed /\ length (outreachLog v') = 3%nat).
Proof.
  split.
  - destruct (outreach_with_extreme_rates Samples.places_vendor Samples.ac_problem
                (config_with_rate 1) (Samples.world (fun _ => Samples.top)))
      as (w' & v' & Hrun & Hsure & _).
    exists w', v'. split; [exact Hrun|]. apply Hsure.
    + unfold Qle. cbn. lia.
    + cbn. lia.
  - destruct (outreach_with_extreme_rates Samples.places_vendor Samples.ac_problem
                (config_with_rate 0) (Samples.world (fun _ => Samples.bottom)))
      as (w' & v' & Hrun & _ & Hnever).
    exists w', v'. split; [exact Hrun|]. apply Hnever.
    unfold Qle. cbn. lia.
Defined.

(** X14.  The simulated time of a run is fixed by the round that passes:
    each failed round costs its delay, the delivery timer and the give-up
    timer; the round that passes costs its delay, the delivery timer and
    the reply timer.  With the default settings a run that completes in
    round 0, 1 or 2 takes 1600, 3500 or 5800 ms, and a run that fails takes
    5700 ms. *)
Theorem outreach_duration
    (vendor : VendorData) (problemSummary : ProblemSummary)
    (config : PartialConfig) (w : World) :
  let cfg := Outreach.merge config in
  let limit := Z.to_nat (maxAttempts cfg) in
  let run := Outreach.simulateOutreach vendor problemSummary config w in
  (now (fst run) - now w)%Z
  = match first_pass (outreachSuccessRate cfg) (entropy w) (cursor w) limit with
    | Some k => completed_ms cfg (outreach_delays cfg) 0 k
    | None => failed_ms cfg (outreach_delays cfg) 0 limit
    end /\
  map (completed_ms (Outreach.merge Samples.no_config)
                    (outreach_delays (Outreach.merge Samples.no_config)) 0)
      [0; 1; 2]%nat
  = [1600; 3500; 5800]%Z /\
  failed_ms (Outreach.merge Samples.no_config)
            (outreach_delays (Outreach.merge Samples.no_config)) 0 3 = 5700%Z.
Proof.
  intros cfg limit run. split; [|split; reflexivity].
  destruct (simulateOutreach_run vendor problemSummary config w)
    as (w' & v' & ups & Hrun & _ & _ & _ & _ & _ & Hout).
  cbn zeta in Hout. fold cfg limit in Hout.
  subst run. rewrite Hrun. cbn [fst].
  destruct (first_pass _ _ _ _) as [k|].
  - destruct Hout as (_ & _ & _ & Hnow & _). lia.
  - destruct Hout as (_ & _ & _ & Hnow & _). lia.
Qed.

Lemma snapshots_updates (j : list Event) (l : list VendorData) :
  snapshots (j ++ map VendorUpdate l) = (snapshots j ++ l)%list.
Proof.
  unfold snapshots. rewrite omap_app. f_equal.
  induction l as [|u l IH]; [reflexivity|]. cbn. now rewrite IH.
Qed.

(** The run as the callback sees it, call after call. *)
Lemma simulateOutreach_seen vendor problemSummary config w :
  exists w' v' ups,
    Outreach.simulateOutreach vendor problemSummary config w = (w', Ok v') /\
    snapshots (journal w') = (snapshots (journal w) ++ ups ++ [v'])%list /\
    ups <> [] /\
    Forall (fun u => listing u = listing vendor /\
                     outreachStatus u = in_progress /\
                     eta u = eta vendor /\ serviceFee u = serviceFee vendor) ups /\
    listing v' = listing vendor /\
    match first_pass (outreachSuccessRate (Outreach.merge config)) (entropy w)
                     (cursor w) (Z.to_nat (maxAttempts (Outreach.merge config))) with
    | Some k =>
        outreachStatus v' = completed /\
        exists e fee,
          Outreach.ETA_PATTERNS !! quote_index (entropy w (cursor w + k + 1)%nat)
            = Some (e, fee) /\
          eta v' = Some e /\ serviceFee v' = Some fee
    | None =>
        outreachStatus v' = failed /\
        eta v' = eta vendor /\ serviceFee v' = serviceFee vendor
    end.
Proof.
  destruct (simulateOutreach_run vendor problemSummary config w)
    as (w' & v' & ups & Hrun & Hj & Hne & Hups & Hlist & _ & Hout).
  cbn zeta in Hout.
  exists w', v', ups. split; [exact Hrun|].
  split; [rewrite Hj; apply snapshots_updates|].
  split; [exact Hne|]. split; [exact Hups|]. split; [exact Hlist|].
  destruct (first_pass _ _ _ _) as [k|].
  - destruct Hout as (Hs & _ & _ & _ & e & fee & Hpick & He & Hf & _).
    split; [exact Hs|]. exists e, fee. repeat split; assumption.
  - destruct Hout as (Hs & _ & _ & _ & He & Hf). repeat split; assumption.
Qed.

(** X15.  [simulateOutreach] changes nothing of a vendor but its outreach
    status, its outreach log and its quote: the vendor in every call of
    the callback and the vendor returned are listed as the vendor given.
    Until the last call the status is in-progress and the quote is that of
    the vendor given; a run that fails returns this quote unchanged, a run
    that completes replaces it, the fee included, by an entry of the
    table. *)
Theorem outreach_keeps_listing
    (vendor : VendorData) (problemSummary : ProblemSummary)
    (config : PartialConfig) (w : World) :
  exists w' v' ups,
    Outreach.simulateOutreach vendor problemSummary config w = (w', Ok v') /\
    snapshots (journal w') = (snapshots (journal w) ++ ups ++ [v'])%list /\
    ups <> [] /\
    Forall (fun u => listing u = listing vendor /\
                     outreachStatus u = in_progress /\
                     eta u = eta vendor /\ serviceFee u = serviceFee vendor) ups /\
    listing v' = listing vendor /\
    ((outreachStatus v' = failed /\
      eta v' = eta vendor /\ serviceFee v' = serviceFee vendor) \/
     (outreachStatus v' = completed /\
      exists e fee, In (e, fee) Outreach.ETA_PATTERNS /\
                    eta v' = Some e /\ serviceFee v' = Some fee)).
Proof.
  destruct (simulateOutreach_seen vendor problemSummary config w)
    as (w' & v' & ups & Hrun & Hj & Hne & Hups & Hlist & Hout).
  exists w', v', ups. split; [exact Hrun|]. split; [exact Hj|].
  split; [exact Hne|]. split; [exact Hups|]. split; [exact Hlist|].
  destruct (first_pass _ _ _ _) as [k|].
  - destruct Hout as (Hs & e & fee & Hpick & He & Hf).
    right. split; [exact Hs|]. exists e, fee.
    split; [|split; assumption].
    apply list_elem_of_In. eapply list_elem_of_lookup_2, Hpick.
  - left. exact Hout.
Qed.

(** A mock of the directory that is reached loses its listed fee of 95 for
    the fee of the quote. *)
Example reached_mock_vendor_changes_fee :
  let w := Samples.world (fun _ => Samples.bottom) in
  match Thumbtack.getThumbtackMockVendors hvac "94102" w with
  | (w1, Ok (first :: _)) =>
      serviceFee first = Some 95%Z /\
      match Outreach.simulateOutreach first Samples.ac_problem Samples.no_config w1 with
      | (_, Ok v) => outreachStatus v = completed /\ serviceFee v = Some 120%Z
      | _ => False
      end
  | _ => False
  end.
Proof. vm_compute. repeat split. Qed.

(** ** The discovery view *)


Lemma apply_update_ids (u : VendorData) (prev : list VendorData) :
  map id (Discovery.apply_update u prev) = map id prev.
Proof.
  unfold Discovery.apply_update. rewrite map_map. apply map_ext. intros v.
  destruct (String.eqb_spec (id v) (id u)) as [E|_]; [now rewrite E|reflexivity].
Qed.

(** Each entry of the list follows the updates that carry its id, and no
    other. *)
Lemma after_updates_pointwise (updates vendors : list VendorData) :
  after_updates updates vendors
  = map (fun v => default v (last (updates_of v updates))) vendors.
Proof.
  unfold after_updates. revert vendors.
  induction updates as [|u updates IH]; intros vendors; cbn [fold_left].
  - unfold updates_of. cbn. now rewrite map_id.
  - rewrite IH. unfold Discovery.apply_update. rewrite map_map.
    apply map_ext. intros v. unfold updates_of. cbn [List.filter].
    destruct (String.eqb_spec (id v) (id u)) as [E|Hne].
    + assert (Hsame : List.filter (fun u0 => String.eqb (id u) (id u0)) updates
                      = List.filter (fun u0 => String.eqb (id v) (id u0)) updates)
        by now rewrite E.
      rewrite Hsame. clear Hsame.
      destruct (List.filter _ updates) as [|x l]; [reflexivity|].
      change (last (u :: x :: l)) with (last (x :: l)).
      destruct (last (x :: l)) as [y|] eqn:Hlast; [reflexivity|].
      apply last_None in Hlast. discriminate.
    + reflexivity.
Qed.

(** X17.  The vendor list of the discovery view after a sequence of
    updates, in whatever order the concurrent outreach runs deliver them:
    the list keeps its length and its ids in order, and each entry is the
    last update that carries its id, or the entry as found when there is
    none.  So once a run of [simulateOutreach] on an entry has made all its
    calls, and whatever the other runs have done meanwhile, the entry is
    the vendor that the run returns. *)
Theorem vendor_list_follows_updates
    (vendors updates : list VendorData)
    (vendor : VendorData) (problemSummary : ProblemSummary)
    (config : PartialConfig) (w : World) :
  map id (after_updates updates vendors) = map id vendors /\
  after_updates updates vendors
  = map (fun v => default v (last (updates_of v updates))) vendors /\
  exists w' v' run,
    Outreach.simulateOutreach vendor problemSummary config w = (w', Ok v') /\
    snapshots (journal w') = (snapshots (journal w) ++ run)%list /\
    (updates_of vendor updates = run ->
     after_updates updates vendors
     = map (fun v => if String.eqb (id v) (id vendor) then v'
                     else default v (last (updates_of v updates))) vendors).
Proof.
  split; [|split].
  - rewrite after_updates_pointwise, map_map. apply map_ext. intros v.
    unfold updates_of.
    destruct (last _) as [u|] eqn:Hlast; [|reflexivity]. cbn.
    apply last_Some in Hlast as [l Hl].
    assert (Hin : In u (List.filter (fun u => String.eqb (id v) (id u)) updates)).
    { rewrite Hl. apply in_or_app. right. now left. }
    apply filter_In in Hin as [_ Heq]. apply String.eqb_eq in Heq. now rewrite Heq.
  - apply after_updates_pointwise.
  - destruct (simulateOutreach_seen vendor problemSummary config w)
      as (w' & v' & ups & Hrun & Hj & _ & _ & _ & _).
    exists w', v', (ups ++ [v'])%list.
    split; [exact Hrun|]. split; [exact Hj|]. intros Hof.
    rewrite after_updates_pointwise. apply map_ext. intros v.
    destruct (String.eqb_spec (id v) (id vendor)) as [E|_]; [|reflexivity].
    unfold updates_of in *. rewrite E, Hof, last_snoc. reflexivity.
Qed.

(** Two runs whose calls interleave: each entry ends as the vendor that
    its run returns. *)
Example interleaved_outreach_runs :
  let a := Samples.places_vendor in
  let b := Samples.acme in
  let run v w := Outreach.simulateOutreach v Samples.ac_problem Samples.no_config w in
  let wa := fst (run a (Samples.world (fun _ => Samples.top))) in
  let wb := fst (run b (Samples.world (fun _ => Samples.bottom))) in
  let zip := fix zip (l1 l2 : list VendorData) :=
    match l1, l2 with
    | x :: l1', y :: l2' => x :: y :: zip l1' l2'
    | [], l => l
    | l, [] => l
    end in
  map outreachStatus
      (after_updates (zip (snapshots (journal wa)) (snapshots (journal wb))) [a; b])
  = [failed; completed].
Proof. vm_compute. reflexivity. Qed.

Lemma rounds_reads (cfg1 cfg2 : SimulationConfig) delays ps remaining :
  fastDemo cfg1 = fastDemo cfg2 ->
  outreachSuccessRate cfg1 = outreachSuccessRate cfg2 ->
  forall attempt cv w,
    Outreach.rounds cfg1 delays ps remaining attempt cv w
    = Outreach.rounds cfg2 delays ps remaining attempt cv w.
Proof.
  intros Hf Hr. induction remaining as [|remaining IH]; intros attempt cv w;
    cbn [Outreach.rounds]; [reflexivity|].
  assert (Hround : Outreach.round cfg1 delays ps attempt cv
                   = Outreach.round cfg2 delays ps attempt cv).
  { unfold Outreach.round. rewrite Hf, Hr. reflexivity. }
  rewrite Hround. unfold bind.
  destruct (Outreach.round cfg2 delays ps attempt cv w) as [w1 [[v|v]|e]];
    [reflexivity|apply IH|reflexivity].
Qed.

(** X18.  [simulateOutreach] reads three settings only: [fastDemo],
    [outreachSuccessRate] and [maxAttempts].  Two configurations that agree
    on them give the same run, so [randomSeed], [delayRange] and
    [bookingSuccessRate] have no effect: a seed does not make a run
    repeatable. *)
Theorem outreach_ignores_unused_settings
    (vendor : VendorData) (problemSummary : ProblemSummary)
    (config1 config2 : PartialConfig) (w : World) :
  p_fastDemo config1 = p_fastDemo config2 ->
  p_outreachSuccessRate config1 = p_outreachSuccessRate config2 ->
  p_maxAttempts config1 = p_maxAttempts config2 ->
  Outreach.simulateOutreach vendor problemSummary config1 w
  = Outreach.simulateOutreach vendor problemSummary config2 w.
Proof.
  intros Hf Hr Hm. unfold Outreach.simulateOutreach.
  assert (E1 : fastDemo (Outreach.merge config1) = fastDemo (Outreach.merge config2))
    by (cbn; now rewrite Hf).
  assert (E2 : outreachSuccessRate (Outreach.merge config1)
               = outreachSuccessRate (Outreach.merge config2))
    by (cbn; now rewrite Hr).
  assert (E3 : maxAttempts (Outreach.merge config1)
               = maxAttempts (Outreach.merge config2))
    by (cbn; now rewrite Hm).
  rewrite E1, E3. unfold bind.
  destruct (Outreach.onUpdate _ w) as [w1 [u|e]]; [|reflexivity].
  apply rounds_reads; assumption.
Qed.

Lemma outreach_ignores_unused_settings_witness :
  Outreach.simulateOutreach Samples.places_vendor Samples.ac_problem
    Samples.no_config (Samples.world (fun _ => Samples.top))
  = Outreach.simulateOutreach Samples.places_vendor Samples.ac_problem
      seeded_config (Samples.world (fun _ => Samples.top)).
Proof.
  apply (outreach_ignores_unused_settings Samples.places_vendor Samples.ac_problem
           Samples.no_config seeded_config (Samples.world (fun _ => Samples.top)));
    reflexivity.
Defined.

(** ** The vendors found *)

Lemma value_range (d : Draw) : (0 <= value d)%Q /\ (value d < 1)%Q.
Proof.
  unfold value, Qle, Qlt. cbn [Qnum Qden].
  pose proof (Z.mod_pos_bound (mantissa d) two53 eq_refl).
  change (Z.pos (Z.to_pos two53)) with two53. lia.
Qed.

Lemma round_between (lo hi : Z) (x : Q) :
  (inject_Z lo <= x)%Q -> (x < inject_Z hi)%Q ->
  (lo <= Math_round x <= hi)%Z.
Proof.
  intros Hlo Hhi. unfold Math_round. split.
  - rewrite <- (Qfloor_Z lo). apply Qfloor_resp_le.
    eapply Qle_trans; [exact Hlo|].
    rewrite <- (Qplus_0_r x) at 1. apply Qplus_le_r. discriminate.
  - assert (H : (inject_Z (Qfloor (x + (1 # 2))) < inject_Z (hi + 1))%Q).
    { eapply Qle_lt_trans; [apply Qfloor_le|].
      rewrite inject_Z_plus.
      apply Qplus_lt_le_compat; [exact Hhi|discriminate]. }
    rewrite <- Zlt_Qlt in H. lia.
Qed.

Lemma randomDistanceMiles_range (w : World) :
  exists tenths : Z,
    Places.randomDistanceMiles w
      = (set_cursor (S (cursor w)) w, Ok (inject_Z tenths / 10)%Q) /\
    (3 <= tenths <= 120)%Z.
Proof.
  eexists. split; [reflexivity|].
  destruct (value_range (entropy w (cursor w))) as [H0 H1].
  apply round_between.
  - set (v := value _) in *. 
    apply Qle_trans with (((3 # 10) + 0 * (12 - (3 # 10))) * 10)%Q;
      [compute; discriminate|].
    apply Qmult_le_compat_r; [|discriminate].
    apply Qplus_le_r. apply Qmult_le_compat_r; [exact H0|discriminate].
  - set (v := value _) in *.
    apply Qlt_le_trans with (((3 # 10) + 1 * (12 - (3 # 10))) * 10)%Q;
      [|compute; discriminate].
    apply Qmult_lt_compat_r; [reflexivity|].
    apply Qplus_lt_r. apply Qmult_lt_compat_r; [reflexivity|exact H1].
Qed.

Lemma mock_distance_range (d : Draw) :
  exists tenths : Z,
    Thumbtack.mock_distance d = (inject_Z tenths / 10)%Q /\
    (3 <= tenths <= 123)%Z.
Proof.
  eexists. split; [reflexivity|].
  destruct (value_range d) as [H0 H1].
  apply round_between.
  - set (v := value _) in *. 
    apply Qle_trans with (((3 # 10) + 0 * 12) * 10)%Q;
      [compute; discriminate|].
    apply Qmult_le_compat_r; [|discriminate].
    apply Qplus_le_r. apply Qmult_le_compat_r; [exact H0|discriminate].
  - set (v := value _) in *.
    apply Qlt_le_trans with (((3 # 10) + 1 * 12) * 10)%Q;
      [|compute; discriminate].
    apply Qmult_lt_compat_r; [reflexivity|].
    apply Qplus_lt_r. apply Qmult_lt_compat_r; [reflexivity|exact H1].
Qed.

Lemma vendor_of_place_run category uuids used place w :
  exists v used',
    Places.vendor_of_place category uuids used place w
      = (set_cursor (S (cursor w)) w, Ok (v, used')) /\
    from_places category v /\
    name v = JS.or_else (Places.p_name place) "Unknown" /\
    (used <= used')%nat.
Proof.
  unfold Places.vendor_of_place.
  destruct (randomDistanceMiles_range w) as (tenths & Hd & Hrange).
  rewrite (bind_ok _ _ _ _ _ Hd). cbn [ret].
  eexists _, _. split; [reflexivity|]. split; [|split; [reflexivity|]].
  - unfold from_places. cbn. repeat split.
    exists tenths. split; [reflexivity|exact Hrange].
  - destruct (JS.truthy_str (Places.place_id place)); cbn; lia.
Qed.

Lemma map_places_run category uuids places :
  forall used w,
  exists w' vendors used',
    Places.map_places category uuids used places w = (w', Ok (vendors, used')) /\
    length vendors = length places /\
    entropy w' = entropy w /\
    cursor w' = (cursor w + length places)%nat /\
    Forall (from_places category) vendors /\
    map name vendors = map (fun p => JS.or_else (Places.p_name p) "Unknown") places /\
    (used <= used')%nat.
Proof.
  induction places as [|place rest IH]; intros used w; cbn [Places.map_places].
  - exists w, [], used. cbn. repeat split; try lia. constructor.
  - destruct (vendor_of_place_run category uuids used place w)
      as (v & u & Hv & Hshape & Hname & Hu).
    rewrite (bind_ok _ _ _ _ _ Hv). cbn [snd fst].
    destruct (IH u (set_cursor (S (cursor w)) w))
      as (w' & vendors & used' & Hrun & Hlen & He & Hc & Hall & Hnames & Hu').
    rewrite (bind_ok _ _ _ _ _ Hrun). cbn [ret fst snd].
    exists w', (v :: vendors), used'.
    split; [reflexivity|]. split; [cbn; now rewrite Hlen|].
    split; [exact He|]. split; [rewrite Hc; cbn; lia|].
    split; [constructor; [exact Hshape|exact Hall]|].
    split; [cbn; now rewrite Hname, Hnames|]. lia.
Qed.

(** X19.  The mapping of the Places results returns at most 20 vendors,
    one per result and in their order, and draws one random number for
    each.  Every one of them is listed for the phone channel only, is
    pending with an empty log and no quote, and lies at 0.3 to 12.0 miles,
    in tenths; a result without a name is called "Unknown". *)
Theorem places_vendors_shape (category : Category) (uuids : nat -> string)
    (used : nat) (results : list Places.PlaceResult) (w : World) :
  exists w' vendors used',
    Places.vendors_of_results category uuids used results w
      = (w', Ok (vendors, used')) /\
    length vendors = Nat.min 20 (length results) /\
    cursor w' = (cursor w + length vendors)%nat /\
    Forall (from_places category) vendors /\
    map name vendors
    = map (fun p => JS.or_else (Places.p_name p) "Unknown") (firstn 20 results).
Proof.
  unfold Places.vendors_of_results.
  destruct (map_places_run category uuids (firstn 20 results) used w)
    as (w' & vendors & used' & Hrun & Hlen & _ & Hc & Hall & Hnames & _).
  exists w', vendors, used'. split; [exact Hrun|].
  rewrite length_firstn in Hlen, Hc.
  split; [exact Hlen|]. split; [rewrite Hlen; exact Hc|].
  split; [exact Hall|exact Hnames].
Qed.

Example places_vendor_ids :
  match Places.vendors_of_results plumber sample_uuids 0
          [bare_place; full_place; bare_place]
          (Samples.world (fun _ => Samples.top)) with
  | (_, Ok (vendors, used)) =>
      map id vendors = ["uuid-0"; "ChIJ-1"; "uuid-1"] /\ used = 2%nat /\
      map address vendors
      = ["Address unavailable"; "1 Main St"; "Address unavailable"] /\
      map reviewCount vendors = [0; 12; 0]%Z
  | _ => False
  end.
Proof. vm_compute. repeat split. Qed.

Lemma mock_vendors_run category zipCode w :
  exists w' mocks,
    Thumbtack.getThumbtackMockVendors category zipCode w = (w', Ok mocks) /\
    length mocks = 3%nat /\
    entropy w' = entropy w /\ cursor w' = (cursor w + 3)%nat /\
    Forall from_directory mocks.
Proof.
  unfold Thumbtack.getThumbtackMockVendors.
  cbn [bind ret Math_random set_cursor entropy cursor].
  eexists _, _. split; [reflexivity|]. split; [reflexivity|].
  split; [reflexivity|]. split; [cbn; lia|].
  repeat constructor; cbn; try lia; try discriminate;
    match goal with
    | |- tenths_between _ _ (Thumbtack.mock_distance ?d) =>
        destruct (mock_distance_range d) as (k & Hk & Hr);
        exists k; split; [exact Hk|exact Hr]
    end.
Qed.

(** The filter of the view keeps a vendor with 20 reviews or more. *)
Lemma visible_app (hide : bool) (vendors mocks : list VendorData) :
  Forall from_directory mocks ->
  Discovery.visibleVendors hide (vendors ++ mocks)
  = (Discovery.visibleVendors hide vendors ++ mocks)%list.
Proof.
  intros Hm. unfold Discovery.visibleVendors. destruct hide; cbn [negb]; [|reflexivity].
  rewrite List.filter_app. f_equal.
  induction Hm as [|v mocks Hv _ IH]; [reflexivity|]. cbn [List.filter].
  destruct Hv as (_ & _ & _ & _ & _ & Hrev & _).
  destruct (reviewCount v =? 0)%Z eqn:Hz; [apply Z.eqb_eq in Hz; lia|].
  destruct (Z.leb_spec 20 (reviewCount v)); [now rewrite IH|lia].
Qed.

(** The list found when Places answers: its vendors, then the mocks. *)
Lemma found_with_places_split category zipCode uuids used results w :
  exists w' vendors mocks,
    Discovery.found_with_places category zipCode uuids used results w
      = (w', Ok (vendors ++ mocks)%list) /\
    length vendors = Nat.min 20 (length results) /\ length mocks = 3%nat /\
    cursor w' = (cursor w + length vendors + 3)%nat /\
    Forall (from_places category) vendors /\ Forall from_directory mocks.
Proof.
  unfold Discovery.found_with_places, Places.vendors_of_results.
  destruct (map_places_run category uuids (firstn 20 results) used w)
    as (w1 & vendors & used' & Hrun & Hlen & _ & Hc & Hall & _).
  rewrite length_firstn in Hlen, Hc.
  rewrite (bind_ok _ _ _ _ _ Hrun).
  destruct (mock_vendors_run category zipCode w1)
    as (w2 & mocks & Hmock & Hlen2 & _ & Hc2 & Hall2).
  rewrite (bind_ok _ _ _ _ _ Hmock). cbn [ret fst].
  exists w2, vendors, mocks. split; [reflexivity|].
  split; [exact Hlen|]. split; [exact Hlen2|]. split; [lia|].
  split; [exact Hall|exact Hall2].
Qed.

(** X20.  When Places answers, the list found is its vendors, at most 20,
    followed by the three entries of the mock directory.  No vendor of the
    list has web chat; the entries of the directory are listed for phone,
    WhatsApp and SMS and lie at 0.3 to 12.3 miles.  Whatever the filter on
    reviews, the view shows the three entries of the directory, so it is
    never empty. *)
Theorem discovered_vendors (category : Category) (zipCode : string)
    (uuids : nat -> string) (used : nat) (results : list Places.PlaceResult)
    (w : World) :
  exists w' vendors mocks,
    Discovery.found_with_places category zipCode uuids used results w
      = (w', Ok (vendors ++ mocks)%list) /\
    length vendors = Nat.min 20 (length results) /\ length mocks = 3%nat /\
    cursor w' = (cursor w + length vendors + 3)%nat /\
    Forall (from_places category) vendors /\ Forall from_directory mocks /\
    Forall (fun v => hasWebChat v = false) (vendors ++ mocks) /\
    forall hide,
      Discovery.visibleVendors hide (vendors ++ mocks)
      = (Discovery.visibleVendors hide vendors ++ mocks)%list.
Proof.
  destruct (found_with_places_split category zipCode uuids used results w)
    as (w' & vendors & mocks & Hrun & Hlen & Hlen2 & Hc & Hall & Hall2).
  exists w', vendors, mocks. split; [exact Hrun|].
  split; [exact Hlen|]. split; [exact Hlen2|]. split; [exact Hc|].
  split; [exact Hall|]. split; [exact Hall2|]. split.
  - apply Forall_app. split.
    + eapply Forall_impl; [exact Hall|]. intros v Hv.
      destruct Hv as (_ & _ & _ & _ & _ & _ & _ & Hch & _).
      revert Hch. unfold Booking.channels_of.
      destruct (hasWebChat v); [|reflexivity].
      destruct (hasWhatsApp v), (Booking.truthy_flag (hasSms v)); discriminate.
    + eapply Forall_impl; [exact Hall2|]. intros v Hv.
      destruct Hv as (_ & _ & _ & _ & Hch & _).
      revert Hch. unfold Booking.channels_of.
      destruct (hasWebChat v); [|reflexivity].
      destruct (hasWhatsApp v), (Booking.truthy_flag (hasSms v)); discriminate.
  - intros hide. now apply visible_app.
Qed.

(** A mock of the directory can lie beyond 12 miles. *)
Example mock_distance_can_exceed_12 :
  Thumbtack.mock_distance {| mantissa := Samples.top; radix36 := "0.z" |}
  = (inject_Z 123 / 10)%Q.
Proof. vm_compute. reflexivity. Qed.

Lemma channels_of_listing (v v' : VendorData) :
  listing v' = listing v -> Booking.channels_of v' = Booking.channels_of v.
Proof.
  unfold listing, Booking.channels_of. intros [= _ _ _ _ _ _ _ _ _ -> -> -> _].
  reflexivity.
Qed.

(** X21.  From discovery to booking: the channels that [simulateBooking]
    tries for a vendor after its outreach are those of the vendor as it was
    found.  So the booking of a vendor of the list found never goes through
    web chat, and that of a vendor that comes from Places is confirmed by
    phone or not at all. *)
Theorem discovered_vendor_booking
    (category : Category) (zipCode : string) (uuids : nat -> string) (used : nat)
    (results : list Places.PlaceResult) (found : list VendorData)
    (vendor reached : VendorData) (problemSummary : ProblemSummary)
    (config : PartialConfig)
    (onAttemptUpdate : Booking.AttemptCallback) (onLogUpdate : Booking.LogCallback)
    (r : BookingResult) (w0 w1 w2 w3 w4 w5 : World) :
  Discovery.found_with_places category zipCode uuids used results w0
    = (w1, Ok found) ->
  In vendor found ->
  Outreach.simulateOutreach vendor problemSummary config w2 = (w3, Ok reached) ->
  Booking.simulateBooking reached problemSummary onAttemptUpdate onLogUpdate w4
    = (w5, Ok r) ->
  Booking.channels_of reached = Booking.channels_of vendor /\
  br_channel r <> b_web_chat /\
  (source vendor = Some google -> br_channel r = b_phone).
Proof.
  intros Hfound Hin Hout Hbook.
  destruct (found_with_places_split category zipCode uuids used results w0)
    as (w1' & vendors & mocks & Hrun & _ & _ & _ & Hp & Hd).
  rewrite Hfound in Hrun. injection Hrun as _ ->.
  destruct (simulateOutreach_seen vendor problemSummary config w2)
    as (w3' & v' & ups & Hrun & _ & _ & _ & Hlist & _).
  rewrite Hout in Hrun. injection Hrun as _ <-.
  pose proof (channels_of_listing _ _ Hlist) as Hch.
  split; [exact Hch|].
  assert (Hr : In (br_channel r) (Booking.channels_of reached)).
  { apply simulateBooking_inv in Hbook
      as [(c & Hc & _ & <- & _)|(_ & Hh & _)]; [exact Hc|].
    destruct (Booking.channels_of reached); [discriminate|].
    injection Hh as ->. now left. }
  rewrite Hch in Hr.
  apply in_app_or in Hin as [Hin|Hin].
  - rewrite Forall_forall in Hp. apply list_elem_of_In, Hp in Hin.
    destruct Hin as (_ & _ & _ & _ & _ & _ & _ & Hphone & _).
    rewrite Hphone in Hr. destruct Hr as [<-|[]].
    split; [discriminate|reflexivity].
  - rewrite Forall_forall in Hd. apply list_elem_of_In, Hd in Hin.
    destruct Hin as (Hsrc & _ & _ & _ & Hthree & _).
    rewrite Hthree in Hr. split.
    + intros E. rewrite E in Hr. repeat destruct Hr as [[=]|Hr]. destruct Hr.
    + rewrite Hsrc. discriminate.
Qed.

Lemma discovered_vendor_booking_witness :
  exists found vendor reached r w1 w3 w5,
    Discovery.found_with_places plumber "94102" sample_uuids 0 [full_place]
      (Samples.world (fun _ => Samples.bottom)) = (w1, Ok found) /\
    head found = Some vendor /\
    Outreach.simulateOutreach vendor Samples.ac_problem Samples.no_config w1
      = (w3, Ok reached) /\
    Booking.simulateBooking reached Samples.ac_problem quiet quiet w3 = (w5, Ok r) /\
    Booking.channels_of reached = Booking.channels_of vendor /\
    br_channel r <> b_web_chat /\
    (source vendor = Some google -> br_channel r = b_phone).
Proof.
  destruct (Discovery.found_with_places plumber "94102" sample_uuids 0 [full_place]
              (Samples.world (fun _ => Samples.bottom)))
    as [w1 [[|vendor rest]|e]] eqn:Hfound;
    [vm_compute in Hfound; discriminate Hfound| |vm_compute in Hfound; discriminate Hfound].
  destruct (Outreach.simulateOutreach vendor Samples.ac_problem Samples.no_config w1)
    as [w3 [reached|e]] eqn:Hout.
  - destruct (Booking.simulateBooking reached Samples.ac_problem quiet quiet w3)
      as [w5 [r|e]] eqn:Hbook.
    + exists (vendor :: rest), vendor, reached, r, w1, w3, w5.
      split; [reflexivity|]. split; [reflexivity|].
      split; [exact Hout|]. split; [exact Hbook|].
      exact (discovered_vendor_booking _ _ _ _ _ _ _ _ _ _ _ _ _ _ _ _ _ _ _
               Hfound (or_introl eq_refl) Hout Hbook).
    + exfalso.
      destruct (simulateBooking_quiet reached Samples.ac_problem quiet quiet
                  (fun _ => eq_refl) (fun _ => eq_refl) w3) as (w' & r & Hrun & _).
      congruence.
  - exfalso.
    destruct (simulateOutreach_seen vendor Samples.ac_problem Samples.no_config w1)
      as (w' & v' & ups & Hrun & _).
    congruence.
Defined.

(** ** The intake view and the flow of the application *)

(** X22.  The search term of the Places query is never empty.  A term
    given by the caller is used trimmed and the recommendation service is
    then not asked, even when the term is only white space; the search then
    falls back to the term of the category, as it does when the service
    fails or recommends nothing. *)
Theorem search_term_cases (category : Category)
    (options : option Places.PlacesVendorOptions)
    (gemini : string -> Outcome Places.Recommendation) :
  let override := match options with Some o => Places.overrideTerm o | None => None end in
  let text := match options with Some o => Places.userText o | None => None end in
  let term := Places.search_term category options gemini in
  term <> "" /\
  (JS.truthy_str override = true ->
   term = JS.or_else (option_map JS.trim override) (Places.CATEGORY_TO_QUERY category) /\
   forall other, Places.search_term category options other = term) /\
  (JS.truthy_str override = false ->
   term = Places.CATEGORY_TO_QUERY category \/
   exists said r, text = Some said /\ said <> "" /\ gemini said = Ok r /\
                  Places.rec_success r = true /\ term = Places.rec_term r).
Proof.
  intros override text term. subst term. unfold Places.search_term.
  fold override text.
  assert (Hcat : JS.or_else (Some (Places.CATEGORY_TO_QUERY category)) "contractor"
                 = Places.CATEGORY_TO_QUERY category) by (destruct category; reflexivity).
  assert (Hne : Places.CATEGORY_TO_QUERY category <> "") by (destruct category; discriminate).
  rewrite Hcat.
  assert (Hterm : JS.or_else (option_map JS.trim override)
                             (Places.CATEGORY_TO_QUERY category) <> "").
  { destruct override as [o|]; cbn; [|exact Hne].
    destruct (JS.trim o) eqn:Ht; cbn; [exact Hne|discriminate]. }
  destruct (JS.truthy_str override) eqn:Hov; cbn [negb andb].
  - split; [exact Hterm|]. split; [|discriminate].
    intros _. split; reflexivity.
  - assert (Hdef : JS.or_else (option_map JS.trim override)
                              (Places.CATEGORY_TO_QUERY category)
                   = Places.CATEGORY_TO_QUERY category).
    { destruct override as [[|c o]|]; [reflexivity|discriminate|reflexivity]. }
    rewrite Hdef. split; [|split; [discriminate|intros _]].
    + destruct (JS.truthy_str text); [|exact Hne].
      destruct (gemini _) as [r|e]; [|exact Hne].
      destruct (Places.rec_success r); cbn [andb]; [|exact Hne].
      destruct (Places.rec_term r) eqn:Hr; cbn; [exact Hne|discriminate].
    + destruct text as [[|c said]|]; cbn [JS.truthy_str JS.nonempty];
        [now left| |now left].
      cbn [JS.or_else JS.nonempty].
      destruct (gemini (String c said)) as [r|e] eqn:Hg; [|now left].
      destruct (Places.rec_success r) eqn:Hs; cbn [andb]; [|now left].
      destruct (JS.nonempty (Places.rec_term r)); [|now left].
      right. exists (String c said), r. repeat split; try assumption. discriminate.
Qed.

Example blank_override_disables_recommendation :
  Places.search_query hvac "94102"
    (Some {| Places.overrideTerm := Some "  ";
             Places.userText := Some "my furnace is dead" |})
    (fun _ => Ok {| Places.rec_success := true; Places.rec_term := "furnace repair" |})
  = "AC specialist near 94102".
Proof. reflexivity. Qed.

(** X23.  [handleSubmit] calls [onProblemAnalyzed] exactly when an urgency
    is selected and neither the problem text nor the ZIP code is blank.  It
    passes the analysis of the text with the urgency replaced by the
    selection, [high] for urgent and [low] for flexible: the urgency that
    the classifier finds never leaves the intake view.  The ZIP code is
    passed as typed, the photos only when there are some. *)
Theorem handleSubmit_delivers {Photo : Type} (useTextInput : bool)
    (textInput voiceTranscript zipCode : string)
    (selectedUrgency : option Intake.Selection) (photos : list Photo) :
  let problemText := if useTextInput then textInput else voiceTranscript in
  let analysis := Classifier.analyzeProblem problemText in
  match Intake.handleSubmit useTextInput textInput voiceTranscript zipCode
                            selectedUrgency photos with
  | Some (p, zip, passed) =>
      JS.trim problemText <> "" /\ JS.trim zipCode <> "" /\ zip = zipCode /\
      (selectedUrgency = Some Intake.urgent /\ urgency p = high \/
       selectedUrgency = Some Intake.flexible /\ urgency p = low) /\
      transcript p = problemText /\ summary p = summary analysis /\
      category p = category analysis /\ symptoms p = symptoms analysis /\
      modelSerial p = modelSerial analysis /\
      (photos = [] /\ passed = None \/ photos <> [] /\ passed = Some photos)
  | None =>
      selectedUrgency = None \/ JS.trim problemText = "" \/ JS.trim zipCode = ""
  end.
Proof.
  intros problemText analysis. unfold Intake.handleSubmit. fold problemText.
  destruct selectedUrgency as [sel|]; [|now left].
  destruct (JS.trim problemText) eqn:Ht; cbn [JS.nonempty negb orb];
    [right; now left|].
  destruct (JS.trim zipCode) eqn:Hz; cbn [JS.nonempty negb];
    [right; now right|].
  split; [discriminate|]. split; [discriminate|]. split; [reflexivity|].
  split; [destruct sel; [left|right]; split; reflexivity|].
  repeat (split; [reflexivity|]).
  destruct photos; [left|right]; split; try reflexivity; discriminate.
Qed.

Example emergency_text_marked_flexible_is_low :
  urgency (Classifier.analyzeProblem "Gas leak, this is an emergency") = emergency /\
  match Intake.handleSubmit (Photo := unit) true "Gas leak, this is an emergency" ""
          "94102" (Some Intake.flexible) [] with
  | Some (p, _, _) => urgency p = low
  | None => False
  end.
Proof. vm_compute. split; reflexivity. Qed.

Lemma consistent_render (m : App.Model) :
  consistent m -> exists view, App.render m = Some view.
Proof.
  intros [_ Hstate]. unfold App.render.
  destruct (App.state m).
  - eauto.
  - destruct (App.problemSummary m); [eauto|congruence].
  - destruct Hstate as [Hp Hv].
    destruct (App.selectedVendor m); [|congruence].
    destruct (App.problemSummary m); [eauto|congruence].
  - destruct Hstate as (Hp & Hv & Hr).
    destruct (App.bookingResult m); [|congruence].
    destruct (App.selectedVendor m); [|congruence].
    destruct (App.problemSummary m); [eauto|congruence].
Qed.

Lemma consistent_step (m m' : App.Model) (e : App.Event) :
  consistent m -> App.step m e = Some m' -> consistent m'.
Proof.
  intros [Hsel Hstate]. unfold App.step, App.render.
  destruct (App.state m) eqn:Hs.
  - destruct e; try discriminate. intros [= <-]. split; [exact Hsel|].
    cbn. discriminate.
  - destruct (App.problemSummary m) as [p|] eqn:Hp; [|congruence].
    destruct e; try discriminate.
    + destruct (Discovery.bookable vendor) eqn:Hb; [|discriminate].
      intros [= <-]. split.
      * cbn. intros v [= <-]. exact Hb.
      * cbn. rewrite Hp. split; discriminate.
    + intros [= <-]. split; [exact Hsel|]. exact I.
  - destruct Hstate as [Hp Hv].
    destruct (App.selectedVendor m) as [v|] eqn:Ev; [|congruence].
    destruct (App.problemSummary m) as [p|] eqn:Ep; [|congruence].
    destruct e; try discriminate.
    + intros [= <-]. split; [cbn; rewrite Ev; exact Hsel|].
      cbn. rewrite Ev, Ep. repeat split; discriminate.
    + intros [= <-]. split; [cbn; rewrite Ev; exact Hsel|].
      cbn. rewrite Ep. discriminate.
  - destruct Hstate as (Hp & Hv & Hr).
    destruct (App.bookingResult m) as [r|] eqn:Er; [|congruence].
    destruct (App.selectedVendor m) as [v|] eqn:Ev; [|congruence].
    destruct (App.problemSummary m) as [p|] eqn:Ep; [|congruence].
    destruct e; try discriminate.
    intros [= <-]. split; [cbn; discriminate|exact I].
Qed.

Lemma consistent_run (events : list App.Event) :
  forall m m', consistent m -> App.run m events = Some m' -> consistent m'.
Proof.
  induction events as [|e events IH]; intros m m' Hm; cbn [App.run].
  - now intros [= <-].
  - destruct (App.step m e) as [m1|] eqn:Hstep; [|discriminate].
    apply IH. eapply consistent_step; eassumption.
Qed.

(** X24.  Whatever the user does, the application always has a view on
    screen: after any sequence of events that the views allow, one of the
    four guards of [App] holds.  The vendor of the booking view and of the
    summary view has completed its outreach and has an ETA, and a vendor
    remembered from an earlier pass still has. *)
Theorem app_always_shows_a_view (events : list App.Event) (m : App.Model) :
  App.run App.initial events = Some m ->
  exists view,
    App.render m = Some view /\
    (forall v, App.selectedVendor m = Some v ->
               outreachStatus v = completed /\ JS.truthy_str (eta v) = true) /\
    match view with
    | App.BookingFlowView v _ | App.BookingSummaryView _ v _ =>
        App.selectedVendor m = Some v
    | _ => True
    end.
Proof.
  intros Hrun.
  assert (Hinit : consistent App.initial) by (split; [discriminate|exact I]).
  pose proof (consistent_run events _ _ Hinit Hrun) as Hm.
  destruct (consistent_render m Hm) as [view Hview].
  exists view. split; [exact Hview|]. split.
  - intros v Hv. destruct Hm as [Hsel _]. specialize (Hsel v Hv).
    unfold Discovery.bookable in Hsel.
    destruct (outreachStatus v); try discriminate.
    split; [reflexivity|]. now destruct (JS.truthy_str (eta v)).
  - revert Hview. unfold App.render.
    destruct (App.state m).
    + now intros [= <-].
    + destruct (App.problemSummary m); [now intros [= <-]|discriminate].
    + destruct (App.selectedVendor m); [|discriminate].
      destruct (App.problemSummary m); [now intros [= <-]|discriminate].
    + destruct (App.bookingResult m); [|discriminate].
      destruct (App.selectedVendor m); [|discriminate].
      destruct (App.problemSummary m); [now intros [= <-]|discriminate].
Qed.

Lemma app_always_shows_a_view_witness :
  exists m view,
    App.run App.initial
      [App.ProblemAnalyzed Samples.ac_problem "94102";
       App.VendorSelected Samples.acme;
       App.BackToDiscovery;
       App.VendorSelected Samples.acme;
       App.BookingComplete sample_result] = Some m /\
    App.render m = Some view /\
    (forall v, App.selectedVendor m = Some v ->
               outreachStatus v = completed /\ JS.truthy_str (eta v) = true) /\
    match view with
    | App.BookingFlowView v _ | App.BookingSummaryView _ v _ =>
        App.selectedVendor m = Some v
    | _ => True
    end.
Proof.
  eexists. 
  destruct (app_always_shows_a_view
              [App.ProblemAnalyzed Samples.ac_problem "94102";
               App.VendorSelected Samples.acme;
               App.BackToDiscovery;
               App.VendorSelected Samples.acme;
               App.BookingComplete sample_result] _ eq_refl) as (view & Hview).
  exists view. split; [reflexivity|exact Hview].
Defined.

(** A vendor whose outreach has failed cannot be selected: the event is
    refused. *)
Example unreachable_vendor_cannot_be_booked :
  App.run App.initial
    [App.ProblemAnalyzed Samples.ac_problem "94102";
     App.VendorSelected Samples.places_vendor] = None.
Proof. reflexivity. Qed.

(** ** The rate limiter *)

Lemma filter_after_filter (a b : Z) (l : list Z) :
  (a <= b)%Z ->
  List.filter (fun t => (b <? t)%Z) (List.filter (fun t => (a <? t)%Z) l)
  = List.filter (fun t => (b <? t)%Z) l.
Proof.
  intros Hab. induction l as [|t l IH]; [reflexivity|]. cbn [List.filter].
  destruct (Z.ltb_spec a t) as [Ha|Ha]; cbn [List.filter].
  - now rewrite IH.
  - destruct (Z.ltb_spec b t) as [Hb|Hb]; [lia|exact IH].
Qed.

Lemma default_Some {A} (d x : A) : default d (Some x) = x.
Proof. reflexivity. Qed.

Section RateLimiterFacts.

Variables (windowMs maxRequests : Z) (ip : string).

Lemma limiter_stored (ip' : string) (t : Z) (requests requests' : gmap string (list Z))
    (response : RateLimiter.Response) :
  RateLimiter.limiter windowMs maxRequests ip' t requests = (requests', response) ->
  let cleaned := List.filter (fun x => (t - windowMs <? x)%Z)
                             (default [] (requests !! ip')) in
  ((response = RateLimiter.Next /\
    (Z.of_nat (length cleaned) < maxRequests)%Z /\
    requests' !! ip' = Some (cleaned ++ [t])%list) \/
   (response = RateLimiter.TooManyRequests ((windowMs + 999) / 1000)%Z /\
    (maxRequests <= Z.of_nat (length cleaned))%Z /\
    requests' !! ip' = Some cleaned)) /\
  forall j, j <> ip' -> requests' !! j = requests !! j.
Proof.
  unfold RateLimiter.limiter. cbn zeta.
  destruct (requests !! ip') as [timestamps|] eqn:Hlook; cbn [default];
    rewrite lookup_insert_eq; cbn [default List.filter length];
    match goal with
    | |- context [(maxRequests <=? ?n)%Z] => destruct (Z.leb_spec maxRequests n)
    end;
    intros [= <- <-]; (split; [|intros j Hj; now rewrite ?lookup_insert_ne by congruence]).
  - right. split; [reflexivity|]. split; [assumption|]. now rewrite lookup_insert_eq.
  - left. split; [reflexivity|]. split; [assumption|]. now rewrite lookup_insert_eq.
  - right. split; [reflexivity|]. split; [assumption|]. now rewrite lookup_insert_eq.
  - left. split; [reflexivity|]. split; [assumption|]. now rewrite lookup_insert_eq.
Qed.

Lemma serve_window (arrivals : list (string * Z)) :
  forall (T : Z) (A : list Z) (requests : gmap string (list Z)),
    (forall a, (T - windowMs <= a)%Z ->
       List.filter (fun t => (a <? t)%Z) (default [] (requests !! ip))
       = List.filter (fun t => (a <? t)%Z) A) ->
    (forall b, (Z.of_nat (length (List.filter (in_window windowMs b) A))
                <= Z.max 0 maxRequests)%Z) ->
    Forall (fun t => (t <= T)%Z) A ->
    nondecreasing_from T (map snd arrivals) = true ->
    forall b,
      (Z.of_nat (length (List.filter (in_window windowMs b)
         (A ++ let_through ip
                  (fst (RateLimiter.serve windowMs maxRequests arrivals requests)))))
       <= Z.max 0 maxRequests)%Z.
Proof.
  induction arrivals as [|[ip' t] rest IH]; intros T A requests Hstore Hbound Hpast Hsorted b;
    cbn [RateLimiter.serve].
  - cbn. rewrite app_nil_r. apply Hbound.
  - cbn [map snd nondecreasing_from] in Hsorted.
    apply andb_prop in Hsorted as [HTt Hsorted]. apply Z.leb_le in HTt.
    destruct (RateLimiter.limiter windowMs maxRequests ip' t requests)
      as [requests' response] eqn:Hl.
    destruct (RateLimiter.serve windowMs maxRequests rest requests')
      as [served final] eqn:Hs.
    cbn [fst let_through].
    assert (Hserved : served = fst (RateLimiter.serve windowMs maxRequests rest requests'))
      by now rewrite Hs.
    apply limiter_stored in Hl as [Hcase Hother]. cbn zeta in Hcase.
    assert (Hpast' : Forall (fun x => (x <= t)%Z) A).
    { eapply Forall_impl; [exact Hpast|]. cbn. intros; lia. }
    destruct (String.eqb_spec ip' ip) as [->|Hne].
    + destruct Hcase as [(-> & Hroom & Hnew)|(-> & Hfull & Hnew)].
      * (* let through *)
        replace (A ++ t :: let_through ip served)%list
          with ((A ++ [t]) ++ let_through ip served)%list by now rewrite <- app_assoc.
        rewrite Hserved. apply (IH t).
        -- intros a Ha. rewrite Hnew, default_Some.
           rewrite !List.filter_app. f_equal.
           rewrite filter_after_filter by lia. apply Hstore. lia.
        -- intros b'. rewrite List.filter_app, length_app. cbn [List.filter].
           unfold in_window at 2.
           destruct (Z.ltb_spec (b' - windowMs) t) as [Hlo|Hlo]; cbn [andb];
             [destruct (Z.leb_spec t b') as [Hhi|Hhi]|]; cbn [length];
             try (specialize (Hbound b'); lia).
           (* [t] is in the window: the earlier ones in it are in the cleaned list *)
           assert (Hsub : (length (List.filter (in_window windowMs b') A)
                           <= length (List.filter (fun x => (t - windowMs <? x)%Z) A))%nat).
           { clear -Hpast' Hlo Hhi. induction Hpast' as [|x A Hx _ IH]; [reflexivity|].
             cbn [List.filter]. unfold in_window at 1.
             destruct (Z.ltb_spec (b' - windowMs) x); cbn [andb].
             - destruct (Z.ltb_spec (t - windowMs) x); [|lia].
               destruct (Z.leb_spec x b'); cbn [length]; lia.
             - destruct (Z.ltb_spec (t - windowMs) x); cbn [length]; lia. }
           rewrite <- (Hstore (t - windowMs)%Z) in Hsub by lia. lia.
        -- apply Forall_app. split; [exact Hpast'|]. constructor; [lia|constructor].
        -- exact Hsorted.
      * (* rejected *)
        rewrite Hserved. apply (IH t).
        -- intros a Ha. rewrite Hnew, default_Some.
           rewrite filter_after_filter by lia. apply Hstore. lia.
        -- exact Hbound.
        -- exact Hpast'.
        -- exact Hsorted.
    + assert (Hsame : let_through ip ((ip', t, response) :: served) = let_through ip served).
      { cbn [let_through]. destruct response; [|reflexivity].
        destruct (String.eqb_spec ip' ip); [congruence|reflexivity]. }
      cbn [let_through] in Hsame.
      assert (Hgoal : (Z.of_nat (length (List.filter (in_window windowMs b)
                          (A ++ let_through ip served))) <= Z.max 0 maxRequests)%Z).
      { rewrite Hserved. apply (IH t).
        - intros a Ha. rewrite Hother by congruence. apply Hstore. lia.
        - exact Hbound.
        - exact Hpast'.
        - exact Hsorted. }
      destruct response; [|exact Hgoal].
      destruct (String.eqb_spec ip' ip); [congruence|exact Hgoal].
Qed.

Lemma serve_decides (arrivals : list (string * Z)) :
  forall (T : Z) (A : list Z) (requests : gmap string (list Z)),
    (forall a, (T - windowMs <= a)%Z ->
       List.filter (fun t => (a <? t)%Z) (default [] (requests !! ip))
       = List.filter (fun t => (a <? t)%Z) A) ->
    nondecreasing_from T (map snd arrivals) = true ->
    forall pre t response post,
      fst (RateLimiter.serve windowMs maxRequests arrivals requests)
        = (pre ++ (ip, t, response) :: post)%list ->
      let recent := List.filter (fun x => (t - windowMs <? x)%Z)
                                (A ++ let_through ip pre) in
      match response with
      | RateLimiter.Next => (Z.of_nat (length recent) < maxRequests)%Z
      | RateLimiter.TooManyRequests retryAfter =>
          (maxRequests <= Z.of_nat (length recent))%Z /\
          retryAfter = ((windowMs + 999) / 1000)%Z
      end.
Proof.
  induction arrivals as [|[ip' t'] rest IH];
    intros T A requests Hstore Hsorted pre t response post;
    cbn [RateLimiter.serve].
  - cbn. intros E. destruct pre; discriminate.
  - cbn [map snd nondecreasing_from] in Hsorted.
    apply andb_prop in Hsorted as [HTt Hsorted]. apply Z.leb_le in HTt.
    destruct (RateLimiter.limiter windowMs maxRequests ip' t' requests)
      as [requests' response'] eqn:Hl.
    destruct (RateLimiter.serve windowMs maxRequests rest requests')
      as [served final] eqn:Hs.
    cbn [fst].
    assert (Hserved : served = fst (RateLimiter.serve windowMs maxRequests rest requests'))
      by now rewrite Hs.
    apply limiter_stored in Hl as [Hcase Hother]. cbn zeta in Hcase.
    destruct pre as [|first pre]; cbn [app].
    + (* the request at the head *)
      intros [= -> -> -> _]. cbn [let_through]. rewrite app_nil_r.
      rewrite <- (Hstore (t - windowMs)%Z) by lia.
      destruct Hcase as [(-> & Hroom & _)|(-> & Hfull & _)];
        [exact Hroom|split; [exact Hfull|reflexivity]].
    + intros [= <- Hrest]. rewrite Hserved in Hrest.
      destruct (String.eqb_spec ip' ip) as [->|Hne].
      * destruct Hcase as [(-> & Hroom & Hnew)|(-> & Hfull & Hnew)].
        -- cbn [let_through]. rewrite String.eqb_refl.
           replace (A ++ t' :: let_through ip pre)%list
             with ((A ++ [t']) ++ let_through ip pre)%list by now rewrite <- app_assoc.
           refine (IH t' (A ++ [t'])%list requests' _ Hsorted pre t response post Hrest).
           intros a Ha. rewrite Hnew, default_Some.
           rewrite !List.filter_app. f_equal.
           rewrite filter_after_filter by lia. apply Hstore. lia.
        -- cbn [let_through].
           refine (IH t' A requests' _ Hsorted pre t response post Hrest).
           intros a Ha. rewrite Hnew, default_Some.
           rewrite filter_after_filter by lia. apply Hstore. lia.
      * assert (Hsame : let_through ip ((ip', t', response') :: pre) = let_through ip pre).
        { cbn [let_through]. destruct response'; [|reflexivity].
          destruct (String.eqb_spec ip' ip); [congruence|reflexivity]. }
        rewrite Hsame.
        refine (IH t' A requests' _ Hsorted pre t response post Hrest).
        intros a Ha. rewrite Hother by congruence. apply Hstore. lia.
Qed.

End RateLimiterFacts.

(** X25.  The limiter keeps its promise on a sliding window: when the clock
    does not go back between requests, no window of [windowMs] ms holds
    more than [maxRequests] requests of one address that were let through
    (none when [maxRequests] is not positive), however the requests of the
    other addresses fall in between. *)
Theorem rate_limit_window (windowMs maxRequests : Z) (arrivals : list (string * Z))
    (ip : string) (b : Z) :
  nondecreasing (map snd arrivals) = true ->
  let served := fst (RateLimiter.serve windowMs maxRequests arrivals ∅) in
  (Z.of_nat (length (List.filter (in_window windowMs b) (let_through ip served)))
   <= Z.max 0 maxRequests)%Z.
Proof.
  intros Hsorted served. subst served.
  destruct arrivals as [|[ip' t] rest] eqn:Harr; [cbn; lia|]. rewrite <- Harr.
  change (let_through ip (fst (RateLimiter.serve windowMs maxRequests arrivals ∅)))
    with ([] ++ let_through ip (fst (RateLimiter.serve windowMs maxRequests arrivals ∅)))%list.
  apply (serve_window windowMs maxRequests ip arrivals t).
  - intros a _. rewrite lookup_empty. reflexivity.
  - intros b'. cbn. lia.
  - constructor.
  - rewrite Harr. cbn [map snd nondecreasing_from nondecreasing] in *.
    rewrite Z.leb_refl. exact Hsorted.
Qed.

Lemma rate_limit_window_witness :
  let served :=
    fst (RateLimiter.serve 1000 2
           [("a", 0); ("a", 1); ("b", 1); ("a", 2); ("a", 1000); ("a", 1001);
            ("a", 1002)]%Z ∅) in
  map snd served
  = [RateLimiter.Next; RateLimiter.Next; RateLimiter.Next;
     RateLimiter.TooManyRequests 1; RateLimiter.Next; RateLimiter.Next;
     RateLimiter.TooManyRequests 1] /\
  (Z.of_nat (length (List.filter (in_window 1000 1001) (let_through "a" served)))
   <= Z.max 0 2)%Z.
Proof.
  split; [vm_compute; reflexivity|].
  apply (rate_limit_window 1000 2
           [("a", 0); ("a", 1); ("b", 1); ("a", 2); ("a", 1000); ("a", 1001);
            ("a", 1002)]%Z "a" 1001).
  reflexivity.
Defined.

(** X26.  What the limiter answers, when the clock does not go back: a
    request is let through exactly when fewer than [maxRequests] earlier
    requests of its address were let through in the [windowMs] ms before
    it; requests that were refused do not count.  A refusal tells to retry
    after the window length in seconds, rounded up. *)
Theorem rate_limiter_decides (windowMs maxRequests : Z) (arrivals : list (string * Z))
    (ip : string) (t : Z) (response : RateLimiter.Response)
    (pre post : list (string * Z * RateLimiter.Response)) :
  nondecreasing (map snd arrivals) = true ->
  fst (RateLimiter.serve windowMs maxRequests arrivals ∅)
    = (pre ++ (ip, t, response) :: post)%list ->
  let recent := List.filter (fun x => (t - windowMs <? x)%Z) (let_through ip pre) in
  match response with
  | RateLimiter.Next => (Z.of_nat (length recent) < maxRequests)%Z
  | RateLimiter.TooManyRequests retryAfter =>
      (maxRequests <= Z.of_nat (length recent))%Z /\
      (windowMs <= retryAfter * 1000 < windowMs + 1000)%Z
  end.
Proof.
  intros Hsorted Hserved.
  destruct arrivals as [|[ip' t'] rest] eqn:Harr;
    [destruct pre; discriminate Hserved|]. rewrite <- Harr in *.
  pose proof (serve_decides windowMs maxRequests ip arrivals t' [] ∅) as H.
  cbn [app] in H.
  specialize (H (fun a _ => eq_refl)).
  assert (Hfrom : nondecreasing_from t' (map snd arrivals) = true).
  { rewrite Harr in *. cbn [map snd nondecreasing_from nondecreasing] in *.
    rewrite Z.leb_refl. exact Hsorted. }
  specialize (H Hfrom pre t response post Hserved). cbn zeta in *.
  destruct response as [|retryAfter]; [exact H|].
  destruct H as [Hfull ->]. split; [exact Hfull|].
  pose proof (Z.div_mod (windowMs + 999) 1000 ltac:(lia)).
  pose proof (Z.mod_pos_bound (windowMs + 999) 1000 ltac:(lia)). lia.
Qed.

Lemma rate_limiter_decides_witness :
  (2 <= Z.of_nat (length (List.filter (fun x => (2 - 1000 <? x)%Z)
                            (let_through "a" [("a", 0%Z, RateLimiter.Next);
                                           ("a", 1%Z, RateLimiter.Next)]))))%Z /\
  (1000 <= 1 * 1000 < 1000 + 1000)%Z.
Proof.
  apply (rate_limiter_decides 1000 2 [("a", 0); ("a", 1); ("a", 2)]%Z "a" 2
           (RateLimiter.TooManyRequests 1)
           [("a", 0%Z, RateLimiter.Next); ("a", 1%Z, RateLimiter.Next)] []).
  - reflexivity.
  - vm_compute. reflexivity.
Defined.

(** ** The API key check *)

(** X27.  [validateApiKey] lets a request through exactly when the key it
    presents, the [x-api-key] header or, when that one is absent or empty,
    the [authorization] header, is not empty and is the configured key or
    "Bearer " followed by it.  A request without a key never passes.  When
    no key is configured the text "Bearer undefined" passes; a wrong
    [x-api-key] is not made good by a right [authorization] header. *)
Theorem validateApiKey_accepts (x_api_key authorization API_KEY : option string) :
  (ApiKey.validateApiKey x_api_key authorization API_KEY = ApiKey.Next <->
   exists key,
     JS.or_str x_api_key authorization = Some key /\ key <> "" /\
     (API_KEY = Some key \/ key = "Bearer " ++ ApiKey.template API_KEY)) /\
  ApiKey.validateApiKey None None API_KEY <> ApiKey.Next /\
  ApiKey.validateApiKey None (Some "Bearer undefined") None = ApiKey.Next /\
  (JS.truthy_str x_api_key = true ->
   forall other,
     ApiKey.validateApiKey x_api_key other API_KEY
     = ApiKey.validateApiKey x_api_key authorization API_KEY).
Proof.
  split; [|split; [discriminate|split; [reflexivity|]]].
  - unfold ApiKey.validateApiKey.
    destruct (JS.or_str x_api_key authorization) as [key|]; [|split].
    + destruct key as [|c key]; cbn [JS.nonempty negb].
      * split; [discriminate|]. intros (k & [= <-] & Hne & _). congruence.
      * split.
        -- intros Hok. exists (String c key). split; [reflexivity|].
           split; [discriminate|].
           destruct (orb _ _) eqn:Hor; [|discriminate].
           apply orb_prop in Hor as [H|H].
           ++ left. destruct API_KEY as [expected|]; [|discriminate].
              apply String.eqb_eq in H. now rewrite H.
           ++ right. now apply String.eqb_eq in H.
        -- intros (k & [= <-] & _ & [->|Hk]).
           ++ now rewrite String.eqb_refl.
           ++ rewrite <- Hk, String.eqb_refl, orb_true_r. reflexivity.
    + discriminate.
    + intros (k & [=] & _).
  - intros Hx other. unfold ApiKey.validateApiKey, JS.or_str. now rewrite Hx.
Qed.

Example wrong_header_hides_right_one :
  ApiKey.validateApiKey (Some "guess") (Some "Bearer s3cret") (Some "s3cret")
  = ApiKey.Unauthorized "Invalid API key" /\
  ApiKey.validateApiKey (Some "") (Some "Bearer s3cret") (Some "s3cret")
  = ApiKey.Next /\
  ApiKey.validateApiKey None (Some "Bearer ") (Some "") = ApiKey.Next.
Proof. repeat split. Qed.

(** ** The scripts of the booking channels *)

Lemma plain_cons (c : ascii) (s : string) :
  plain (String c s) = true -> c <> "{"%char /\ c <> "$"%char /\ plain s = true.
Proof.
  unfold plain. cbn [list_ascii_of_string forallb]. intros H.
  apply andb_prop in H as [Hc Hs]. apply andb_prop in Hc as [H1 H2].
  repeat split; [| |exact Hs]; intros ->; discriminate.
Qed.

Lemma substitution_plain (repl matched before after : string) :
  plain repl = true -> JS.substitution repl matched before after = repl.
Proof.
  induction repl as [|c repl IH]; [reflexivity|]. intros Hp.
  apply plain_cons in Hp as (_ & Hd & Hp). specialize (IH Hp).
  destruct c as [[] [] [] [] [] [] [] []]; try congruence;
    cbn [JS.substitution]; now rewrite IH.
Qed.

Lemma replace_from_skip (h : Hole) (repl s : string) :
  plain s = true ->
  forall before rest,
    JS.replace_from before (s ++ rest) (hole_text h) repl
    = s ++ JS.replace_from (JS.rev_chars s before) rest (hole_text h) repl.
Proof.
  induction s as [|c s IH]; intros Hp before rest; [reflexivity|].
  apply plain_cons in Hp as (Hb & _ & Hp).
  change (String c s ++ rest) with (String c (s ++ rest)).
  change (String c s ++ JS.replace_from (JS.rev_chars (String c s) before) rest
                                        (hole_text h) repl)
    with (String c (s ++ JS.replace_from (JS.rev_chars s (String c before)) rest
                                         (hole_text h) repl)).
  rewrite <- (IH Hp).
  destruct h; cbn [hole_text JS.replace_from String.prefix];
    (destruct (ascii_dec "{" c) as [E|_]; [congruence|reflexivity]).
Qed.

Lemma replace_from_eq (before s pat repl : string) :
  JS.replace_from before s pat repl
  = if String.prefix pat s
    then JS.substitution repl pat (JS.rev_chars before "")
           (JS.drop_chars (String.length pat) s) ++
         JS.drop_chars (String.length pat) s
    else match s with
         | EmptyString => EmptyString
         | String c s' => String c (JS.replace_from (String c before) s' pat repl)
         end.
Proof. destruct s; reflexivity. Qed.

Lemma prefix_append (pat rest : string) : String.prefix pat (pat ++ rest) = true.
Proof.
  induction pat as [|c pat IH]; [now destruct rest|].
  change (String c pat ++ rest) with (String c (pat ++ rest)).
  cbn [String.prefix]. now destruct (ascii_dec c c).
Qed.

Lemma drop_chars_append (pat rest : string) :
  JS.drop_chars (String.length pat) (pat ++ rest) = rest.
Proof.
  induction pat as [|c pat IH]; [reflexivity|].
  change (String c pat ++ rest) with (String c (pat ++ rest)). exact IH.
Qed.

Lemma replace_from_hit (pat repl before rest : string) :
  JS.replace_from before (pat ++ rest) pat repl
  = JS.substitution repl pat (JS.rev_chars before "") rest ++ rest.
Proof. now rewrite replace_from_eq, prefix_append, drop_chars_append. Qed.

Lemma replace_from_other (h h' : Hole) (repl before rest : string) :
  Hole_eqb h' h = false ->
  JS.replace_from before (hole_text h' ++ rest) (hole_text h) repl
  = hole_text h' ++ JS.replace_from (JS.rev_chars (hole_text h') before) rest
                                    (hole_text h) repl.
Proof.
  intros Hne. rewrite replace_from_eq.
  assert (Hmiss : String.prefix (hole_text h) (hole_text h' ++ rest) = false)
    by (destruct h, h'; try discriminate Hne; vm_compute; reflexivity).
  rewrite Hmiss.
  destruct h'.
  - change (hole_text h_vendor ++ rest) with (String "{" ("vendor}" ++ rest)).
    lazy beta iota. now rewrite replace_from_skip.
  - change (hole_text h_problem ++ rest) with (String "{" ("problem}" ++ rest)).
    lazy beta iota. now rewrite replace_from_skip.
  - change (hole_text h_eta ++ rest) with (String "{" ("eta}" ++ rest)).
    lazy beta iota. now rewrite replace_from_skip.
  - change (hole_text h_number ++ rest)
      with (String "{" ("confirmationNumber}" ++ rest)).
    lazy beta iota. now rewrite replace_from_skip.
Qed.

Lemma replace_text (h : Hole) (v : string) (pieces : list Piece) :
  plain_pieces pieces = true -> plain v = true ->
  forall before,
    JS.replace_from before (text pieces) (hole_text h) v
    = text (fill_first h v pieces).
Proof.
  intros Hpieces Hv. induction pieces as [|[s|h'] rest IH]; intros before;
    cbn [text fill_first].
  - destruct h; reflexivity.
  - cbn [plain_pieces forallb] in Hpieces. apply andb_prop in Hpieces as [Hs Hrest].
    rewrite replace_from_skip by exact Hs. cbn [text]. now rewrite IH.
  - cbn [plain_pieces forallb] in Hpieces. apply andb_prop in Hpieces as [_ Hrest].
    destruct (Hole_eqb h' h) eqn:E.
    + assert (h' = h) as -> by (destruct h, h'; try discriminate; reflexivity).
      rewrite replace_from_hit, substitution_plain by exact Hv. reflexivity.
    + rewrite replace_from_other by exact E. cbn [text]. now rewrite IH.
Qed.

Lemma plain_fill_first (h : Hole) (v : string) (pieces : list Piece) :
  plain_pieces pieces = true -> plain v = true ->
  plain_pieces (fill_first h v pieces) = true.
Proof.
  unfold plain_pieces. intros Hpieces Hv.
  induction pieces as [|[s|h'] rest IH]; cbn [fill_first]; [reflexivity| |];
    cbn [forallb] in *.
  - apply andb_prop in Hpieces as [Hs Hrest]. rewrite Hs. now apply IH.
  - destruct (Hole_eqb h' h); cbn [forallb].
    + now rewrite Hv.
    + now apply IH.
Qed.

Lemma fill_script_text (pieces : list Piece) (vendor : VendorData)
    (problemSummary : ProblemSummary) (number : string) :
  plain_pieces pieces = true ->
  plain (name vendor) = true -> plain (summary problemSummary) = true ->
  plain (JS.or_else (eta vendor) "requested time") = true -> plain number = true ->
  Booking.fill_script (text pieces) vendor problemSummary number
  = text (fill_first h_number number
            (fill_first h_eta (JS.or_else (eta vendor) "requested time")
               (fill_first h_problem (summary problemSummary)
                  (fill_first h_vendor (name vendor) pieces)))).
Proof.
  intros Hp Hn Hs He Hc. unfold Booking.fill_script, JS.replace.
  change "{vendor}" with (hole_text h_vendor).
  change "{problem}" with (hole_text h_problem).
  change "{eta}" with (hole_text h_eta).
  change "{confirmationNumber}" with (hole_text h_number).
  rewrite (replace_text h_vendor) by assumption.
  rewrite (replace_text h_problem) by (try apply plain_fill_first; assumption).
  rewrite (replace_text h_eta) by (repeat apply plain_fill_first; assumption).
  rewrite (replace_text h_number) by (repeat apply plain_fill_first; assumption).
  reflexivity.
Qed.

(** X28.  The messages of a channel are its scripts with each placeholder
    standing for its value: the name of the vendor, the summary of the
    problem, the ETA of the vendor (or "requested time") and the
    confirmation number, provided that none of these four texts holds a
    brace or a dollar sign, which the replacement would read as a
    placeholder or as a pattern. *)
Theorem scripts_are_filled (channel : BookingChannel) (vendor : VendorData)
    (problemSummary : ProblemSummary) (number : string) :
  plain (name vendor) = true -> plain (summary problemSummary) = true ->
  plain (JS.or_else (eta vendor) "requested time") = true -> plain number = true ->
  map text (script_pieces channel) = Booking.scripts_of channel /\
  map (fun raw => Booking.fill_script raw vendor problemSummary number)
      (Booking.scripts_of channel)
  = map (instance (name vendor) (summary problemSummary)
                  (JS.or_else (eta vendor) "requested time") number)
        (script_pieces channel).
Proof.
  intros Hn Hs He Hc. split; [destruct channel; reflexivity|].
  assert (Hall : forall pieces, plain_pieces pieces = true ->
            In pieces (script_pieces channel) ->
            Booking.fill_script (text pieces) vendor problemSummary number
            = instance (name vendor) (summary problemSummary)
                       (JS.or_else (eta vendor) "requested time") number pieces).
  { intros pieces Hp Hin. rewrite fill_script_text by assumption.
    destruct channel; cbn [script_pieces] in Hin;
      repeat (destruct Hin as [<-|Hin]; [reflexivity|]); destruct Hin. }
  assert (Hplain : Forall (fun pieces => plain_pieces pieces = true)
                          (script_pieces channel))
    by (destruct channel; repeat constructor).
  assert (Hraw : Booking.scripts_of channel = map text (script_pieces channel))
    by (destruct channel; reflexivity).
  rewrite Hraw, map_map. apply map_ext_in. intros pieces Hin.
  apply Hall; [|exact Hin].
  rewrite List.Forall_forall in Hplain. now apply Hplain.
Qed.

Lemma scripts_are_filled_witness :
  map (fun raw => Booking.fill_script raw Samples.acme Samples.ac_problem "GSP-4FZYO8")
      (Booking.scripts_of b_phone)
  = [ "Calling Acme Air... Connected! Confirming availability for My AC is broken and leaking..";
      "Speaking with receptionist... Checking schedule for Tomorrow 9-11 AM.";
      "Confirming appointment details... Getting confirmation number.";
      "Appointment confirmed! Booking reference: GSP-4FZYO8" ].
Proof.
  rewrite (proj2 (scripts_are_filled b_phone Samples.acme Samples.ac_problem
                    "GSP-4FZYO8" eq_refl eq_refl eq_refl eq_refl)).
  reflexivity.
Defined.

(** A vendor name with a dollar pattern brings the placeholder back, and a
    name with a placeholder is filled with the problem. *)
Example vendor_name_read_as_pattern :
  let named n :=
    {| id := "v"; name := n; rating := 4; reviewCount := 1; v_phone := "N/A";
       website := None; address := "a"; distance := 1; v_category := "c";
       hasWebChat := false; hasWhatsApp := false; hasSms := None;
       eta := None; serviceFee := None; outreachStatus := completed;
       outreachLog := []; source := None |} in
  Booking.fill_script "Sending SMS to {vendor}..." (named "Smith $& Sons")
    Samples.ac_problem "GSP-1"
  = "Sending SMS to Smith {vendor} Sons..." /\
  Booking.fill_script "Sending SMS to {vendor}..." (named "{problem}")
    Samples.ac_problem "GSP-1"
  = "Sending SMS to My AC is broken and leaking....".
Proof. vm_compute. split; reflexivity. Qed.

(** ** The simulated time of a booking *)







Section BookingTime.

Import Booking.

Variables (vendor : VendorData) (problemSummary : ProblemSummary).
Variables (onAttemptUpdate : AttemptCallback) (onLogUpdate : LogCallback).





Hypothesis quietA : returns_normally onAttemptUpdate.
Hypothesis quietL : returns_normally onLogUpdate.


End BookingTime.


